(** * Linear layer of the Syntari kernel library: host orchestration and
      bias fusion (Code/math/Linear.cuH, with the declarations of Syntari.cuH)

    The development embeds [linear], the [addBiasEfficient] kernel,
    [linearCUBLAS], [sigmoid] and [sigmoidBatch] as Rocq functions and
    proves the properties the specification states about them, and further
    properties of the code.

    Conventions of the embedding.
    - [float] is an abstract carrier [F] with the operations the code applies
      to it ([FloatOps]); IEEE binary32 ([Binary32]) and exact integers
      ([ExactZ]) are two instances; exact reals ([ExactR]) are a third,
      with the exponential of [sigmoid].  No algebraic law is assumed: a
      theorem that needs a property of the arithmetic states it as a
      hypothesis.
    - C++ [int] is [Z] with the range of a 32-bit signed integer; arithmetic
      that leaves the range, and a [size()] that does not fit, stop the
      model with [IntOverflow].
    - Undefined behaviour of the C++ code (indexing past the end of a vector,
      reading memory nobody wrote, using a pointer that is not live) stops
      the model with a [fault]; the model claims nothing after it.
    - Device operations of stream 0 execute in issue order.  The model runs
      them when they are issued; only the arrival of a device-to-host copy in
      host memory waits for [cudaStreamSynchronize].
    - CUDA status codes (which the code never inspects) are not modelled;
      neither are device limits on the launch configuration.  A host
      allocation that fails throws; [linearCUBLAS_exc] is [linearCUBLAS]
      with these exits, and [linearCUBLAS] is the call in which every
      allocation succeeds. *)

From Stdlib Require Import ZArith List Bool Lia Permutation.
From Stdlib Require Import Floats.SpecFloat.
From Stdlib Require Import Rdefinitions RIneq Rbasic_fun Rtrigo_def Exp_prop Rpower Lra.
From stdpp Require Import base tactics option list gmap fin_maps.

Local Open Scope Z_scope.

(** ** Faults and the error monad of host code *)

Inductive fault : Set :=
| OutOfBounds      (* index past the end of a vector or buffer *)
| IntOverflow      (* an [int] value outside [INT_MIN, INT_MAX] *)
| Uninitialised    (* read of a device cell that was never written *)
| InvalidPointer   (* device pointer that is not a live allocation *)
| DataRace.        (* host read of a buffer with a copy still in flight *)

Inductive res (A : Type) : Type :=
| Ok (a : A)
| Fault (f : fault).
Arguments Ok {A} a.
Arguments Fault {A} f.

#[export] Instance res_ret : MRet res := fun A a => Ok a.
#[export] Instance res_bind : MBind res := fun A B k r =>
  match r with
  | Ok a => k a
  | Fault f => Fault f
  end.

(** Monadic left fold: a [for] loop whose body may fault. *)
Fixpoint foldM {S I} (body : I -> S -> res S) (l : list I) (s : S) : res S :=
  match l with
  | [] => Ok s
  | i :: l' => s' ← body i s; foldM body l' s'
  end.

(** [for (int i = 0; i < n; ++i) body] *)
Definition for_loop {S} (n : Z) (body : Z -> S -> res S) (s : S) : res S :=
  foldM body (seqZ 0 n) s.

(** ** C++ scalars *)

Definition INT_MAX : Z := 2147483647.
Definition INT_MIN : Z := -2147483648.

Definition in_int (z : Z) : bool := (INT_MIN <=? z) && (z <=? INT_MAX).

(** Result of a signed [int] operation: overflow is undefined. *)
Definition int_arith (z : Z) : res Z :=
  if in_int z then Ok z else Fault IntOverflow.

(** [int n = v.size();] *)
Definition int_of_size (n : nat) : res Z := int_arith (Z.of_nat n).

(** [unsigned int] arithmetic wraps; its conversion to [int] keeps the bits. *)
Definition u32 (z : Z) : Z := z mod 4294967296.
Definition int_of_u32 (u : Z) : Z := if u <? 2147483648 then u else u - 4294967296.

(** [v[i]] on a [std::vector]: no bounds check, out of range is undefined. *)
Definition vec_at {A} (v : list A) (i : Z) : res A :=
  if i <? 0 then Fault OutOfBounds
  else match v !! Z.to_nat i with
       | Some a => Ok a
       | None => Fault OutOfBounds
       end.

(** ** Floating-point operations used by the code *)

Class FloatOps (F : Type) := {
  fzero : F;                 (* 0.0f *)
  fone : F;                  (* 1.0f *)
  fadd : F -> F -> F;        (* a + b *)
  fmul : F -> F -> F;        (* a * b *)
  fltb : F -> F -> bool;     (* a < b *)
  feqb : F -> F -> bool      (* a == b *)
}.

(** The further operations [sigmoid] applies to a [float]. *)
Class SigmoidOps (F : Type) := {
  fneg : F -> F;             (* -a *)
  fdiv : F -> F -> F;        (* a / b *)
  fexp : F -> F              (* std::exp(a) *)
}.

(** IEEE 754 binary32 with round-to-nearest-even, from the standard
    library's executable specification of floats. *)
Module Binary32.

Definition prec : Z := 24.
Definition emax : Z := 128.
Definition of_Z (z : Z) : spec_float := binary_normalize prec emax z 0 false.

#[global] Instance ops : FloatOps spec_float := {|
  fzero := S754_zero false;
  fone := of_Z 1;
  fadd := SFadd prec emax;
  fmul := SFmul prec emax;
  fltb := SFltb;
  feqb := SFeqb
|}.

End Binary32.

(** Exact integer arithmetic. *)
Module ExactZ.

#[global] Instance ops : FloatOps Z := {|
  fzero := 0;
  fone := 1;
  fadd := Z.add;
  fmul := Z.mul;
  fltb := Z.ltb;
  feqb := Z.eqb
|}.

End ExactZ.

(** Exact real arithmetic, with the exponential function. *)
Module ExactR.

#[global] Instance ops : FloatOps R := {|
  fzero := 0%R;
  fone := 1%R;
  fadd := Rplus;
  fmul := Rmult;
  fltb := fun a b => if Rlt_dec a b then true else false;
  feqb := fun a b => if Req_dec_T a b then true else false
|}.

#[global] Instance sigmoid_ops : SigmoidOps R := {|
  fneg := Ropp;
  fdiv := Rdiv;
  fexp := exp
|}.

End ExactR.

(** ** Host matrices *)

(** [std::vector<std::vector<float>>] with [rows] rows of [cols] entries. *)
Definition is_matrix {A} (rows cols : nat) (m : list (list A)) : Prop :=
  length m = rows /\ Forall (fun r => length r = cols) m.

(** [m[i][j]], when the indices are in range. *)
Definition entry {A} (m : list (list A)) (i j : nat) : option A :=
  row ← m !! i; row !! j.

(** The products of two vectors, added in index order starting from zero. *)
Definition dot_product `{FloatOps F} (a b : list F) : F :=
  foldl (fun acc xy => fadd acc (fmul xy.1 xy.2)) fzero (zip a b).

(** Row-broadcast addition: [row[j] + bias[j]] for every column. *)
Definition add_bias_to_row `{FloatOps F} (bias row : list F) : list F :=
  zip_with fadd row bias.

(** ** Functions declared in Syntari.cuH and defined outside Linear.cuH *)

(** [linear] calls [matmul] and [reluCUDA_batch]; their bodies are not part
    of the sources, so [linear] takes them as an interface.
    [reluCUDA_batch input output] is the value the call leaves in its
    [output] parameter. *)
Class Syntari (F : Type) := {
  matmul : list (list F) -> list (list F) -> list (list F);
  reluCUDA_batch : list (list F) -> list (list F) -> list (list F)
}.

(** ** [linear] (Linear.cuH, lines 15-35) *)

Section Linear.
Context {F : Type} `{FloatOps F} `{Syntari F}.

(** Lines 23-24: the dimensions are read off the product. *)
Definition linear_dims (output : list (list F)) : res (Z * Z) :=
  batch_size ← int_of_size (length output);
  row0 ← vec_at output 0;
  output_dim ← int_of_size (length row0);
  Ok (batch_size, output_dim).

(** Line 30: [output[i][j] += bias[j]]. *)
Definition add_bias_at (bias : list F) (i j : Z) (output : list (list F))
  : res (list (list F)) :=
  row ← vec_at output i;
  x ← vec_at row j;
  b ← vec_at bias j;
  Ok (<[Z.to_nat i := <[Z.to_nat j := fadd x b]> row]> output).

(** Lines 29-30: the inner loop, one iteration of the parallel loop. *)
Definition add_bias_row (output_dim : Z) (bias : list F) (i : Z)
  (output : list (list F)) : res (list (list F)) :=
  for_loop output_dim (add_bias_at bias i) output.

(** Lines 27-30.  [#pragma omp parallel for] hands the iterations to worker
    threads; an iteration touches row [i] only, so an execution is a
    sequence of whole iterations in some order [sched]. *)
Definition omp_parallel_for {S} (sched : list Z) (body : Z -> S -> res S)
  (s : S) : res S :=
  foldM body sched s.

Definition linear_bias_pass_sched (sched : list Z) (output_dim : Z)
  (bias : list F) (output : list (list F)) : res (list (list F)) :=
  omp_parallel_for sched (add_bias_row output_dim bias) output.

(** The pass with the iterations in program order. *)
Definition linear_bias_pass (batch_size output_dim : Z) (bias : list F)
  (output : list (list F)) : res (list (list F)) :=
  linear_bias_pass_sched (seqZ 0 batch_size) output_dim bias output.

(** Lines 22-30: the value of [output] before the activation. *)
Definition linear_pre (input weights : list (list F)) (bias : list F)
  : res (list (list F)) :=
  let output := matmul input weights in
  '(batch_size, output_dim) ← linear_dims output;
  linear_bias_pass batch_size output_dim bias output.

Definition linear (input weights : list (list F)) (bias : list F)
  : res (list (list F)) :=
  output ← linear_pre input weights bias;
  Ok (reluCUDA_batch output output).

End Linear.

(** ** Device memory and the [addBiasEfficient] kernel (lines 44-57) *)

(** [dim3], [blockIdx], [threadIdx]. *)
Record dim3 : Set := Dim3 { dim_x : Z; dim_y : Z; dim_z : Z }.

(** The indices below an extent, [x] fastest. *)
Definition dim3_indices (d : dim3) : list dim3 :=
  z ← seqZ 0 (dim_z d); y ← seqZ 0 (dim_y d); x ← seqZ 0 (dim_x d);
  [Dim3 x y z].

(** The threads of a launch [<<<gridDim, blockDim>>>], as pairs of a block
    index and a thread index. *)
Definition grid_threads (gridDim blockDim : dim3) : list (dim3 * dim3) :=
  b ← dim3_indices gridDim; t ← dim3_indices blockDim; [(b, t)].

(** Device memory: the live allocations, each an array of cells; a cell is
    [None] until something is written to it. *)
Abbreviation dmem F := (gmap nat (list (option F))).

(** Lines 47-48: [blockIdx.y * blockDim.y + threadIdx.y], computed on
    [unsigned int] and stored in an [int]; likewise for the column. *)
Definition thread_row (blockIdx blockDim threadIdx : dim3) : Z :=
  int_of_u32 (u32 (dim_y blockIdx * dim_y blockDim + dim_y threadIdx)).
Definition thread_col (blockIdx blockDim threadIdx : dim3) : Z :=
  int_of_u32 (u32 (dim_x blockIdx * dim_x blockDim + dim_x threadIdx)).

Section Device.
Context {F : Type} `{FloatOps F}.
Local Abbreviation dmem := (dmem F).

Definition dev_load (h : dmem) (p : nat) (i : Z) : res F :=
  match h !! p with
  | None => Fault InvalidPointer
  | Some buf =>
      c ← vec_at buf i;
      match c with
      | Some v => Ok v
      | None => Fault Uninitialised
      end
  end.

Definition dev_store (h : dmem) (p : nat) (i : Z) (v : F) : res dmem :=
  match h !! p with
  | None => Fault InvalidPointer
  | Some buf =>
      _ ← vec_at buf i;
      Ok (<[p := <[Z.to_nat i := Some v]> buf]> h)
  end.

(** Lines 50-56, for the thread that computed [row] and [col]. *)
Definition addBiasEfficient_body (row col : Z) (output bias : nat)
  (batchSize outputDim : Z) (h : dmem) : res dmem :=
  if (row <? batchSize) && (col <? outputDim) then
    scaled ← int_arith (row * outputDim);
    idx ← int_arith (scaled + col);
    o ← dev_load h output idx;
    b ← dev_load h bias col;
    dev_store h output idx (fadd o b)
  else Ok h.

(** One thread of the kernel. *)
Definition addBiasEfficient (blockIdx blockDim threadIdx : dim3)
  (output bias : nat) (batchSize outputDim : Z) (h : dmem) : res dmem :=
  let row := thread_row blockIdx blockDim threadIdx in
  let col := thread_col blockIdx blockDim threadIdx in
  addBiasEfficient_body row col output bias batchSize outputDim h.

(** A launch runs every thread of the grid once.  Threads are independent;
    [sched] is the order in which they run. *)
Definition launch_sched (sched : list (dim3 * dim3))
  (kernel : dim3 -> dim3 -> dmem -> res dmem) (h : dmem) : res dmem :=
  foldM (fun bt => kernel bt.1 bt.2) sched h.

(** [addBiasEfficient<<<gridDim, blockDim>>>(output, bias, batchSize, outputDim)] *)
Definition launch_addBiasEfficient (gridDim blockDim : dim3)
  (output bias : nat) (batchSize outputDim : Z) (h : dmem) : res dmem :=
  launch_sched (grid_threads gridDim blockDim)
    (fun b t => addBiasEfficient b blockDim t output bias batchSize outputDim) h.

(** ** The vendor routine [cublasSgemm]

    Not code of this repository.  The model follows the BLAS contract the
    call site relies on (comment at lines 108-110): matrices are stored
    column-major with a leading dimension, and
    [C = alpha * op(A) * op(B) + beta * C] with [op(A)] of size [m x k] and
    [op(B)] of size [k x n].  The sum over [k] is taken in index order.
    With [beta == 0] the routine does not read [C].  Invalid dimensions make
    the routine return a status without computing anything. *)

Inductive cublasOperation_t : Set := CUBLAS_OP_N | CUBLAS_OP_T.

Inductive cublasHandle_t : Set := CublasHandle (id : nat).

(** Entry [(r, c)] of [op(M)]. *)
Definition gemm_operand (h : dmem) (trans : cublasOperation_t) (M : nat)
  (ld r c : Z) : res F :=
  match trans with
  | CUBLAS_OP_N => dev_load h M (r + c * ld)
  | CUBLAS_OP_T => dev_load h M (c + r * ld)
  end.

Definition gemm_dot (h : dmem) (transa transb : cublasOperation_t) (k : Z)
  (A : nat) (lda : Z) (B : nat) (ldb : Z) (i j : Z) : res F :=
  for_loop k (fun l acc =>
    a ← gemm_operand h transa A lda i l;
    b ← gemm_operand h transb B ldb l j;
    Ok (fadd acc (fmul a b))) fzero.

Definition gemm_valid (transa transb : cublasOperation_t)
  (m n k lda ldb ldc : Z) : bool :=
  (0 <=? m) && (0 <=? n) && (0 <=? k)
  && (Z.max 1 (match transa with CUBLAS_OP_N => m | CUBLAS_OP_T => k end) <=? lda)
  && (Z.max 1 (match transb with CUBLAS_OP_N => k | CUBLAS_OP_T => n end) <=? ldb)
  && (Z.max 1 m <=? ldc).

(** Entry [(i, j)] of the result; the operands are read from [h0], the
    memory at the call. *)
Definition gemm_entry (h0 : dmem) (transa transb : cublasOperation_t) (k : Z)
  (alpha : F) (A : nat) (lda : Z) (B : nat) (ldb : Z) (beta : F) (C : nat)
  (ldc : Z) (j i : Z) (h : dmem) : res dmem :=
  acc ← gemm_dot h0 transa transb k A lda B ldb i j;
  v ← (if feqb beta fzero then Ok (fmul alpha acc)
       else c ← dev_load h0 C (i + j * ldc);
            Ok (fadd (fmul alpha acc) (fmul beta c)));
  dev_store h C (i + j * ldc) v.

Definition cublasSgemm (handle : cublasHandle_t)
  (transa transb : cublasOperation_t) (m n k : Z) (alpha : F)
  (A : nat) (lda : Z) (B : nat) (ldb : Z) (beta : F) (C : nat) (ldc : Z)
  (h : dmem) : res dmem :=
  if gemm_valid transa transb m n k lda ldb ldc then
    for_loop n (fun j =>
      for_loop m (gemm_entry h transa transb k alpha A lda B ldb beta C ldc j)) h
  else Ok h.

End Device.

(** ** Host orchestration: the CUDA runtime as a state monad *)

(** What the host issues, in program order. *)
Inductive event : Set :=
| EvMalloc (p : nat) (n : Z)                 (* cudaMallocAsync, [n] floats *)
| EvMemcpyH2D (dst : nat) (n : Z)            (* cudaMemcpyAsync host to device *)
| EvSgemm (A B C : nat)                      (* cublasSgemm *)
| EvLaunch (output bias : nat)               (* addBiasEfficient<<<...>>> *)
| EvMemcpyD2H (dst src : nat) (n : Z)        (* cudaMemcpyAsync device to host *)
| EvSync                                     (* cudaStreamSynchronize *)
| EvHostRead (hbuf : nat)                    (* host code reads a copy target *)
| EvFree (p : nat).                          (* cudaFreeAsync *)

Record state (F : Type) : Type := State {
  device : dmem F;                  (* live device buffers *)
  hostmem : gmap nat (list F);      (* host vectors that receive device data *)
  inflight : list (nat * list F);   (* issued copies to the host, not yet waited for *)
  trace : list event
}.
Arguments State {F}.
Arguments device {F}.
Arguments hostmem {F}.
Arguments inflight {F}.
Arguments trace {F}.

(** A call either returns with a state, or stops at a fault after having
    issued the operations of the trace. *)
Inductive outcome (F A : Type) : Type :=
| Done (a : A) (st : state F)
| Abort (f : fault) (issued : list event).
Arguments Done {F A}.
Arguments Abort {F A}.

Definition dev (F A : Type) : Type := state F -> outcome F A.

#[global] Instance dev_ret {F} : MRet (dev F) := fun A a st => Done a st.
#[global] Instance dev_bind {F} : MBind (dev F) := fun A B k m st =>
  match m st with
  | Done a st' => k a st'
  | Abort f t => Abort f t
  end.

Section Runtime.
Context {F : Type} `{FloatOps F}.

Definition emit (e : event) : dev F unit := fun st =>
  Done tt (State (device st) (hostmem st) (inflight st) (trace st ++ [e])).

Definition lift {A} (r : res A) : dev F A := fun st =>
  match r with
  | Ok a => Done a st
  | Fault f => Abort f (trace st)
  end.

Definition get_device : dev F (dmem F) := fun st => Done (device st) st.

Definition set_device (h : dmem F) : dev F unit := fun st =>
  Done tt (State h (hostmem st) (inflight st) (trace st)).

(** [cudaMallocAsync(&p, n * sizeof(float), 0)]: a fresh buffer of [n]
    cells nobody has written. *)
Definition cudaMallocAsync (n : Z) : dev F nat :=
  h ← get_device;
  let p := fresh (dom h) in
  emit (EvMalloc p n);;
  set_device (<[p := replicate (Z.to_nat n) None]> h);;
  mret p.

(** [cudaFreeAsync(p, 0)] *)
Definition cudaFreeAsync (p : nat) : dev F unit :=
  emit (EvFree p);;
  h ← get_device;
  match h !! p with
  | None => lift (Fault InvalidPointer)
  | Some _ => set_device (delete p h)
  end.

(** [cudaMemcpyAsync(dst, src.data(), n * sizeof(float), cudaMemcpyHostToDevice, 0)]:
    reads [n] floats from the host vector, writes the first [n] cells.  A
    copy of more floats than the vector holds stops the model, also where
    [reserve] has made the storage behind [data()] large enough: what the
    program does with the floats past [size()] is outside the model. *)
Definition cudaMemcpyAsync_H2D (dst : nat) (src : list F) (n : Z) : dev F unit :=
  emit (EvMemcpyH2D dst n);;
  h ← get_device;
  match h !! dst with
  | None => lift (Fault InvalidPointer)
  | Some buf =>
      if (Z.of_nat (length src) <? n) || (Z.of_nat (length buf) <? n)
      then lift (Fault OutOfBounds)
      else set_device
             (<[dst := (Some <$> take (Z.to_nat n) src) ++ drop (Z.to_nat n) buf]> h)
  end.

(** The value of [n] device cells, if all were written. *)
Definition read_cells (buf : list (option F)) (n : Z) : res (list F) :=
  if Z.of_nat (length buf) <? n then Fault OutOfBounds
  else match mapM id (take (Z.to_nat n) buf) with
       | Some vs => Ok vs
       | None => Fault Uninitialised
       end.

(** [cudaMemcpyAsync(dst.data(), src, n * sizeof(float), cudaMemcpyDeviceToHost, 0)]:
    the data is on its way; it lands in [dst] at the next synchronize. *)
Definition enqueue_copy (dst : nat) (vs : list F) : dev F unit := fun st =>
  match hostmem st !! dst with
  | None => Abort InvalidPointer (trace st)
  | Some old =>
      if length old <? length vs then Abort OutOfBounds (trace st)
      else Done tt (State (device st) (hostmem st)
                          (inflight st ++ [(dst, vs)]) (trace st))
  end%nat.

Definition cudaMemcpyAsync_D2H (dst src : nat) (n : Z) : dev F unit :=
  emit (EvMemcpyD2H dst src n);;
  h ← get_device;
  match h !! src with
  | None => lift (Fault InvalidPointer)
  | Some buf => vs ← lift (read_cells buf n); enqueue_copy dst vs
  end.

(** Arrival of one copy in host memory. *)
Definition land (hm : gmap nat (list F)) (c : nat * list F) : gmap nat (list F) :=
  match hm !! c.1 with
  | Some old => <[c.1 := c.2 ++ drop (length c.2) old]> hm
  | None => hm
  end.

(** [cudaStreamSynchronize(0)]: blocks until everything issued is complete. *)
Definition complete_copies : dev F unit := fun st =>
  Done tt (State (device st) (foldl land (hostmem st) (inflight st)) [] (trace st)).

Definition cudaStreamSynchronize : dev F unit :=
  emit EvSync;;
  complete_copies.

(** A host vector the device will write into; the result names it. *)
Definition host_vector (v : list F) : dev F nat := fun st =>
  let hb := fresh (dom (hostmem st)) in
  Done hb (State (device st) (<[hb := v]> (hostmem st)) (inflight st) (trace st)).

(** End of the vector's scope. *)
Definition host_vector_destroy (hb : nat) : dev F unit := fun st =>
  Done tt (State (device st) (delete hb (hostmem st)) (inflight st) (trace st)).

(** [std::vector<float>(v.begin() + first, v.begin() + last)]: a host read.
    Reading a vector while a copy into it is in flight is a race. *)
Definition host_slice (hb : nat) (first last : Z) : dev F (list F) := fun st =>
  if bool_decide (hb ∈ (inflight st).*1) then Abort DataRace (trace st)
  else match hostmem st !! hb with
       | None => Abort InvalidPointer (trace st)
       | Some v =>
           if (first <? 0) || (last <? first) || (Z.of_nat (length v) <? last)
           then Abort OutOfBounds (trace st)
           else Done (take (Z.to_nat (last - first)) (drop (Z.to_nat first) v)) st
       end.

Definition host_read_range (hb : nat) (first last : Z) : dev F (list F) :=
  emit (EvHostRead hb);;
  host_slice hb first last.

(** A [for] loop of host code that talks to the device. *)
Fixpoint dev_foldM {S I} (body : I -> S -> dev F S) (l : list I) (s : S)
  : dev F S :=
  match l with
  | [] => mret s
  | i :: l' => s' ← body i s; dev_foldM body l' s'
  end.

(** Device routines as operations of the runtime. *)
Definition run_cublasSgemm (handle : cublasHandle_t)
  (transa transb : cublasOperation_t) (m n k : Z) (alpha : F)
  (A : nat) (lda : Z) (B : nat) (ldb : Z) (beta : F) (C : nat) (ldc : Z)
  : dev F unit :=
  emit (EvSgemm A B C);;
  h ← get_device;
  h' ← lift (cublasSgemm handle transa transb m n k alpha A lda B ldb beta C ldc h);
  set_device h'.

Definition run_addBiasEfficient (gridDim blockDim : dim3) (output bias : nat)
  (batchSize outputDim : Z) : dev F unit :=
  emit (EvLaunch output bias);;
  h ← get_device;
  h' ← lift (launch_addBiasEfficient gridDim blockDim output bias batchSize outputDim h);
  set_device h'.

(** ** [linearCUBLAS] (lines 66-143) *)

(** Lines 73-75. *)
Definition linearCUBLAS_dims (input weights : list (list F)) : res (Z * Z * Z) :=
  batchSize ← int_of_size (length input);
  row0 ← vec_at input 0;
  inputDim ← int_of_size (length row0);
  outputDim ← int_of_size (length weights);
  Ok (batchSize, inputDim, outputDim).

(** Lines 132-134: the rows of the result are cut out of [flatOutput]. *)
Definition reassemble (flatOutput : nat) (batchSize outputDim : Z)
  : dev F (list (list F)) :=
  dev_foldM (fun i output =>
      first ← lift (int_arith (i * outputDim));
      last ← lift (int_arith ((i + 1) * outputDim));
      row ← host_read_range flatOutput first last;
      mret (<[Z.to_nat i := row]> output))
    (seqZ 0 batchSize) (replicate (Z.to_nat batchSize) []).

Definition linearCUBLAS (input weights : list (list F)) (bias : list F)
  (handle : cublasHandle_t) : dev F (list (list F)) :=
  '(batchSize, inputDim, outputDim) ← lift (linearCUBLAS_dims input weights);
  inputSize ← lift (int_arith (batchSize * inputDim));
  weightSize ← lift (int_arith (outputDim * inputDim));
  let biasSize := Z.of_nat (length bias) in
  outputSize ← lift (int_arith (batchSize * outputDim));
  let flatInput := concat input in
  let flatWeights := concat weights in
  let flatBias := bias in
  flatOutput ← host_vector (replicate (Z.to_nat outputSize) fzero);
  d_input ← cudaMallocAsync inputSize;
  d_weights ← cudaMallocAsync weightSize;
  d_bias ← cudaMallocAsync biasSize;
  d_output ← cudaMallocAsync outputSize;
  cudaMemcpyAsync_H2D d_input flatInput inputSize;;
  cudaMemcpyAsync_H2D d_weights flatWeights weightSize;;
  cudaMemcpyAsync_H2D d_bias flatBias biasSize;;
  let alpha := fone in
  let beta := fzero in
  run_cublasSgemm handle CUBLAS_OP_T CUBLAS_OP_N outputDim batchSize inputDim
    alpha d_weights inputDim d_input inputDim beta d_output outputDim;;
  let threads := Dim3 16 16 1 in
  bx ← lift (int_arith (outputDim + 15));
  by_ ← lift (int_arith (batchSize + 15));
  let blocks := Dim3 (bx ÷ 16) (by_ ÷ 16) 1 in
  run_addBiasEfficient blocks threads d_output d_bias batchSize outputDim;;
  cudaMemcpyAsync_D2H flatOutput d_output outputSize;;
  cudaStreamSynchronize;;
  output ← reassemble flatOutput batchSize outputDim;
  cudaFreeAsync d_input;;
  cudaFreeAsync d_weights;;
  cudaFreeAsync d_bias;;
  cudaFreeAsync d_output;;
  host_vector_destroy flatOutput;;
  mret output.

(** ** [linearCUBLAS] with host allocations that can fail

    A [std::vector] that cannot allocate throws [std::bad_alloc]; nothing in
    [linearCUBLAS] catches it, so the exception leaves the call and unwinds
    its local vectors.  [alloc_ok k] says whether the [k]-th host
    allocation of the call, in program order, succeeds: 0 [flatInput]
    (line 84), 1 [flatWeights] (line 85), 2 [flatBias] (line 93), 3
    [flatOutput] (line 94), 4 [output] (line 132), [5 + i] the row built in
    iteration [i] (line 134); the insertions of lines 88 and 91 fill the
    reserved storage.  The result is [Some output] when the call
    returns and [None] when the exception leaves it; the state is the one
    at that exit. *)

(** Lines 132-134. *)
Definition reassemble_exc (alloc_ok : nat -> bool) (flatOutput : nat)
  (batchSize outputDim : Z) : dev F (option (list (list F))) :=
  if alloc_ok 4%nat then
    dev_foldM (fun i acc =>
        match acc with
        | None => mret None
        | Some output =>
            first ← lift (int_arith (i * outputDim));
            last ← lift (int_arith ((i + 1) * outputDim));
            if alloc_ok (5 + Z.to_nat i)%nat then
              row ← host_read_range flatOutput first last;
              mret (Some (<[Z.to_nat i := row]> output))
            else mret None
        end)
      (seqZ 0 batchSize) (Some (replicate (Z.to_nat batchSize) []))
  else mret None.

(** Lines 73-142.  The four [cudaFreeAsync] calls are on the path that
    returns; an exception from lines 132-134 skips them. *)
Definition linearCUBLAS_exc (alloc_ok : nat -> bool)
  (input weights : list (list F)) (bias : list F) (handle : cublasHandle_t)
  : dev F (option (list (list F))) :=
  '(batchSize, inputDim, outputDim) ← lift (linearCUBLAS_dims input weights);
  inputSize ← lift (int_arith (batchSize * inputDim));
  weightSize ← lift (int_arith (outputDim * inputDim));
  let biasSize := Z.of_nat (length bias) in
  outputSize ← lift (int_arith (batchSize * outputDim));
  if alloc_ok 0%nat && alloc_ok 1%nat && alloc_ok 2%nat && alloc_ok 3%nat then
    let flatInput := concat input in
    let flatWeights := concat weights in
    let flatBias := bias in
    flatOutput ← host_vector (replicate (Z.to_nat outputSize) fzero);
    d_input ← cudaMallocAsync inputSize;
    d_weights ← cudaMallocAsync weightSize;
    d_bias ← cudaMallocAsync biasSize;
    d_output ← cudaMallocAsync outputSize;
    cudaMemcpyAsync_H2D d_input flatInput inputSize;;
    cudaMemcpyAsync_H2D d_weights flatWeights weightSize;;
    cudaMemcpyAsync_H2D d_bias flatBias biasSize;;
    let alpha := fone in
    let beta := fzero in
    run_cublasSgemm handle CUBLAS_OP_T CUBLAS_OP_N outputDim batchSize inputDim
      alpha d_weights inputDim d_input inputDim beta d_output outputDim;;
    let threads := Dim3 16 16 1 in
    bx ← lift (int_arith (outputDim + 15));
    by_ ← lift (int_arith (batchSize + 15));
    let blocks := Dim3 (bx ÷ 16) (by_ ÷ 16) 1 in
    run_addBiasEfficient blocks threads d_output d_bias batchSize outputDim;;
    cudaMemcpyAsync_D2H flatOutput d_output outputSize;;
    cudaStreamSynchronize;;
    r ← reassemble_exc alloc_ok flatOutput batchSize outputDim;
    match r with
    | Some output =>
        cudaFreeAsync d_input;;
        cudaFreeAsync d_weights;;
        cudaFreeAsync d_bias;;
        cudaFreeAsync d_output;;
        host_vector_destroy flatOutput;;
        mret (Some output)
    | None =>
        host_vector_destroy flatOutput;;
        mret None
    end
  else mret None.

End Runtime.

(** ** [sigmoid] and [sigmoidBatch] (Linear.cuH, lines 154-170) *)

Section Sigmoid.
Context {F : Type} `{FloatOps F} `{SigmoidOps F}.

(** Line 159: [1 / (1 + std::exp(-val))]; [std::exp] of a [float] is a
    [float], and the two literals are converted to [float]. *)
Definition sigmoid_value (val : F) : F :=
  fdiv fone (fadd fone (fexp (fneg val))).

(** Lines 156-160: [output] starts empty and the loop appends one value for
    every element of [z]. *)
Definition sigmoid (z : list F) : list F :=
  foldl (fun output val => output ++ [sigmoid_value val]) [] z.

(** Line 168: [output[i] = sigmoid(matrix[i])]. *)
Definition sigmoidBatch_at (matrix : list (list F)) (i : Z)
  (output : list (list F)) : res (list (list F)) :=
  row ← vec_at matrix i;
  _ ← vec_at output i;
  Ok (<[Z.to_nat i := sigmoid row]> output).

(** Lines 165-168: [output] starts as [matrix.size()] empty rows; the
    iterations of the parallel loop run in the order [sched]. *)
Definition sigmoidBatch_sched (sched : list Z) (matrix : list (list F))
  : res (list (list F)) :=
  omp_parallel_for sched (sigmoidBatch_at matrix) (replicate (length matrix) []).

(** The loop in program order.  The counter [i] is an [int] that runs up to
    [matrix.size()]. *)
Definition sigmoidBatch (matrix : list (list F)) : res (list (list F)) :=
  n ← int_of_size (length matrix);
  sigmoidBatch_sched (seqZ 0 n) matrix.

End Sigmoid.

(** ** The CPU path declared in Syntari.cuH (bodies not in the sources) *)

Module CpuReference.
Section CpuReference.
Context {F : Type} `{FloatOps F}.

(** Modelled from the spec: the body of [transpose] (Syntari.cuH, line 45) is
    missing; section 4.6 names it as part of the CPU path of [matmul].  Row
    [j] of the result lists column [j] of the argument; the column count is
    that of the first row. *)
Definition transpose (matrix : list (list F)) : list (list F) :=
  match matrix with
  | [] => []
  | row0 :: _ =>
      (fun j => (fun row => default fzero (row !! j)) <$> matrix)
        <$> seq 0 (length row0)
  end.

(** Modelled from the spec: the body of [dotSIMD] (line 46) is missing;
    section 4.6 calls it a vectorized dot product.  The model adds the
    products in index order, starting from zero. *)
Definition dotSIMD (a b : list F) : F := dot_product a b.

(** Modelled from the spec: the body of [matmul] (line 47) is missing;
    sections 4.1 and 4.6 define it as the CPU computation of [C = A * B],
    built from [transpose] and the dot product. *)
Definition matmul (A B : list (list F)) : list (list F) :=
  let BT := transpose B in
  (fun a => (fun b => dotSIMD a b) <$> BT) <$> A.

(** ReLU, the activation named at lines 10, 14 and 31 of Linear.cuH. *)
Definition relu (x : F) : F := if fltb fzero x then x else fzero.

(** Modelled from the spec: the body of [reluCUDA_batch] (line 32 of
    Syntari.cuH) is missing; it applies the activation of section 4.5 to
    every element of [input] and leaves the result in [output]. *)
Definition reluCUDA_batch (input output : list (list F)) : list (list F) :=
  map (map relu) input.

(** Section 8 of the spec: the triple-loop reference product,
    [C[i][j] += A[i][k] * B[k][j]] over [i], [j], [k] in this order, into a
    zero matrix of [M] rows and [N] columns. *)
Definition triple_loop_accumulate (A B : list (list F)) (i j k : Z)
  (C : list (list F)) : res (list (list F)) :=
  a_row ← vec_at A i;
  a ← vec_at a_row k;
  b_row ← vec_at B k;
  b ← vec_at b_row j;
  c_row ← vec_at C i;
  c ← vec_at c_row j;
  Ok (<[Z.to_nat i := <[Z.to_nat j := fadd c (fmul a b)]> c_row]> C).

Definition triple_loop (M K N : Z) (A B : list (list F)) : res (list (list F)) :=
  for_loop M (fun i =>
    for_loop N (fun j =>
      for_loop K (triple_loop_accumulate A B i j)))
    (replicate (Z.to_nat M) (replicate (Z.to_nat N) fzero)).

End CpuReference.
End CpuReference.

(** ** [softmax], declared in Syntari.cuH (body not in the sources) *)

Section Softmax.
Context {F : Type} `{FloatOps F} `{SigmoidOps F}.





End Softmax.

(** The interface of [linear], filled with the modelled CPU path. *)
#[global] Instance cpu_syntari `{FloatOps F} : Syntari F := {|
  matmul := CpuReference.matmul;
  reluCUDA_batch := CpuReference.reluCUDA_batch
|}.

(** ** Auxiliary definitions of the proofs *)

(** A row of [linear]'s output after the first [k] columns have been updated. *)
Definition bias_prefix `{FloatOps F} (k : nat) (bias row : list F) : list F :=
  zip_with fadd (take k row) (take k bias) ++ drop k row.

(** The matrix after the iterations [sched] of the parallel loop. *)
Definition bias_rows `{FloatOps F} (sched : list Z) (bias : list F)
  (out : list (list F)) : list (list F) :=
  imap (fun i row =>
          if bool_decide (Z.of_nat i ∈ sched) then add_bias_to_row bias row
          else row) out.

(** The cell [idx] of device buffer [q]. *)
Definition cell_at {F} (h : dmem F) (q idx : nat) : option (option F) :=
  buf ← h !! q; buf !! idx.

(** Row and column of a position in a row-major array with [N] columns. *)
Definition coord_of_index (N : Z) (idx : nat) : Z * Z :=
  (Z.of_nat idx / N, Z.of_nat idx mod N).

(** A row-major array after the threads working at [done] have run. *)
Definition flat_add_bias `{FloatOps F} (N : Z) (bias : list F)
  (done : list (Z * Z)) (flat : list F) : list F :=
  imap (fun idx o =>
          if bool_decide (coord_of_index N idx ∈ done)
          then match bias !! Z.to_nat (Z.of_nat idx mod N) with
               | Some b => fadd o b
               | None => o
               end
          else o) flat.

(** Row and column of each thread of a schedule. *)
Definition thread_coords (blockDim : dim3) (sched : list (dim3 * dim3))
  : list (Z * Z) :=
  (fun bt => (thread_row bt.1 blockDim bt.2, thread_col bt.1 blockDim bt.2))
    <$> sched.

(** What the [cublasSgemm] call of [linearCUBLAS] leaves in [d_output],
    read as a row-major matrix: row [r] holds, for every row [w] of the
    weights, [alpha] times the dot product of [w] and row [r] of the input. *)
Definition sgemm_TN_result `{FloatOps F} (alpha : F)
  (weights input : list (list F)) : list (list F) :=
  map (fun x => map (fun w => fmul alpha (dot_product w x)) weights) input.

(** The same as device cells, in row-major order. *)
Definition sgemm_TN_cells `{FloatOps F} (alpha : F)
  (weights input : list (list F)) : list (option F) :=
  Some <$> concat (sgemm_TN_result alpha weights input).

(** The operations issued by an outcome. *)
Definition issued {F A} (o : outcome F A) : list event :=
  match o with
  | Done _ st => trace st
  | Abort _ t => t
  end.

Definition is_alloc (e : event) : bool :=
  match e with EvMalloc _ _ => true | _ => false end.

Definition is_free (e : event) : bool :=
  match e with EvFree _ => true | _ => false end.

Definition is_host_read (e : event) : bool :=
  match e with EvHostRead _ => true | _ => false end.

(** The operations of a complete call of [linearCUBLAS], in program order:
    buffers [d_input], [d_weights], [d_bias], [d_output] and the host vector
    [flatOutput]. *)
Definition linearCUBLAS_trace (d_input d_weights d_bias d_output flatOutput : nat)
  (batchSize inputDim outputDim biasSize : Z) : list event :=
  [EvMalloc d_input (batchSize * inputDim);
   EvMalloc d_weights (outputDim * inputDim);
   EvMalloc d_bias biasSize;
   EvMalloc d_output (batchSize * outputDim);
   EvMemcpyH2D d_input (batchSize * inputDim);
   EvMemcpyH2D d_weights (outputDim * inputDim);
   EvMemcpyH2D d_bias biasSize;
   EvSgemm d_weights d_input d_output;
   EvLaunch d_output d_bias;
   EvMemcpyD2H flatOutput d_output (batchSize * outputDim);
   EvSync]
  ++ replicate (Z.to_nat batchSize) (EvHostRead flatOutput)
  ++ [EvFree d_input; EvFree d_weights; EvFree d_bias; EvFree d_output].

(** The operations of a call that an exception leaves in the reassembly,
    after [reads] rows have been read. *)
Definition linearCUBLAS_trace_thrown
  (d_input d_weights d_bias d_output flatOutput : nat)
  (batchSize inputDim outputDim biasSize : Z) (reads : nat) : list event :=
  [EvMalloc d_input (batchSize * inputDim);
   EvMalloc d_weights (outputDim * inputDim);
   EvMalloc d_bias biasSize;
   EvMalloc d_output (batchSize * outputDim);
   EvMemcpyH2D d_input (batchSize * inputDim);
   EvMemcpyH2D d_weights (outputDim * inputDim);
   EvMemcpyH2D d_bias biasSize;
   EvSgemm d_weights d_input d_output;
   EvLaunch d_output d_bias;
   EvMemcpyD2H flatOutput d_output (batchSize * outputDim);
   EvSync]
  ++ replicate reads (EvHostRead flatOutput).

(** The sizes [linearCUBLAS] computes before it touches the device
    (lines 73-80). *)
Definition linearCUBLAS_sizes {F} (input weights : list (list F)) : res (Z * Z * Z) :=
  '(batchSize, inputDim, outputDim) ← linearCUBLAS_dims input weights;
  _ ← int_arith (batchSize * inputDim);
  _ ← int_arith (outputDim * inputDim);
  _ ← int_arith (batchSize * outputDim);
  Ok (batchSize, inputDim, outputDim).

(** A call seen as a call that an exception may leave, and does not. *)
Definition returns {F A} (o : outcome F A) : outcome F (option A) :=
  match o with
  | Done a st => Done (Some a) st
  | Abort f t => Abort f t
  end.

(** In [l], every host read is a read of [hb] that comes after a
    synchronize, which comes after the copy into [hb] was issued. *)
Definition reads_after_sync (hb : nat) (l : list event) : Prop :=
  forall pre post hb',
    l = pre ++ EvHostRead hb' :: post ->
    hb' = hb
    /\ exists a b c src n, pre = a ++ EvMemcpyD2H hb src n :: b ++ EvSync :: c.

(** A call that issued no device allocation. *)
Definition no_device_allocation {F A} (o : outcome F A) : Prop :=
  filter (fun e => is_alloc e = true) (issued o) = [].

(** Same number of rows, and the same length row by row. *)
Definition same_shape {A} (s s' : list (list A)) : Prop :=
  length s' = length s
  /\ forall i, length <$> s' !! i = length <$> s !! i.

(** Test data: matrices and vectors of binary32 numbers from integers. *)
Definition f32_vec (v : list Z) : list spec_float := map Binary32.of_Z v.
Definition f32_mat (m : list (list Z)) : list (list spec_float) := map f32_vec m.

(** A device that holds nothing and has issued nothing. *)
Definition idle_device : state spec_float := State ∅ ∅ [] [].

(** The operations of a complete call on a 1 by 1 problem, from an idle
    device. *)
Definition trace_1x1 : list event :=
  [EvMalloc 0 1; EvMalloc 1 1; EvMalloc 2 1; EvMalloc 3 1;
   EvMemcpyH2D 0 1; EvMemcpyH2D 1 1; EvMemcpyH2D 2 1;
   EvSgemm 1 0 3; EvLaunch 3 2; EvMemcpyD2H 0 3 1; EvSync;
   EvHostRead 0; EvFree 0; EvFree 1; EvFree 2; EvFree 3].

(** Device memory with an output buffer of three cells, the row [2, 2]
    followed by one cell beyond the matrix, and the bias [1, -1]. *)
Definition heap_2_2_9 : dmem spec_float :=
  {[ 0%nat := Some <$> f32_vec [2; 2; 9]; 1%nat := Some <$> f32_vec [1; -1] ]}.

(** Device memory with the row [2, 2] and the bias [1, -1]. *)
Definition heap_2_2 : dmem spec_float :=
  {[ 0%nat := Some <$> f32_vec [2; 2]; 1%nat := Some <$> f32_vec [1; -1] ]}.


(** Device memory with the weights [[5, 7], [6, 8]] and the input
    [[1, 2], [3, 4]], both row-major, and an output buffer of four cells
    nobody has written; exact integers. *)
Definition heap_sgemm_2x2 : dmem Z :=
  {[ 0%nat := Some <$> [5; 7; 6; 8]; 1%nat := Some <$> [1; 2; 3; 4];
     2%nat := replicate 4 None ]}.

(** A host with the vector [1, 2, 3, 4] and nothing in flight. *)
Definition host_1234 : state Z := State ∅ {[ 0%nat := [1; 2; 3; 4] ]} [] [].

(** The state in which the call on the 1 by 1 problem, from an idle device,
    is left when the allocation of line 132 fails: the four buffers hold the
    input, the weights, the bias and the result, and nothing was freed. *)
Definition leaked_1x1 : state spec_float :=
  State {[ 0%nat := Some <$> f32_vec [1]; 1%nat := Some <$> f32_vec [1];
           2%nat := Some <$> f32_vec [-2]; 3%nat := Some <$> f32_vec [-1] ]}
        ∅ []
        [EvMalloc 0 1; EvMalloc 1 1; EvMalloc 2 1; EvMalloc 3 1;
         EvMemcpyH2D 0 1; EvMemcpyH2D 1 1; EvMemcpyH2D 2 1;
         EvSgemm 1 0 3; EvLaunch 3 2; EvMemcpyD2H 0 3 1; EvSync].

(** Every host allocation succeeds but the one of line 132. *)
Definition fails_at_line_132 (k : nat) : bool := negb (k =? 4)%nat.
(** * Properties *)


(** ** Loops and scalars *)

Lemma foldM_app {St I} (body : I -> St -> res St) l1 l2 s :
  foldM body (l1 ++ l2) s = s' ← foldM body l1 s; foldM body l2 s'.
Proof.
  revert s. induction l1 as [|i l1 IH]; intros s; simpl; [done|].
  destruct (body i s) as [s'|f]; simpl; [apply IH | done].
Qed.

Lemma for_loop_0 {St} (body : Z -> St -> res St) s : for_loop 0 body s = Ok s.
Proof. reflexivity. Qed.

Lemma for_loop_S {St} (body : Z -> St -> res St) (k : nat) s :
  for_loop (Z.of_nat (S k)) body s
  = s' ← for_loop (Z.of_nat k) body s; body (Z.of_nat k) s'.
Proof.
  unfold for_loop. rewrite seqZ_S, foldM_app. simpl.
  destruct (foldM body (seqZ 0 (Z.of_nat k)) s) as [s'|f]; simpl; [|done].
  rewrite Z.add_0_l. by destruct (body (Z.of_nat k) s').
Qed.

Lemma int_arith_Ok z : INT_MIN <= z <= INT_MAX -> int_arith z = Ok z.
Proof.
  intros Hz. unfold int_arith, in_int.
  destruct (Z.leb_spec INT_MIN z), (Z.leb_spec z INT_MAX); simpl; try lia; done.
Qed.

Lemma int_arith_inv z z' : int_arith z = Ok z' -> z' = z /\ INT_MIN <= z <= INT_MAX.
Proof.
  unfold int_arith, in_int.
  destruct (Z.leb_spec INT_MIN z), (Z.leb_spec z INT_MAX); simpl; intros [=]; lia.
Qed.

Lemma int_arith_cases z : int_arith z = Ok z \/ int_arith z = Fault IntOverflow.
Proof. unfold int_arith. destruct (in_int z); auto. Qed.

Lemma int_of_size_Ok n : Z.of_nat n <= INT_MAX -> int_of_size n = Ok (Z.of_nat n).
Proof. intros. apply int_arith_Ok. unfold INT_MIN. lia. Qed.

Lemma vec_at_Ok {A} (v : list A) (i : nat) a :
  v !! i = Some a -> vec_at v (Z.of_nat i) = Ok a.
Proof.
  intros Hi. unfold vec_at. destruct (Z.ltb_spec (Z.of_nat i) 0); [lia|].
  by rewrite Nat2Z.id, Hi.
Qed.

Lemma vec_at_inv {A} (v : list A) (i : Z) a :
  vec_at v i = Ok a -> 0 <= i /\ v !! Z.to_nat i = Some a.
Proof.
  unfold vec_at. destruct (Z.ltb_spec i 0); [done|].
  destruct (v !! Z.to_nat i); intros [=]; subst; auto.
Qed.

Lemma vec_at_fault {A} (v : list A) (i : Z) f :
  vec_at v i = Fault f -> f = OutOfBounds.
Proof.
  unfold vec_at. destruct (i <? 0); [congruence|].
  destruct (v !! Z.to_nat i); congruence.
Qed.

(** ** The bias pass of [linear] *)

Section LinearProofs.
Context {F : Type} `{FloatOps F}.

Lemma bias_prefix_0 bias row : bias_prefix 0 bias row = row.
Proof. unfold bias_prefix. by rewrite !take_0, drop_0. Qed.

Lemma bias_prefix_all bias row :
  (length row <= length bias)%nat ->
  bias_prefix (length row) bias row = add_bias_to_row bias row.
Proof.
  intros Hlen. unfold bias_prefix, add_bias_to_row.
  rewrite firstn_all, drop_all, app_nil_r.
  apply zip_with_take_r.
Qed.

Lemma bias_prefix_lookup_ge k bias row j :
  (k <= j)%nat -> (k <= length row)%nat -> (k <= length bias)%nat ->
  bias_prefix k bias row !! j = row !! j.
Proof.
  intros Hj Hr Hb. unfold bias_prefix.
  rewrite lookup_app_r; rewrite length_zip_with, !length_take; [|lia].
  rewrite lookup_drop. f_equal. lia.
Qed.

Lemma bias_prefix_S k bias row x b :
  row !! k = Some x -> bias !! k = Some b ->
  <[k := fadd x b]> (bias_prefix k bias row) = bias_prefix (S k) bias row.
Proof.
  intros Hx Hb. unfold bias_prefix.
  pose proof (lookup_lt_Some _ _ _ Hx). pose proof (lookup_lt_Some _ _ _ Hb).
  rewrite (take_S_r row k x), (take_S_r bias k b) by done.
  rewrite zip_with_app by (rewrite !length_take; lia). simpl.
  rewrite <- app_assoc. simpl.
  rewrite (drop_S row x k) by done. simpl.
  rewrite insert_app_r_alt; rewrite length_zip_with, !length_take; [|lia].
  replace (k - _)%nat with 0%nat by lia. done.
Qed.

Lemma add_bias_row_prefix bias (i : nat) (out : list (list F)) row (k : nat) :
  out !! i = Some row -> (k <= length row)%nat -> (k <= length bias)%nat ->
  add_bias_row (Z.of_nat k) bias (Z.of_nat i) out
  = Ok (<[i := bias_prefix k bias row]> out).
Proof.
  intros Hrow. unfold add_bias_row. induction k as [|k IH]; intros Hk Hb.
  - rewrite bias_prefix_0, list_insert_id by done. reflexivity.
  - rewrite for_loop_S, IH by lia. simpl. unfold add_bias_at.
    destruct (lookup_lt_is_Some_2 row k) as [x Hx]; [lia|].
    destruct (lookup_lt_is_Some_2 bias k) as [b Hbk]; [lia|].
    pose proof (lookup_lt_Some _ _ _ Hrow).
    rewrite (vec_at_Ok _ i (bias_prefix k bias row))
      by (by rewrite list_lookup_insert_eq). simpl.
    rewrite (vec_at_Ok (bias_prefix k bias row) k x)
      by (rewrite bias_prefix_lookup_ge by lia; done). simpl.
    rewrite (vec_at_Ok bias k b) by done. simpl.
    rewrite !Nat2Z.id, list_insert_insert_eq.
    by rewrite (bias_prefix_S k bias row x b).
Qed.

Lemma add_bias_row_ok bias (i : nat) (out : list (list F)) row :
  out !! i = Some row -> (length row <= length bias)%nat ->
  add_bias_row (Z.of_nat (length row)) bias (Z.of_nat i) out
  = Ok (<[i := add_bias_to_row bias row]> out).
Proof.
  intros Hrow Hb. rewrite (add_bias_row_prefix bias i out row) by (done || lia).
  by rewrite bias_prefix_all.
Qed.

Lemma length_add_bias_to_row (bias row : list F) :
  (length row <= length bias)%nat ->
  length (add_bias_to_row bias row) = length row.
Proof. intros. unfold add_bias_to_row. rewrite length_zip_with. lia. Qed.

Lemma bias_rows_nil bias (out : list (list F)) : bias_rows [] bias out = out.
Proof.
  apply list_eq. intros j. unfold bias_rows. rewrite list_lookup_imap.
  by destruct (out !! j).
Qed.

Lemma bias_rows_all sched bias (out : list (list F)) :
  (forall i : nat, (i < length out)%nat -> Z.of_nat i ∈ sched) ->
  bias_rows sched bias out = map (add_bias_to_row bias) out.
Proof.
  intros Hall. apply list_eq. intros j. unfold bias_rows.
  rewrite list_lookup_imap, list_lookup_fmap.
  destruct (out !! j) eqn:Hj; simpl; [|done].
  rewrite bool_decide_eq_true_2; [done|].
  apply Hall. by eapply lookup_lt_Some.
Qed.

Lemma bias_rows_cons (i : nat) sched bias (out : list (list F)) row :
  out !! i = Some row -> Z.of_nat i ∉ sched ->
  bias_rows sched bias (<[i := add_bias_to_row bias row]> out)
  = bias_rows (Z.of_nat i :: sched) bias out.
Proof.
  intros Hrow Hnotin. apply list_eq. intros j. unfold bias_rows.
  rewrite !list_lookup_imap. destruct (decide (i = j)) as [<-|Hne].
  - rewrite list_lookup_insert_eq by (by eapply lookup_lt_Some).
    rewrite Hrow. simpl.
    rewrite bool_decide_eq_false_2 by done.
    rewrite bool_decide_eq_true_2 by apply list_elem_of_here. done.
  - rewrite list_lookup_insert_ne by done.
    destruct (out !! j); simpl; [|done]. f_equal.
    destruct (decide (Z.of_nat j ∈ sched)) as [Hin|Hnin].
    + rewrite !bool_decide_eq_true_2; [done| |done]. by apply list_elem_of_further.
    + rewrite !bool_decide_eq_false_2; [done| |done].
      rewrite elem_of_cons. intros [Heq|?]; [lia|done].
Qed.

(** The parallel loop, for any order of the iterations. *)
Lemma linear_bias_pass_sched_ok sched (N : nat) bias (out : list (list F)) :
  NoDup sched ->
  (forall i, i ∈ sched -> 0 <= i < Z.of_nat (length out)) ->
  Forall (fun r => length r = N) out ->
  (N <= length bias)%nat ->
  linear_bias_pass_sched sched (Z.of_nat N) bias out
  = Ok (bias_rows sched bias out).
Proof.
  intros Hnd Hrange Hrows Hbias. revert out Hrange Hrows.
  unfold linear_bias_pass_sched, omp_parallel_for.
  induction sched as [|i sched IH]; intros out Hrange Hrows; simpl.
  - by rewrite bias_rows_nil.
  - apply NoDup_cons in Hnd as [Hnotin Hnd].
    destruct (Hrange i) as [Hi0 HiM]; [apply list_elem_of_here|].
    remember (Z.to_nat i) as i' eqn:Hi'.
    assert (i = Z.of_nat i') as -> by lia. clear Hi'.
    destruct (lookup_lt_is_Some_2 out i') as [row Hrow]; [lia|].
    assert (length row = N) as Hlen.
    { by apply (Forall_lookup_1 (fun r => length r = N) out i' row). }
    rewrite <- Hlen at 1.
    rewrite (add_bias_row_ok bias i' out row) by (done || lia). simpl.
    rewrite IH; try done.
    + by rewrite (bias_rows_cons i' sched bias out row).
    + intros j Hj. rewrite length_insert. apply Hrange. by apply list_elem_of_further.
    + apply Forall_insert; [done|]. rewrite length_add_bias_to_row; lia.
Qed.

(** Any order gives the row-broadcast sum. *)
Lemma linear_bias_pass_sched_perm sched (N : nat) bias (out : list (list F)) :
  sched ≡ₚ seqZ 0 (Z.of_nat (length out)) ->
  Forall (fun r => length r = N) out ->
  (N <= length bias)%nat ->
  linear_bias_pass_sched sched (Z.of_nat N) bias out
  = Ok (map (add_bias_to_row bias) out).
Proof.
  intros Hperm Hrows Hbias.
  rewrite linear_bias_pass_sched_ok; try done.
  - rewrite bias_rows_all; [done|]. intros i Hi.
    rewrite Hperm, elem_of_seqZ. lia.
  - rewrite Hperm. apply NoDup_seqZ.
  - intros i. rewrite Hperm, elem_of_seqZ. lia.
Qed.

Lemma linear_bias_pass_ok (N : nat) bias (out : list (list F)) :
  Forall (fun r => length r = N) out ->
  (N <= length bias)%nat ->
  linear_bias_pass (Z.of_nat (length out)) (Z.of_nat N) bias out
  = Ok (map (add_bias_to_row bias) out).
Proof. intros. by apply linear_bias_pass_sched_perm. Qed.

End LinearProofs.

Lemma is_matrix_lookup {A} (M N : nat) (m : list (list A)) (i : nat) :
  is_matrix M N m -> (i < M)%nat -> exists row, m !! i = Some row /\ length row = N.
Proof.
  intros [Hlen Hrows] Hi.
  destruct (lookup_lt_is_Some_2 m i) as [row Hrow]; [lia|].
  exists row. split; [done|].
  by apply (Forall_lookup_1 (fun r => length r = N) m i row).
Qed.

Lemma is_matrix_entry {A} (M N : nat) (m : list (list A)) (i j : nat) :
  is_matrix M N m -> (i < M)%nat -> (j < N)%nat -> is_Some (entry m i j).
Proof.
  intros Hm Hi Hj. destruct (is_matrix_lookup M N m i Hm Hi) as (row & Hrow & Hlen).
  unfold entry. rewrite Hrow. simpl. apply lookup_lt_is_Some_2. lia.
Qed.

Lemma entry_add_bias `{FloatOps F} (bias : list F) (m : list (list F)) i j :
  entry (map (add_bias_to_row bias) m) i j
  = p ← entry m i j; b ← bias !! j; Some (fadd p b).
Proof.
  unfold entry. rewrite list_lookup_fmap.
  destruct (m !! i) as [row|]; simpl; [|done].
  unfold add_bias_to_row. rewrite lookup_zip_with.
  by destruct (row !! j).
Qed.

Lemma linear_pre_ok `{FloatOps F} `{Syntari F}
  (input weights : list (list F)) (bias : list F) (M N : nat) :
  is_matrix M N (matmul input weights) ->
  (0 < M)%nat ->
  length bias = N ->
  Z.of_nat M <= INT_MAX ->
  Z.of_nat N <= INT_MAX ->
  linear_pre input weights bias
  = Ok (map (add_bias_to_row bias) (matmul input weights)).
Proof.
  intros Hm HM Hbias HMmax HNmax.
  unfold linear_pre, linear_dims. destruct Hm as [HlenP Hrows].
  destruct (is_matrix_lookup M N (matmul input weights) 0 (conj HlenP Hrows) HM)
    as (row0 & Hrow0 & Hlen0).
  rewrite int_of_size_Ok by lia. simpl.
  rewrite (vec_at_Ok _ 0 row0 Hrow0 : vec_at (matmul input weights) 0 = Ok row0).
  simpl. rewrite int_of_size_Ok by lia. simpl.
  rewrite Hlen0, HlenP. rewrite <- HlenP at 1. apply linear_bias_pass_ok; [done|lia].
Qed.

Lemma add_bias_is_matrix `{FloatOps F} (bias : list F) (P : list (list F))
  (M N : nat) :
  is_matrix M N P -> length bias = N ->
  is_matrix M N (map (add_bias_to_row bias) P).
Proof.
  intros [HlenP Hrows] Hbias. split; [by rewrite length_map|].
  apply Forall_fmap. eapply Forall_impl; [exact Hrows|].
  intros r Hr. simpl in *. rewrite length_add_bias_to_row; lia.
Qed.

(** ** Claims about [linear] *)

(** C1.  Whatever [matmul] computes, if its result has [M > 0] rows of [N]
    entries and the bias has [N] entries, then [linear] reaches its
    activation step with an [M] by [N] matrix whose entry [(i, j)] is the
    entry [(i, j)] of [matmul(input, weights)] plus [bias[j]], and returns
    the activation of that matrix. *)
Theorem linear_before_activation `{FloatOps F} `{Syntari F}
  (input weights : list (list F)) (bias : list F) (M N : nat) :
  is_matrix M N (matmul input weights) ->
  (0 < M)%nat ->
  length bias = N ->
  Z.of_nat M <= INT_MAX ->
  Z.of_nat N <= INT_MAX ->
  exists output,
    linear_pre input weights bias = Ok output
    /\ linear input weights bias = Ok (reluCUDA_batch output output)
    /\ output = map (add_bias_to_row bias) (matmul input weights)
    /\ is_matrix M N output
    /\ forall i j, (i < M)%nat -> (j < N)%nat ->
        exists p b,
          entry (matmul input weights) i j = Some p
          /\ bias !! j = Some b
          /\ entry output i j = Some (fadd p b).
Proof.
  intros Hm HM Hbias HMmax HNmax.
  pose proof (linear_pre_ok input weights bias M N Hm HM Hbias HMmax HNmax) as Hpre.
  exists (map (add_bias_to_row bias) (matmul input weights)).
  split; [done|]. split.
  { unfold linear. by rewrite Hpre. }
  split; [done|]. split; [by apply add_bias_is_matrix|].
  intros i j Hi Hj.
  destruct (is_matrix_entry M N _ i j Hm Hi Hj) as [p Hp].
  destruct (lookup_lt_is_Some_2 bias j) as [b Hb]; [lia|].
  exists p, b. split; [done|]. split; [done|].
  by rewrite entry_add_bias, Hp; simpl; rewrite Hb.
Qed.

Lemma linear_before_activation_witness :
  exists output,
    linear_pre (f32_mat [[1; 2]; [3; 4]]) (f32_mat [[5; 6]; [7; 8]]) (f32_vec [1; -1])
      = Ok output
    /\ entry output 1 0 = Some (Binary32.of_Z 44).
Proof.
  destruct (linear_before_activation
              (f32_mat [[1; 2]; [3; 4]]) (f32_mat [[5; 6]; [7; 8]])
              (f32_vec [1; -1]) 2 2)
    as (output & Hpre & _ & Hout & _).
  - split; [reflexivity|]. repeat constructor.
  - lia.
  - reflexivity.
  - unfold INT_MAX. lia.
  - unfold INT_MAX. lia.
  - exists output. split; [exact Hpre|]. rewrite Hout. reflexivity.
Defined.

(** ** Device memory and the [addBiasEfficient] kernel *)

Section KernelProofs.
Context {F : Type} `{FloatOps F}.
Implicit Types h : dmem F.

Lemma dev_load_Ok h p (i : nat) buf v :
  h !! p = Some buf -> buf !! i = Some (Some v) ->
  dev_load h p (Z.of_nat i) = Ok v.
Proof.
  intros Hp Hi. unfold dev_load. rewrite Hp.
  by rewrite (vec_at_Ok buf i (Some v)).
Qed.

Lemma dev_store_Ok h p (i : nat) buf v :
  h !! p = Some buf -> (i < length buf)%nat ->
  dev_store h p (Z.of_nat i) v = Ok (<[p := <[i := Some v]> buf]> h).
Proof.
  intros Hp Hi. unfold dev_store. rewrite Hp.
  destruct (lookup_lt_is_Some_2 buf i Hi) as [c Hc].
  rewrite (vec_at_Ok buf i c) by done. simpl. by rewrite Nat2Z.id.
Qed.

Lemma dev_store_inv h p i v h' :
  dev_store h p i v = Ok h' ->
  exists buf, h !! p = Some buf /\ 0 <= i /\ (Z.to_nat i < length buf)%nat
              /\ h' = <[p := <[Z.to_nat i := Some v]> buf]> h.
Proof.
  unfold dev_store. destruct (h !! p) as [buf|]; [|done].
  destruct (vec_at buf i) as [c|] eqn:Hc; simpl; [|done].
  intros [= <-]. apply vec_at_inv in Hc as [Hi Hc].
  exists buf. eauto using lookup_lt_Some.
Qed.

Lemma cell_at_store_other h p (i : nat) buf (c : option F) q idx :
  h !! p = Some buf -> q ≠ p \/ idx ≠ i ->
  cell_at (<[p := <[i := c]> buf]> h) q idx = cell_at h q idx.
Proof.
  intros Hp Hne. unfold cell_at. destruct (decide (q = p)) as [->|Hq].
  - rewrite lookup_insert_eq, Hp. simpl.
    destruct Hne as [?|Hidx]; [done|]. by rewrite list_lookup_insert_ne.
  - by rewrite lookup_insert_ne.
Qed.

Lemma size_store h p (i : nat) buf (c : option F) q :
  h !! p = Some buf ->
  length <$> (<[p := <[i := c]> buf]> h) !! q = length <$> h !! q.
Proof.
  intros Hp. destruct (decide (q = p)) as [->|Hq].
  - rewrite lookup_insert_eq, Hp. simpl. by rewrite length_insert.
  - by rewrite lookup_insert_ne.
Qed.

Lemma addBiasEfficient_unfold b bd t output bias batchSize outputDim h :
  addBiasEfficient b bd t output bias batchSize outputDim h
  = addBiasEfficient_body (thread_row b bd t) (thread_col b bd t)
      output bias batchSize outputDim h.
Proof. reflexivity. Qed.

(** A thread outside the matrix writes nothing. *)
Lemma addBiasEfficient_body_outside row col output bias batchSize outputDim h :
  batchSize <= row \/ outputDim <= col ->
  addBiasEfficient_body row col output bias batchSize outputDim h = Ok h.
Proof.
  intros Hout. unfold addBiasEfficient_body.
  destruct (Z.ltb_spec row batchSize), (Z.ltb_spec col outputDim); simpl; try done; lia.
Qed.

(** The only cell a thread can write lies in the first
    [batchSize * outputDim] cells of [output]. *)
Lemma addBiasEfficient_body_inv row col output bias batchSize outputDim h h' :
  0 <= outputDim ->
  addBiasEfficient_body row col output bias batchSize outputDim h = Ok h' ->
  h' = h \/
  exists buf (idx : nat) v,
    h !! output = Some buf /\ (idx < length buf)%nat
    /\ Z.of_nat idx = row * outputDim + col
    /\ Z.of_nat idx < batchSize * outputDim
    /\ h' = <[output := <[idx := Some v]> buf]> h.
Proof.
  intros HN. unfold addBiasEfficient_body.
  destruct (Z.ltb_spec row batchSize), (Z.ltb_spec col outputDim); simpl;
    try (intros [= <-]; by left).
  destruct (int_arith (row * outputDim)) as [scaled|] eqn:Hs; simpl; [|done].
  apply int_arith_inv in Hs as [-> _].
  destruct (int_arith (row * outputDim + col)) as [idx|] eqn:Hidx; simpl; [|done].
  apply int_arith_inv in Hidx as [-> _].
  destruct (dev_load h output _) as [o|]; simpl; [|done].
  destruct (dev_load h bias col) as [b|]; simpl; [|done].
  intros (buf & Hbuf & Hidx0 & Hlen & ->)%dev_store_inv.
  right. exists buf, (Z.to_nat (row * outputDim + col)), (fadd o b).
  split; [done|]. split; [done|]. split; [lia|]. split; [|done].
  rewrite Z2Nat.id by done. nia.
Qed.

Lemma addBiasEfficient_body_frame row col output bias batchSize outputDim h h' :
  0 <= outputDim ->
  addBiasEfficient_body row col output bias batchSize outputDim h = Ok h' ->
  (forall q idx, q ≠ output \/ batchSize * outputDim <= Z.of_nat idx ->
                 cell_at h' q idx = cell_at h q idx)
  /\ (forall q, length <$> h' !! q = length <$> h !! q).
Proof.
  intros HN Hrun.
  destruct (addBiasEfficient_body_inv _ _ _ _ _ _ _ _ HN Hrun)
    as [->|(buf & idx & v & Hbuf & Hlen & _ & Hidx & ->)]; [done|].
  split.
  - intros q idx' Hq. apply cell_at_store_other; [done|].
    destruct Hq as [?|?]; [by left|right; lia].
  - intros q. by apply size_store.
Qed.

Lemma launch_sched_frame sched blockDim output bias batchSize outputDim h h' :
  0 <= outputDim ->
  launch_sched sched
    (fun b t => addBiasEfficient b blockDim t output bias batchSize outputDim) h
  = Ok h' ->
  (forall q idx, q ≠ output \/ batchSize * outputDim <= Z.of_nat idx ->
                 cell_at h' q idx = cell_at h q idx)
  /\ (forall q, length <$> h' !! q = length <$> h !! q).
Proof.
  intros HN. unfold launch_sched. revert h.
  induction sched as [|[b t] sched IH]; intros h; simpl.
  - by intros [= <-].
  - rewrite addBiasEfficient_unfold.
    destruct (addBiasEfficient_body (thread_row b blockDim t)
                (thread_col b blockDim t) output bias batchSize outputDim h)
      as [h1|] eqn:Hstep; simpl; [|done].
    intros Hrest.
    destruct (addBiasEfficient_body_frame _ _ _ _ _ _ _ _ HN Hstep) as [Hc1 Hs1].
    destruct (IH h1 Hrest) as [Hc2 Hs2]. split.
    + intros q idx Hq. by rewrite Hc2, Hc1.
    + intros q. by rewrite Hs2, Hs1.
Qed.

(** *** Row-major arrays *)

Lemma concat_join {A} (m : list (list A)) : concat m = mjoin m.
Proof. induction m as [|r m IH]; simpl; [done|]. by rewrite IH. Qed.

Lemma length_concat_rect {A} (N : nat) (m : list (list A)) :
  Forall (fun r => length r = N) m -> length (concat m) = (length m * N)%nat.
Proof.
  induction 1 as [|r m Hr _ IH]; simpl; [done|]. rewrite length_app, IH. lia.
Qed.

Lemma lookup_concat_rect {A} (N : nat) (m : list (list A)) (i j : nat) :
  Forall (fun r => length r = N) m -> (j < N)%nat ->
  concat m !! (i * N + j)%nat = entry m i j.
Proof.
  intros Hm Hj. revert i. induction Hm as [|r m Hr _ IH]; intros i; simpl.
  - unfold entry. by rewrite !lookup_nil.
  - destruct i as [|i]; simpl.
    + unfold entry. simpl. apply lookup_app_l. lia.
    + rewrite lookup_app_r by lia. unfold entry. simpl.
      replace (N + i * N + j - length r)%nat with (i * N + j)%nat by lia.
      apply IH.
Qed.

Lemma coord_of_index_flat (N row col : Z) :
  0 <= row -> 0 <= col < N ->
  coord_of_index N (Z.to_nat (row * N + col)) = (row, col).
Proof.
  intros Hrow Hcol. unfold coord_of_index. rewrite Z2Nat.id by nia.
  f_equal.
  - symmetry. apply (Z.div_unique_pos _ _ _ col); lia.
  - symmetry. apply (Z.mod_unique_pos _ _ row); lia.
Qed.

Lemma coord_of_index_nat (N i j : nat) :
  (j < N)%nat ->
  coord_of_index (Z.of_nat N) (i * N + j) = (Z.of_nat i, Z.of_nat j).
Proof.
  intros Hj.
  replace (i * N + j)%nat with (Z.to_nat (Z.of_nat i * Z.of_nat N + Z.of_nat j)) by lia.
  apply coord_of_index_flat; lia.
Qed.

Lemma coord_of_index_inj (N : Z) (idx : nat) (row col : Z) :
  0 < N -> coord_of_index N idx = (row, col) -> Z.of_nat idx = row * N + col.
Proof.
  intros HN [= <- <-]. rewrite (Z.div_mod (Z.of_nat idx) N) at 1 by lia. lia.
Qed.

Lemma coord_of_index_range (M N : Z) (idx : nat) :
  0 < N -> Z.of_nat idx < M * N ->
  0 <= (coord_of_index N idx).1 < M /\ 0 <= (coord_of_index N idx).2 < N.
Proof.
  intros HN Hidx. unfold coord_of_index. simpl.
  pose proof (Z.mod_pos_bound (Z.of_nat idx) N HN).
  pose proof (Z.div_mod (Z.of_nat idx) N ltac:(lia)).
  assert (0 <= Z.of_nat idx / N) by (apply Z.div_pos; lia).
  split; [|done]. split; [done|]. nia.
Qed.

(** *** The launch, thread by thread *)

Lemma flat_add_bias_nil N (bias flat : list F) : flat_add_bias N bias [] flat = flat.
Proof.
  apply list_eq. intros idx. unfold flat_add_bias. rewrite list_lookup_imap.
  by destruct (flat !! idx).
Qed.

Lemma length_flat_add_bias N (bias : list F) done flat :
  length (flat_add_bias N bias done flat) = length flat.
Proof. unfold flat_add_bias. apply length_imap. Qed.

Lemma flat_add_bias_outside (M N : Z) (bias : list F) rc done flat :
  Z.of_nat (length flat) = M * N -> 0 <= N ->
  M <= rc.1 \/ N <= rc.2 ->
  flat_add_bias N bias (rc :: done) flat = flat_add_bias N bias done flat.
Proof.
  intros Hlen HN Hout. apply list_eq. intros idx. unfold flat_add_bias.
  rewrite !list_lookup_imap. destruct (flat !! idx) as [o|] eqn:Ho; simpl; [|done].
  apply lookup_lt_Some in Ho.
  assert (0 < N).
  { destruct (decide (N = 0)) as [->|]; [|lia]. rewrite Z.mul_0_r in Hlen. lia. }
  destruct (coord_of_index_range M N idx) as [Hr Hc]; [lia..|].
  f_equal. apply (f_equal (fun b : bool => if b then _ else _)).
  apply bool_decide_ext. rewrite elem_of_cons.
  split; [intros [Heq|?]; [|done]|by right].
  rewrite Heq in *. lia.
Qed.

Lemma flat_add_bias_step (N row col : Z) (bias : list F) done flat o b :
  0 <= row -> 0 <= col < N ->
  (row, col) ∉ done ->
  flat !! Z.to_nat (row * N + col) = Some o ->
  bias !! Z.to_nat col = Some b ->
  flat_add_bias N bias done (<[Z.to_nat (row * N + col) := fadd o b]> flat)
  = flat_add_bias N bias ((row, col) :: done) flat.
Proof.
  intros Hrow Hcol Hnotin Ho Hb. apply list_eq. intros idx. unfold flat_add_bias.
  rewrite !list_lookup_imap.
  destruct (decide (idx = Z.to_nat (row * N + col))) as [->|Hne].
  - rewrite list_lookup_insert_eq by (by eapply lookup_lt_Some).
    rewrite Ho. simpl. rewrite coord_of_index_flat by done.
    rewrite bool_decide_eq_false_2 by done.
    rewrite bool_decide_eq_true_2 by apply list_elem_of_here.
    rewrite Z2Nat.id by nia.
    replace ((row * N + col) mod N) with col; [by rewrite Hb|].
    apply (Z.mod_unique_pos _ _ row); lia.
  - rewrite list_lookup_insert_ne by done.
    destruct (flat !! idx) as [o'|]; simpl; [|done].
    f_equal. apply (f_equal (fun b : bool => if b then _ else _)).
    apply bool_decide_ext. rewrite elem_of_cons.
    split; [by right|intros [Heq|?]; [|done]].
    apply coord_of_index_inj in Heq; [|lia]. lia.
Qed.

Lemma addBiasEfficient_body_inside (M N row col : Z) output bias
  (flat bvec : list F) h (idx : nat) o b :
  h !! output = Some (Some <$> flat) ->
  h !! bias = Some (Some <$> bvec) ->
  0 <= row < M -> 0 <= col < N ->
  M * N <= INT_MAX ->
  Z.of_nat idx = row * N + col ->
  flat !! idx = Some o ->
  bvec !! Z.to_nat col = Some b ->
  addBiasEfficient_body row col output bias M N h
  = Ok (<[output := Some <$> <[idx := fadd o b]> flat]> h).
Proof.
  intros Hout Hbias Hrow Hcol Hmax Hidx Ho Hb. unfold addBiasEfficient_body.
  destruct (Z.ltb_spec row M), (Z.ltb_spec col N); try lia. simpl.
  rewrite int_arith_Ok by (unfold INT_MIN; nia). simpl.
  rewrite int_arith_Ok by (unfold INT_MIN; nia). simpl.
  rewrite <- Hidx.
  rewrite (dev_load_Ok h output idx (Some <$> flat) o Hout)
    by (by rewrite list_lookup_fmap, Ho). simpl.
  rewrite <- (Z2Nat.id col) at 1 by lia.
  rewrite (dev_load_Ok h bias _ (Some <$> bvec) b Hbias)
    by (by rewrite list_lookup_fmap, Hb). simpl.
  rewrite (dev_store_Ok h output idx (Some <$> flat) _ Hout)
    by (rewrite length_fmap; by eapply lookup_lt_Some).
  by rewrite list_fmap_insert.
Qed.

(** The threads at the coordinates [rcs], in this order. *)
Lemma launch_coords_result (rcs : list (Z * Z)) (M N : Z) output bias
  (flat bvec : list F) h :
  NoDup rcs ->
  (forall rc, rc ∈ rcs -> 0 <= rc.1 /\ 0 <= rc.2) ->
  h !! output = Some (Some <$> flat) ->
  h !! bias = Some (Some <$> bvec) ->
  output ≠ bias ->
  Z.of_nat (length flat) = M * N ->
  0 <= N <= Z.of_nat (length bvec) ->
  M * N <= INT_MAX ->
  foldM (fun rc => addBiasEfficient_body rc.1 rc.2 output bias M N) rcs h
  = Ok (<[output := Some <$> flat_add_bias N bvec rcs flat]> h).
Proof.
  intros Hnd Hpos Hout Hbias Hne Hlen HN Hmax. revert flat h Hout Hbias Hlen.
  induction rcs as [|[row col] rcs IH]; intros flat h Hout Hbias Hlen; simpl.
  - by rewrite flat_add_bias_nil, insert_id.
  - apply NoDup_cons in Hnd as [Hnotin Hnd].
    destruct (Hpos (row, col)) as [Hrow Hcol]; [apply list_elem_of_here|].
    simpl in Hrow, Hcol.
    assert (forall rc, rc ∈ rcs -> 0 <= rc.1 /\ 0 <= rc.2) as Hpos'.
    { intros rc Hrc. apply Hpos. by apply list_elem_of_further. }
    destruct (decide (row < M /\ col < N)) as [[HrM HcN]|Hout_range].
    + assert (Z.to_nat (row * N + col) < length flat)%nat as Hidx by nia.
      destruct (lookup_lt_is_Some_2 flat _ Hidx) as [o Ho].
      destruct (lookup_lt_is_Some_2 bvec (Z.to_nat col)) as [b Hb]; [lia|].
      rewrite (addBiasEfficient_body_inside M N row col output bias flat bvec h
                 (Z.to_nat (row * N + col)) o b) by (done || nia).
      simpl.
      rewrite (IH Hnd Hpos' (<[Z.to_nat (row * N + col) := fadd o b]> flat)).
      * rewrite insert_insert_eq.
        by rewrite (flat_add_bias_step N row col bvec rcs flat o b) by (done || lia).
      * by rewrite lookup_insert_eq.
      * by rewrite lookup_insert_ne.
      * by rewrite length_insert.
    + rewrite addBiasEfficient_body_outside by lia. simpl.
      rewrite (IH Hnd Hpos' flat) by done.
      by rewrite (flat_add_bias_outside M N bvec (row, col) rcs flat) by (simpl; lia).
Qed.

Lemma foldM_fmap {St I J} (g : I -> J) (body : J -> St -> res St) l s :
  foldM body (g <$> l) s = foldM (fun i => body (g i)) l s.
Proof.
  revert s. induction l as [|i l IH]; intros s; simpl; [done|].
  destruct (body (g i) s); simpl; [apply IH|done].
Qed.

Lemma launch_sched_coords sched blockDim output bias batchSize outputDim h :
  launch_sched sched
    (fun b t => addBiasEfficient b blockDim t output bias batchSize outputDim) h
  = foldM (fun rc => addBiasEfficient_body rc.1 rc.2 output bias batchSize outputDim)
      (thread_coords blockDim sched) h.
Proof. unfold launch_sched, thread_coords. by rewrite foldM_fmap. Qed.

(** When every position of the matrix has its thread, the array holds the
    row-broadcast sum. *)
Lemma flat_add_bias_all (M N : nat) (bias : list F) rcs (out : list (list F)) :
  is_matrix M N out ->
  length bias = N ->
  (forall i j : nat, (i < M)%nat -> (j < N)%nat -> (Z.of_nat i, Z.of_nat j) ∈ rcs) ->
  flat_add_bias (Z.of_nat N) bias rcs (concat out)
  = concat (map (add_bias_to_row bias) out).
Proof.
  intros [HM Hrows] Hbias Hall.
  assert (Forall (fun r => length r = N) (map (add_bias_to_row bias) out)) as Hrows'.
  { apply Forall_fmap. eapply Forall_impl; [exact Hrows|]. intros r Hr.
    simpl in *. rewrite length_add_bias_to_row; lia. }
  apply list_eq. intros idx. unfold flat_add_bias. rewrite list_lookup_imap.
  destruct (decide (idx < M * N)%nat) as [Hidx|Hidx].
  - assert (0 < N)%nat as HN by nia.
    pose proof (Nat.div_mod_eq idx N) as Hdm.
    pose proof (Nat.mod_upper_bound idx N ltac:(lia)) as Hj.
    assert (idx `div` N < M)%nat as Hi.
    { apply Nat.Div0.div_lt_upper_bound. lia. }
    revert Hdm Hi Hj. generalize (idx `div` N)%nat (idx `mod` N)%nat.
    intros i j -> Hi Hj. clear Hidx.
    replace (N * i + j)%nat with (i * N + j)%nat by lia.
    rewrite !(lookup_concat_rect N) by done.
    rewrite entry_add_bias.
    destruct (is_matrix_entry M N out _ _ (conj HM Hrows) Hi Hj) as [p Hp].
    rewrite Hp. simpl.
    pose proof (coord_of_index_nat N i j Hj) as Hc.
    rewrite Hc, bool_decide_eq_true_2 by (by apply Hall).
    apply (f_equal snd) in Hc. simpl in Hc. rewrite Hc, Nat2Z.id.
    destruct (lookup_lt_is_Some_2 bias j) as [b Hb]; [lia|].
    by rewrite Hb.
  - rewrite (lookup_ge_None_2 (concat out))
      by (rewrite (length_concat_rect N) by done; lia).
    simpl. symmetry. apply lookup_ge_None_2.
    rewrite (length_concat_rect _ _ Hrows'), length_map. nia.
Qed.

End KernelProofs.

(** *** The grid of a launch *)

Lemma elem_of_dim3_indices d i :
  i ∈ dim3_indices d <->
  0 <= dim_x i < dim_x d /\ 0 <= dim_y i < dim_y d /\ 0 <= dim_z i < dim_z d.
Proof.
  unfold dim3_indices. rewrite list_elem_of_bind. split.
  - intros (z & Hin & Hz). apply list_elem_of_bind in Hin as (y & Hin & Hy).
    apply list_elem_of_bind in Hin as (x & Hin & Hx).
    apply list_elem_of_singleton in Hin as ->. simpl.
    apply elem_of_seqZ in Hx, Hy, Hz. lia.
  - intros (Hx & Hy & Hz). destruct i as [x y z]. simpl in *.
    exists z. split; [|apply elem_of_seqZ; lia].
    apply list_elem_of_bind. exists y. split; [|apply elem_of_seqZ; lia].
    apply list_elem_of_bind. exists x. split; [|apply elem_of_seqZ; lia].
    by apply list_elem_of_singleton.
Qed.

Lemma NoDup_dim3_indices d : NoDup (dim3_indices d).
Proof.
  unfold dim3_indices. apply NoDup_bind; [| |apply NoDup_seqZ].
  - intros z1 z2 i _ _ H1 H2.
    apply list_elem_of_bind in H1 as (y1 & H1 & _).
    apply list_elem_of_bind in H1 as (x1 & H1 & _).
    apply list_elem_of_bind in H2 as (y2 & H2 & _).
    apply list_elem_of_bind in H2 as (x2 & H2 & _).
    apply list_elem_of_singleton in H1, H2. congruence.
  - intros z _. apply NoDup_bind; [| |apply NoDup_seqZ].
    + intros y1 y2 i _ _ H1 H2.
      apply list_elem_of_bind in H1 as (x1 & H1 & _).
      apply list_elem_of_bind in H2 as (x2 & H2 & _).
      apply list_elem_of_singleton in H1, H2. congruence.
    + intros y _. apply NoDup_bind; [| |apply NoDup_seqZ].
      * intros x1 x2 i _ _ H1 H2.
        apply list_elem_of_singleton in H1, H2. congruence.
      * intros x _. apply NoDup_singleton.
Qed.

Lemma elem_of_grid_threads gridDim blockDim b t :
  (b, t) ∈ grid_threads gridDim blockDim <->
  b ∈ dim3_indices gridDim /\ t ∈ dim3_indices blockDim.
Proof.
  unfold grid_threads. rewrite list_elem_of_bind. split.
  - intros (b' & Hin & Hb). apply list_elem_of_bind in Hin as (t' & Hin & Ht).
    apply list_elem_of_singleton in Hin as [= -> ->]. done.
  - intros [Hb Ht]. exists b. split; [|done].
    apply list_elem_of_bind. exists t. split; [|done].
    by apply list_elem_of_singleton.
Qed.

Lemma NoDup_grid_threads gridDim blockDim : NoDup (grid_threads gridDim blockDim).
Proof.
  unfold grid_threads. apply NoDup_bind; [| |apply NoDup_dim3_indices].
  - intros b1 b2 bt _ _ H1 H2.
    apply list_elem_of_bind in H1 as (t1 & H1 & _).
    apply list_elem_of_bind in H2 as (t2 & H2 & _).
    apply list_elem_of_singleton in H1, H2. congruence.
  - intros b _. apply NoDup_bind; [| |apply NoDup_dim3_indices].
    + intros t1 t2 bt _ _ H1 H2.
      apply list_elem_of_singleton in H1, H2. congruence.
    + intros t _. apply NoDup_singleton.
Qed.

Lemma int_of_u32_small v : 0 <= v < 2147483648 -> int_of_u32 (u32 v) = v.
Proof.
  intros Hv. unfold int_of_u32, u32. rewrite Z.mod_small by lia.
  destruct (Z.ltb_spec v 2147483648); lia.
Qed.

(** Threads of a two-dimensional launch whose extent fits in an [int]:
    [row] and [col] are computed without wrap-around. *)
Lemma thread_coords_grid gx gy bx by_ b t :
  gx * bx < 2147483648 -> gy * by_ < 2147483648 ->
  (b, t) ∈ grid_threads (Dim3 gx gy 1) (Dim3 bx by_ 1) ->
  thread_row b (Dim3 bx by_ 1) t = dim_y b * by_ + dim_y t
  /\ thread_col b (Dim3 bx by_ 1) t = dim_x b * bx + dim_x t
  /\ 0 <= dim_x b < gx /\ 0 <= dim_y b < gy /\ dim_z b = 0
  /\ 0 <= dim_x t < bx /\ 0 <= dim_y t < by_ /\ dim_z t = 0.
Proof.
  intros Hx Hy [Hb Ht]%elem_of_grid_threads.
  apply elem_of_dim3_indices in Hb, Ht. simpl in *.
  unfold thread_row, thread_col. simpl.
  rewrite !int_of_u32_small by nia. lia.
Qed.

Lemma thread_coords_NoDup gx gy bx by_ :
  gx * bx < 2147483648 -> gy * by_ < 2147483648 ->
  NoDup (thread_coords (Dim3 bx by_ 1) (grid_threads (Dim3 gx gy 1) (Dim3 bx by_ 1))).
Proof.
  intros Hx Hy. unfold thread_coords.
  apply NoDup_fmap_2_strong; [|apply NoDup_grid_threads].
  intros [b t] [b' t'] Hin Hin' Heq. simpl in Heq.
  apply (thread_coords_grid gx gy bx by_ b t Hx Hy) in Hin
    as (Hr & Hc & ? & ? & ? & ? & ? & ?).
  apply (thread_coords_grid gx gy bx by_ b' t' Hx Hy) in Hin'
    as (Hr' & Hc' & ? & ? & ? & ? & ? & ?).
  rewrite Hr, Hc, Hr', Hc' in Heq. injection Heq as Hrow Hcol.
  destruct b as [x y z], t as [tx ty tz], b' as [x' y' z'], t' as [tx' ty' tz'].
  simpl in *.
  assert (y = y' /\ ty = ty') as [-> ->].
  { apply (Z.div_mod_unique by_); lia. }
  assert (x = x' /\ tx = tx') as [-> ->].
  { apply (Z.div_mod_unique bx); lia. }
  congruence.
Qed.

Lemma thread_coords_nonneg gx gy bx by_ rc :
  gx * bx < 2147483648 -> gy * by_ < 2147483648 ->
  rc ∈ thread_coords (Dim3 bx by_ 1) (grid_threads (Dim3 gx gy 1) (Dim3 bx by_ 1)) ->
  0 <= rc.1 /\ 0 <= rc.2.
Proof.
  intros Hx Hy. unfold thread_coords.
  intros ([b t] & -> & Hin)%list_elem_of_fmap. simpl.
  apply (thread_coords_grid gx gy bx by_ b t Hx Hy) in Hin
    as (-> & -> & ? & ? & ? & ? & ? & ?). nia.
Qed.

Lemma thread_coords_cover gx gy bx by_ (i j : nat) :
  gx * bx < 2147483648 -> gy * by_ < 2147483648 ->
  0 < bx -> 0 < by_ ->
  Z.of_nat i < gy * by_ -> Z.of_nat j < gx * bx ->
  (Z.of_nat i, Z.of_nat j)
    ∈ thread_coords (Dim3 bx by_ 1) (grid_threads (Dim3 gx gy 1) (Dim3 bx by_ 1)).
Proof.
  intros Hx Hy Hbx Hby Hi Hj. unfold thread_coords. apply list_elem_of_fmap.
  exists (Dim3 (Z.of_nat j / bx) (Z.of_nat i / by_) 0,
          Dim3 (Z.of_nat j mod bx) (Z.of_nat i mod by_) 0).
  pose proof (Z.mod_pos_bound (Z.of_nat i) by_ Hby).
  pose proof (Z.mod_pos_bound (Z.of_nat j) bx Hbx).
  pose proof (Z.div_mod (Z.of_nat i) by_ ltac:(lia)).
  pose proof (Z.div_mod (Z.of_nat j) bx ltac:(lia)).
  assert (0 <= Z.of_nat i / by_) by (apply Z.div_pos; lia).
  assert (0 <= Z.of_nat j / bx) by (apply Z.div_pos; lia).
  assert (Z.of_nat i / by_ < gy) by (apply Z.div_lt_upper_bound; lia).
  assert (Z.of_nat j / bx < gx) by (apply Z.div_lt_upper_bound; lia).
  assert ((Dim3 (Z.of_nat j / bx) (Z.of_nat i / by_) 0,
           Dim3 (Z.of_nat j mod bx) (Z.of_nat i mod by_) 0)
          ∈ grid_threads (Dim3 gx gy 1) (Dim3 bx by_ 1)) as Hin.
  { apply elem_of_grid_threads. rewrite !elem_of_dim3_indices. simpl. lia. }
  split; [|done]. simpl.
  apply (thread_coords_grid gx gy bx by_ _ _ Hx Hy) in Hin as (-> & -> & _).
  simpl. f_equal; lia.
Qed.

(** A launch on a grid that covers the matrix, in any order of the threads. *)
Lemma launch_sched_grid_ok `{FloatOps F} (gx gy bx by_ : Z) (M N : nat)
  (out : list (list F)) (bias : list F) (h : dmem F) (d_output d_bias : nat)
  (sched : list (dim3 * dim3)) :
  sched ≡ₚ grid_threads (Dim3 gx gy 1) (Dim3 bx by_ 1) ->
  gx * bx < 2147483648 -> gy * by_ < 2147483648 ->
  0 < bx -> 0 < by_ ->
  Z.of_nat M <= gy * by_ -> Z.of_nat N <= gx * bx ->
  is_matrix M N out ->
  length bias = N ->
  Z.of_nat M * Z.of_nat N <= INT_MAX ->
  h !! d_output = Some (Some <$> concat out) ->
  h !! d_bias = Some (Some <$> bias) ->
  d_output ≠ d_bias ->
  launch_sched sched
    (fun b t => addBiasEfficient b (Dim3 bx by_ 1) t d_output d_bias
                  (Z.of_nat M) (Z.of_nat N)) h
  = Ok (<[d_output := Some <$> concat (map (add_bias_to_row bias) out)]> h).
Proof.
  intros Hperm Hx Hy Hbx Hby HM HN Hout Hbias Hmax Hpo Hpb Hne.
  rewrite launch_sched_coords.
  assert (thread_coords (Dim3 bx by_ 1) sched
          ≡ₚ thread_coords (Dim3 bx by_ 1)
               (grid_threads (Dim3 gx gy 1) (Dim3 bx by_ 1))) as Hperm'.
  { unfold thread_coords. by rewrite Hperm. }
  rewrite (launch_coords_result _ (Z.of_nat M) (Z.of_nat N) d_output d_bias
             (concat out) bias h); try done.
  - rewrite (flat_add_bias_all M N bias _ out); try done.
    intros i j Hi Hj. rewrite Hperm'. apply thread_coords_cover; lia.
  - rewrite Hperm'. by apply thread_coords_NoDup.
  - intros rc. rewrite Hperm'. by apply thread_coords_nonneg.
  - destruct Hout as [HlenM Hrows]. rewrite (length_concat_rect N) by done. lia.
  - lia.
Qed.

(** ** Claims about the bias-fusion stage *)

(** C4.  For an [M] by [N] matrix and a bias of [N] entries, the host pass
    of [linear] (lines 27-30), with its iterations in any order, and the
    kernel [addBiasEfficient], launched as at lines 124-126 on the row-major
    copy of the matrix with its threads in any order, produce the same
    matrix: entry [(i, j)] becomes [output[i][j] + bias[j]].  The witness
    is the row [2, 2] with bias [1, -1], which becomes [3, 1]. *)
Theorem bias_fusion_realizations_agree `{FloatOps F} (M N : nat)
  (output : list (list F)) (bias : list F) (h : dmem F) (d_output d_bias : nat)
  (host_sched : list Z) (device_sched : list (dim3 * dim3)) :
  is_matrix M N output ->
  length bias = N ->
  Z.of_nat M + 15 <= INT_MAX ->
  Z.of_nat N + 15 <= INT_MAX ->
  Z.of_nat M * Z.of_nat N <= INT_MAX ->
  h !! d_output = Some (Some <$> concat output) ->
  h !! d_bias = Some (Some <$> bias) ->
  d_output ≠ d_bias ->
  host_sched ≡ₚ seqZ 0 (Z.of_nat M) ->
  device_sched
    ≡ₚ grid_threads (Dim3 ((Z.of_nat N + 15) ÷ 16) ((Z.of_nat M + 15) ÷ 16) 1)
                    (Dim3 16 16 1) ->
  exists biased,
    linear_bias_pass_sched host_sched (Z.of_nat N) bias output = Ok biased
    /\ launch_sched device_sched
         (fun b t => addBiasEfficient b (Dim3 16 16 1) t d_output d_bias
                       (Z.of_nat M) (Z.of_nat N)) h
       = Ok (<[d_output := Some <$> concat biased]> h)
    /\ is_matrix M N biased
    /\ forall i j, (i < M)%nat -> (j < N)%nat ->
       exists o b, entry output i j = Some o /\ bias !! j = Some b
                   /\ entry biased i j = Some (fadd o b).
Proof.
  intros Hout Hbias HM HN Hmax Hpo Hpb Hne Hhost Hdev.
  exists (map (add_bias_to_row bias) output).
  pose proof Hout as [HlenM Hrows].
  unfold INT_MAX in *.
  split; [|split; [|split]].
  - apply linear_bias_pass_sched_perm; [by rewrite HlenM|done|lia].
  - rewrite !Z.quot_div_nonneg in Hdev by lia.
    pose proof (Z.div_mod (Z.of_nat M + 15) 16 ltac:(lia)).
    pose proof (Z.mod_pos_bound (Z.of_nat M + 15) 16 ltac:(lia)).
    pose proof (Z.div_mod (Z.of_nat N + 15) 16 ltac:(lia)).
    pose proof (Z.mod_pos_bound (Z.of_nat N + 15) 16 ltac:(lia)).
    apply (launch_sched_grid_ok _ _ 16 16 M N output bias h d_output d_bias
             device_sched Hdev); try done; lia.
  - split; [by rewrite length_map|].
    apply Forall_fmap. eapply Forall_impl; [exact Hrows|].
    intros r Hr. simpl in *. rewrite length_add_bias_to_row; lia.
  - intros i j Hi Hj.
    destruct (is_matrix_entry M N output i j Hout Hi Hj) as [o Ho].
    destruct (lookup_lt_is_Some_2 bias j) as [b Hb]; [lia|].
    exists o, b. split; [done|]. split; [done|].
    by rewrite entry_add_bias, Ho; simpl; rewrite Hb.
Qed.

Lemma bias_fusion_realizations_agree_witness :
  linear_bias_pass 1 2 (f32_vec [1; -1]) (f32_mat [[2; 2]])
    = Ok (f32_mat [[3; 1]])
  /\ launch_addBiasEfficient (Dim3 1 1 1) (Dim3 16 16 1) 0%nat 1%nat 1 2 heap_2_2
     = Ok (<[ 0%nat := Some <$> f32_vec [3; 1] ]> heap_2_2).
Proof.
  destruct (bias_fusion_realizations_agree 1 2 (f32_mat [[2; 2]]) (f32_vec [1; -1])
              heap_2_2 0%nat 1%nat (seqZ 0 1)
              (grid_threads (Dim3 1 1 1) (Dim3 16 16 1)))
    as (biased & Hhost & Hdev & _ & _).
  - split; [reflexivity|]. repeat constructor.
  - reflexivity.
  - unfold INT_MAX. lia.
  - unfold INT_MAX. lia.
  - unfold INT_MAX. lia.
  - reflexivity.
  - reflexivity.
  - lia.
  - reflexivity.
  - reflexivity.
  - vm_compute in Hhost. injection Hhost as <-.
    split; [reflexivity|exact Hdev].
Defined.

(** C10.  A thread whose row is not below [batchSize] or whose column is
    not below [outputDim] writes nothing.  A launch, whatever its grid and
    the order of its threads, leaves every cell of [output] from position
    [batchSize * outputDim] on, and every other buffer, as it was, and
    changes no buffer's size. *)
Theorem addBiasEfficient_frame `{FloatOps F}
  (sched : list (dim3 * dim3)) (blockDim : dim3) (output bias : nat)
  (batchSize outputDim : Z) (h h' : dmem F) :
  0 <= outputDim ->
  launch_sched sched
    (fun b t => addBiasEfficient b blockDim t output bias batchSize outputDim) h
  = Ok h' ->
  (forall b t h0,
      batchSize <= thread_row b blockDim t \/ outputDim <= thread_col b blockDim t ->
      addBiasEfficient b blockDim t output bias batchSize outputDim h0 = Ok h0)
  /\ (forall q idx,
      q ≠ output \/ batchSize * outputDim <= Z.of_nat idx ->
      cell_at h' q idx = cell_at h q idx)
  /\ (forall q, length <$> h' !! q = length <$> h !! q).
Proof.
  intros HN Hrun. split.
  - intros b t h0 Hout. rewrite addBiasEfficient_unfold.
    by apply addBiasEfficient_body_outside.
  - by apply (launch_sched_frame sched blockDim output bias).
Qed.

Lemma addBiasEfficient_frame_witness :
  launch_addBiasEfficient (Dim3 1 1 1) (Dim3 16 16 1) 0%nat 1%nat 1 2 heap_2_2_9
    = Ok (<[ 0%nat := Some <$> f32_vec [3; 1; 9] ]> heap_2_2_9)
  /\ cell_at (<[ 0%nat := Some <$> f32_vec [3; 1; 9] ]> heap_2_2_9) 0 2
     = cell_at heap_2_2_9 0 2
  /\ cell_at (<[ 0%nat := Some <$> f32_vec [3; 1; 9] ]> heap_2_2_9) 1 0
     = cell_at heap_2_2_9 1 0.
Proof.
  assert (launch_addBiasEfficient (Dim3 1 1 1) (Dim3 16 16 1) 0%nat 1%nat 1 2
            heap_2_2_9
          = Ok (<[ 0%nat := Some <$> f32_vec [3; 1; 9] ]> heap_2_2_9))
    as Hrun by (vm_compute; reflexivity).
  split; [exact Hrun|].
  destruct (addBiasEfficient_frame (grid_threads (Dim3 1 1 1) (Dim3 16 16 1))
              (Dim3 16 16 1) 0%nat 1%nat 1 2 heap_2_2_9 _ ltac:(lia) Hrun)
    as (_ & Hframe & _).
  split; apply Hframe; [right; lia|left; lia].
Defined.

(** ** The [cublasSgemm] call of [linearCUBLAS] *)

Section SgemmProofs.
Context {F : Type} `{FloatOps F}.
Implicit Types h : dmem F.

Lemma dot_product_take_S (w x : list F) (k : nat) a b :
  w !! k = Some a -> x !! k = Some b ->
  dot_product (take (S k) w) (take (S k) x)
  = fadd (dot_product (take k w) (take k x)) (fmul a b).
Proof.
  intros Ha Hb. unfold dot_product.
  rewrite (take_S_r w k a), (take_S_r x k b) by done.
  pose proof (lookup_lt_Some _ _ _ Ha). pose proof (lookup_lt_Some _ _ _ Hb).
  rewrite (zip_with_app pair (take k w) [a] (take k x) [b])
    by (rewrite !length_take; lia).
  by rewrite foldl_app.
Qed.

(** The dot product of row [i] of the weights and row [j] of the input. *)
Lemma gemm_dot_TN h (A B : nat) (N M K : nat) (weights input : list (list F))
  (i j : nat) w x :
  h !! A = Some (Some <$> concat weights) ->
  h !! B = Some (Some <$> concat input) ->
  Forall (fun r => length r = K) weights ->
  Forall (fun r => length r = K) input ->
  weights !! i = Some w -> input !! j = Some x ->
  gemm_dot h CUBLAS_OP_T CUBLAS_OP_N (Z.of_nat K) A (Z.of_nat K) B (Z.of_nat K)
    (Z.of_nat i) (Z.of_nat j)
  = Ok (dot_product w x).
Proof.
  intros HA HB HW HX Hw Hx. unfold gemm_dot.
  assert (length w = K) as Hlw
    by apply (Forall_lookup_1 (fun r => length r = K) weights i w HW Hw).
  assert (length x = K) as Hlx
    by apply (Forall_lookup_1 (fun r => length r = K) input j x HX Hx).
  assert (forall k : nat, (k <= K)%nat ->
    for_loop (Z.of_nat k) (fun l acc =>
      a ← gemm_operand h CUBLAS_OP_T A (Z.of_nat K) (Z.of_nat i) l;
      b ← gemm_operand h CUBLAS_OP_N B (Z.of_nat K) l (Z.of_nat j);
      Ok (fadd acc (fmul a b))) fzero
    = Ok (dot_product (take k w) (take k x))) as Hloop.
  { induction k as [|k IH]; intros Hk; [done|].
    rewrite for_loop_S, IH by lia. simpl.
    destruct (lookup_lt_is_Some_2 w k) as [a Ha]; [lia|].
    destruct (lookup_lt_is_Some_2 x k) as [b Hb]; [lia|].
    replace (Z.of_nat k + Z.of_nat i * Z.of_nat K) with (Z.of_nat (i * K + k)) by lia.
    replace (Z.of_nat k + Z.of_nat j * Z.of_nat K) with (Z.of_nat (j * K + k)) by lia.
    rewrite (dev_load_Ok h A (i * K + k) _ a HA); last first.
    { rewrite list_lookup_fmap, (lookup_concat_rect K) by (done || lia).
      unfold entry. rewrite Hw. simpl. by rewrite Ha. }
    simpl.
    rewrite (dev_load_Ok h B (j * K + k) _ b HB); last first.
    { rewrite list_lookup_fmap, (lookup_concat_rect K) by (done || lia).
      unfold entry. rewrite Hx. simpl. by rewrite Hb. }
    simpl. by rewrite (dot_product_take_S w x k a b). }
  rewrite Hloop by lia. by rewrite <- Hlw at 1; rewrite <- Hlx, !firstn_all.
Qed.

Lemma insert_take_drop {A} (V buf : list A) (t : nat) v :
  V !! t = Some v -> (t < length buf)%nat ->
  <[t := v]> (take t V ++ drop t buf) = take (S t) V ++ drop (S t) buf.
Proof.
  intros HV Hbuf. pose proof (lookup_lt_Some _ _ _ HV).
  destruct (lookup_lt_is_Some_2 buf t Hbuf) as [c Hc].
  rewrite insert_app_r_alt by (rewrite length_take; lia).
  rewrite length_take, (drop_S buf c t Hc), (take_S_r V t v HV).
  replace (t - t `min` length V)%nat with 0%nat by lia. simpl.
  by rewrite <- app_assoc.
Qed.

Lemma entry_sgemm_TN_result alpha (weights input : list (list F)) (i j : nat) w x :
  weights !! i = Some w -> input !! j = Some x ->
  entry (sgemm_TN_result alpha weights input) j i
  = Some (fmul alpha (dot_product w x)).
Proof.
  intros Hw Hx. unfold entry, sgemm_TN_result.
  rewrite list_lookup_fmap, Hx. simpl. by rewrite list_lookup_fmap, Hw.
Qed.

Lemma sgemm_TN_result_rows alpha (weights input : list (list F)) :
  Forall (fun r => length r = length weights) (sgemm_TN_result alpha weights input).
Proof.
  unfold sgemm_TN_result. apply Forall_fmap, Forall_true. intros x. simpl.
  by rewrite length_map.
Qed.

Section SgemmCall.
Variables (h0 : dmem F) (A B C : nat) (N M K : nat).
Variables (weights input : list (list F)) (alpha : F) (buf : list (option F)).
Hypothesis HA : h0 !! A = Some (Some <$> concat weights).
Hypothesis HB : h0 !! B = Some (Some <$> concat input).
Hypothesis HW : is_matrix N K weights.
Hypothesis HX : is_matrix M K input.
Hypothesis Hzero : feqb (fzero : F) fzero = true.
Hypothesis Hbuf : length buf = (M * N)%nat.

Local Abbreviation V := (sgemm_TN_cells alpha weights input).

Lemma sgemm_V_length : length V = (M * N)%nat.
Proof.
  unfold V. rewrite length_fmap, (length_concat_rect N).
  - unfold sgemm_TN_result. rewrite length_map. by destruct HX as [-> _].
  - destruct HW as [<- _]. apply sgemm_TN_result_rows.
Qed.

Lemma sgemm_V_lookup (i j : nat) :
  (i < N)%nat -> (j < M)%nat ->
  exists w x, weights !! i = Some w /\ input !! j = Some x
    /\ V !! (j * N + i)%nat = Some (Some (fmul alpha (dot_product w x))).
Proof.
  intros Hi Hj.
  destruct (is_matrix_lookup N K weights i HW Hi) as (w & Hw & _).
  destruct (is_matrix_lookup M K input j HX Hj) as (x & Hx & _).
  exists w, x. split; [done|]. split; [done|].
  unfold V. rewrite list_lookup_fmap.
  rewrite (lookup_concat_rect N); [| |done].
  - by rewrite (entry_sgemm_TN_result alpha weights input i j w x).
  - destruct HW as [<- _]. apply sgemm_TN_result_rows.
Qed.

Lemma gemm_entry_TN h (i j : nat) cur :
  (i < N)%nat -> (j < M)%nat ->
  h !! C = Some cur -> length cur = (M * N)%nat ->
  exists v, V !! (j * N + i)%nat = Some (Some v)
    /\ gemm_entry h0 CUBLAS_OP_T CUBLAS_OP_N (Z.of_nat K) alpha A (Z.of_nat K)
         B (Z.of_nat K) fzero C (Z.of_nat N) (Z.of_nat j) (Z.of_nat i) h
       = Ok (<[C := <[(j * N + i)%nat := Some v]> cur]> h).
Proof.
  intros Hi Hj HC Hcur.
  destruct (sgemm_V_lookup i j Hi Hj) as (w & x & Hw & Hx & HV).
  exists (fmul alpha (dot_product w x)). split; [done|].
  unfold gemm_entry.
  rewrite (gemm_dot_TN h0 A B N M K weights input i j w x)
    by (done || apply HW || apply HX).
  simpl. rewrite Hzero. simpl.
  replace (Z.of_nat i + Z.of_nat j * Z.of_nat N) with (Z.of_nat (j * N + i)) by lia.
  apply dev_store_Ok; [done|]. nia.
Qed.

Lemma gemm_inner_loop h (j : nat) :
  (j < M)%nat -> h !! C = Some buf ->
  forall i : nat, (i <= N)%nat ->
  for_loop (Z.of_nat i)
    (gemm_entry h0 CUBLAS_OP_T CUBLAS_OP_N (Z.of_nat K) alpha A (Z.of_nat K)
       B (Z.of_nat K) fzero C (Z.of_nat N) (Z.of_nat j))
    (<[C := take (j * N) V ++ drop (j * N) buf]> h)
  = Ok (<[C := take (j * N + i) V ++ drop (j * N + i) buf]> h).
Proof.
  intros Hj HC. induction i as [|i IH]; intros Hi.
  - by rewrite Nat.add_0_r.
  - rewrite for_loop_S, IH by lia. simpl.
    destruct (gemm_entry_TN (<[C := take (j * N + i) V ++ drop (j * N + i) buf]> h)
                i j (take (j * N + i) V ++ drop (j * N + i) buf))
      as (v & HV & ->); [lia|done|by rewrite lookup_insert_eq| |].
    + rewrite length_app, length_take, length_drop, sgemm_V_length. nia.
    + rewrite insert_insert_eq, insert_take_drop by (done || nia).
      by replace (j * N + S i)%nat with (S (j * N + i)) by lia.
Qed.

Lemma gemm_outer_loop h :
  h !! C = Some buf ->
  forall j : nat, (j <= M)%nat ->
  for_loop (Z.of_nat j) (fun j' =>
    for_loop (Z.of_nat N)
      (gemm_entry h0 CUBLAS_OP_T CUBLAS_OP_N (Z.of_nat K) alpha A (Z.of_nat K)
         B (Z.of_nat K) fzero C (Z.of_nat N) j')) h
  = Ok (<[C := take (j * N) V ++ drop (j * N) buf]> h).
Proof.
  intros HC. induction j as [|j IH]; intros Hj.
  - rewrite for_loop_0. simpl. by rewrite insert_id.
  - rewrite for_loop_S, IH by lia. simpl.
    rewrite (gemm_inner_loop h j) by (done || lia).
    by replace (j * N + N)%nat with (S j * N)%nat by lia.
Qed.

(** The call of lines 113-121 fills [d_output] with the product. *)
Lemma cublasSgemm_TN handle :
  (0 < N)%nat -> (0 < K)%nat ->
  h0 !! C = Some buf ->
  cublasSgemm handle CUBLAS_OP_T CUBLAS_OP_N (Z.of_nat N) (Z.of_nat M) (Z.of_nat K)
    alpha A (Z.of_nat K) B (Z.of_nat K) fzero C (Z.of_nat N) h0
  = Ok (<[C := V]> h0).
Proof.
  intros HN HK HC. unfold cublasSgemm, gemm_valid.
  repeat match goal with
         | |- context [?a <=? ?b] => destruct (Z.leb_spec a b); [|lia]
         end. simpl.
  rewrite (gemm_outer_loop h0 HC M) by lia.
  pose proof sgemm_V_length.
  by rewrite take_ge, drop_ge, app_nil_r by lia.
Qed.

End SgemmCall.

End SgemmProofs.

(** ** The runtime *)

Section RuntimeProofs.
Context {F : Type} `{FloatOps F}.
Implicit Types st : state F.

Lemma dev_bind_Done {A B} (m : dev F A) (k : A -> dev F B) st a st1 :
  m st = Done a st1 -> (m ≫= k) st = k a st1.
Proof. intros Hm. unfold mbind, dev_bind. by rewrite Hm. Qed.

Lemma dev_bind_Abort {A B} (m : dev F A) (k : A -> dev F B) st f t :
  m st = Abort f t -> (m ≫= k) st = Abort f t.
Proof. intros Hm. unfold mbind, dev_bind. by rewrite Hm. Qed.

Lemma dev_bind_inv {A B} (m : dev F A) (k : A -> dev F B) st b st' :
  (m ≫= k) st = Done b st' ->
  exists a st1, m st = Done a st1 /\ k a st1 = Done b st'.
Proof.
  unfold mbind, dev_bind. destruct (m st) as [a st1|f t]; [|done]. eauto.
Qed.

Lemma lift_Ok {A} (a : A) st : lift (F:=F) (Ok a) st = Done a st.
Proof. reflexivity. Qed.

Lemma lift_inv {A} (r : res A) st a st' :
  lift r st = Done a st' -> r = Ok a /\ st' = st.
Proof. unfold lift. destruct r; [|done]. by intros [= -> ->]. Qed.

Lemma cudaMallocAsync_run n st :
  cudaMallocAsync n st
  = Done (fresh (dom (device st)))
      (State (<[fresh (dom (device st)) := replicate (Z.to_nat n) None]> (device st))
             (hostmem st) (inflight st)
             (trace st ++ [EvMalloc (fresh (dom (device st))) n])).
Proof. reflexivity. Qed.

Lemma cudaFreeAsync_run p st buf :
  device st !! p = Some buf ->
  cudaFreeAsync p st
  = Done tt (State (delete p (device st)) (hostmem st) (inflight st)
                   (trace st ++ [EvFree p])).
Proof.
  intros Hp. unfold cudaFreeAsync, mbind, dev_bind. simpl. by rewrite Hp.
Qed.

Lemma cudaFreeAsync_inv p st u st' :
  cudaFreeAsync p st = Done u st' ->
  is_Some (device st !! p)
  /\ st' = State (delete p (device st)) (hostmem st) (inflight st)
                 (trace st ++ [EvFree p]).
Proof.
  unfold cudaFreeAsync, mbind, dev_bind. simpl.
  destruct (device st !! p) as [buf|]; simpl; [|done].
  intros [= <- <-]. eauto.
Qed.

Lemma cudaMemcpyAsync_H2D_run dst (src : list F) (n : nat) st buf :
  device st !! dst = Some buf ->
  (n <= length src)%nat -> (n <= length buf)%nat ->
  cudaMemcpyAsync_H2D dst src (Z.of_nat n) st
  = Done tt (State (<[dst := (Some <$> take n src) ++ drop n buf]> (device st))
                   (hostmem st) (inflight st)
                   (trace st ++ [EvMemcpyH2D dst (Z.of_nat n)])).
Proof.
  intros Hp Hsrc Hbuf. unfold cudaMemcpyAsync_H2D, mbind, dev_bind. simpl.
  rewrite Hp.
  destruct (Z.ltb_spec (Z.of_nat (length src)) (Z.of_nat n)); [lia|].
  destruct (Z.ltb_spec (Z.of_nat (length buf)) (Z.of_nat n)); [lia|].
  simpl. by rewrite Nat2Z.id.
Qed.

Lemma cudaMemcpyAsync_H2D_inv dst (src : list F) n st u st' :
  cudaMemcpyAsync_H2D dst src n st = Done u st' ->
  exists buf buf',
    device st !! dst = Some buf
    /\ st' = State (<[dst := buf']> (device st)) (hostmem st) (inflight st)
                   (trace st ++ [EvMemcpyH2D dst n]).
Proof.
  unfold cudaMemcpyAsync_H2D, mbind, dev_bind. simpl.
  destruct (device st !! dst) as [buf|]; simpl; [|done].
  destruct (_ || _); simpl; [done|]. intros [= <- <-]. eauto.
Qed.

Lemma cudaStreamSynchronize_run st :
  cudaStreamSynchronize st
  = Done tt (State (device st) (foldl land (hostmem st) (inflight st)) []
                   (trace st ++ [EvSync])).
Proof. reflexivity. Qed.

Lemma host_vector_run (v : list F) st :
  host_vector v st
  = Done (fresh (dom (hostmem st)))
      (State (device st) (<[fresh (dom (hostmem st)) := v]> (hostmem st))
             (inflight st) (trace st)).
Proof. reflexivity. Qed.

Lemma host_vector_destroy_run hb st :
  host_vector_destroy hb st
  = Done tt (State (device st) (delete hb (hostmem st)) (inflight st) (trace st)).
Proof. reflexivity. Qed.

Lemma run_cublasSgemm_inv handle ta tb m n k (alpha : F) A lda B ldb beta C ldc
  st u st' :
  run_cublasSgemm handle ta tb m n k alpha A lda B ldb beta C ldc st = Done u st' ->
  exists h',
    cublasSgemm handle ta tb m n k alpha A lda B ldb beta C ldc (device st) = Ok h'
    /\ st' = State h' (hostmem st) (inflight st) (trace st ++ [EvSgemm A B C]).
Proof.
  unfold run_cublasSgemm, mbind, dev_bind. simpl.
  destruct (cublasSgemm _ _ _ _ _ _ _ _ _ _ _ _ _ _ _) as [h'|]; simpl; [|done].
  intros [= <- <-]. eauto.
Qed.

Lemma run_cublasSgemm_run handle ta tb m n k (alpha : F) A lda B ldb beta C ldc
  st h' :
  cublasSgemm handle ta tb m n k alpha A lda B ldb beta C ldc (device st) = Ok h' ->
  run_cublasSgemm handle ta tb m n k alpha A lda B ldb beta C ldc st
  = Done tt (State h' (hostmem st) (inflight st) (trace st ++ [EvSgemm A B C])).
Proof. intros Hg. unfold run_cublasSgemm, mbind, dev_bind. simpl. by rewrite Hg. Qed.

Lemma run_addBiasEfficient_inv gridDim blockDim output bias batchSize outputDim
  st u st' :
  run_addBiasEfficient gridDim blockDim output bias batchSize outputDim st
  = Done u st' ->
  exists h',
    launch_addBiasEfficient gridDim blockDim output bias batchSize outputDim
      (device st) = Ok h'
    /\ st' = State h' (hostmem st) (inflight st) (trace st ++ [EvLaunch output bias]).
Proof.
  unfold run_addBiasEfficient, mbind, dev_bind. simpl.
  destruct (launch_addBiasEfficient _ _ _ _ _ _ _) as [h'|]; simpl; [|done].
  intros [= <- <-]. eauto.
Qed.

Lemma run_addBiasEfficient_run gridDim blockDim output bias batchSize outputDim
  st h' :
  launch_addBiasEfficient gridDim blockDim output bias batchSize outputDim
    (device st) = Ok h' ->
  run_addBiasEfficient gridDim blockDim output bias batchSize outputDim st
  = Done tt (State h' (hostmem st) (inflight st) (trace st ++ [EvLaunch output bias])).
Proof.
  intros Hl. unfold run_addBiasEfficient, mbind, dev_bind. simpl. by rewrite Hl.
Qed.

Lemma mapM_id_Some {A} (l : list A) : mapM id (Some <$> l) = Some l.
Proof. apply mapM_Some_2. induction l; simpl; constructor; auto. Qed.

Lemma read_cells_Ok (vals : list F) (n : nat) :
  (n <= length vals)%nat ->
  read_cells (Some <$> vals) (Z.of_nat n) = Ok (take n vals).
Proof.
  intros Hn. unfold read_cells. rewrite length_fmap.
  destruct (Z.ltb_spec (Z.of_nat (length vals)) (Z.of_nat n)); [lia|].
  by rewrite Nat2Z.id, <- fmap_take, mapM_id_Some.
Qed.

Lemma cudaMemcpyAsync_D2H_run dst src (vals old : list F) st :
  device st !! src = Some (Some <$> vals) ->
  hostmem st !! dst = Some old ->
  (length vals <= length old)%nat ->
  cudaMemcpyAsync_D2H dst src (Z.of_nat (length vals)) st
  = Done tt (State (device st) (hostmem st) (inflight st ++ [(dst, vals)])
                   (trace st ++ [EvMemcpyD2H dst src (Z.of_nat (length vals))])).
Proof.
  intros Hsrc Hdst Hlen. unfold cudaMemcpyAsync_D2H, mbind, dev_bind. simpl.
  rewrite Hsrc, read_cells_Ok, firstn_all by lia. simpl.
  unfold enqueue_copy. simpl. rewrite Hdst.
  destruct (Nat.ltb_spec (length old) (length vals)); [lia|done].
Qed.

Lemma cudaMemcpyAsync_D2H_inv dst src n st u st' :
  cudaMemcpyAsync_D2H dst src n st = Done u st' ->
  exists vs,
    st' = State (device st) (hostmem st) (inflight st ++ [(dst, vs)])
                (trace st ++ [EvMemcpyD2H dst src n]).
Proof.
  unfold cudaMemcpyAsync_D2H, mbind, dev_bind. simpl.
  destruct (device st !! src) as [buf|]; simpl; [|done].
  destruct (read_cells buf n) as [vs|]; simpl; [|done].
  unfold enqueue_copy. simpl.
  destruct (hostmem st !! dst) as [old|]; [|done].
  destruct (_ <? _)%nat; [done|]. intros [= <- <-]. eauto.
Qed.

Lemma host_read_range_inv hb first last st v st' :
  host_read_range hb first last st = Done v st' ->
  st' = State (device st) (hostmem st) (inflight st) (trace st ++ [EvHostRead hb])
  /\ hb ∉ (inflight st).*1.
Proof.
  unfold host_read_range, mbind, dev_bind. simpl. unfold host_slice. simpl.
  case_bool_decide as Hin; [done|].
  destruct (hostmem st !! hb) as [w|]; [|done].
  destruct (_ || _); [done|]. by intros [= <- <-].
Qed.

Lemma host_read_range_run hb (v : list F) (first count : nat) st :
  inflight st = [] ->
  hostmem st !! hb = Some v ->
  (first + count <= length v)%nat ->
  host_read_range hb (Z.of_nat first) (Z.of_nat (first + count)) st
  = Done (take count (drop first v))
      (State (device st) (hostmem st) (inflight st) (trace st ++ [EvHostRead hb])).
Proof.
  intros Hidle Hhb Hlen. unfold host_read_range, mbind, dev_bind. simpl.
  unfold host_slice. simpl. rewrite Hidle, bool_decide_eq_false_2
    by (simpl; apply not_elem_of_nil).
  rewrite Hhb.
  destruct (Z.ltb_spec (Z.of_nat first) 0); [lia|].
  destruct (Z.ltb_spec (Z.of_nat (first + count)) (Z.of_nat first)); [lia|].
  destruct (Z.ltb_spec (Z.of_nat (length v)) (Z.of_nat (first + count))); [lia|].
  simpl. rewrite Nat2Z.id.
  by replace (Z.to_nat (Z.of_nat (first + count) - Z.of_nat first)) with count by lia.
Qed.

Lemma dev_foldM_app {St I} (body : I -> St -> dev F St) l1 l2 s st :
  dev_foldM body (l1 ++ l2) s st
  = match dev_foldM body l1 s st with
    | Done s' st' => dev_foldM body l2 s' st'
    | Abort f t => Abort f t
    end.
Proof.
  revert s st. induction l1 as [|i l1 IH]; intros s st; simpl; [done|].
  unfold mbind, dev_bind. destruct (body i s st) as [s1 st1|f t]; [apply IH|done].
Qed.

(** The reads of the reassembly, whatever the data. *)
Lemma reassemble_loop_inv hb outputDim l (acc : list (list F)) st out st' :
  dev_foldM (fun i output =>
      first ← lift (int_arith (i * outputDim));
      last ← lift (int_arith ((i + 1) * outputDim));
      row ← host_read_range hb first last;
      mret (<[Z.to_nat i := row]> output)) l acc st
  = Done out st' ->
  st' = State (device st) (hostmem st) (inflight st)
              (trace st ++ replicate (length l) (EvHostRead hb))
  /\ (l ≠ [] -> hb ∉ (inflight st).*1).
Proof.
  revert st acc. induction l as [|i l IH]; intros st acc; simpl.
  - intros [= <- <-]. destruct st. simpl. by rewrite app_nil_r.
  - intros Hrun. apply dev_bind_inv in Hrun as (acc1 & st1 & Hstep & Hrun).
    apply dev_bind_inv in Hstep as (first & st2 & Hfirst & Hstep).
    apply lift_inv in Hfirst as [_ ->].
    apply dev_bind_inv in Hstep as (last & st2 & Hlast & Hstep).
    apply lift_inv in Hlast as [_ ->].
    apply dev_bind_inv in Hstep as (row & st2 & Hread & Hstep).
    apply host_read_range_inv in Hread as [-> Hnotin].
    injection Hstep as <- <-.
    apply IH in Hrun as [-> _]. simpl.
    split; [|done]. by rewrite <- app_assoc.
Qed.

Lemma reassemble_inv hb batchSize outputDim st out st' :
  reassemble hb batchSize outputDim st = Done out st' ->
  st' = State (device st) (hostmem st) (inflight st)
              (trace st ++ replicate (Z.to_nat batchSize) (EvHostRead hb))
  /\ (0 < batchSize -> hb ∉ (inflight st).*1).
Proof.
  unfold reassemble. intros [-> Hne]%reassemble_loop_inv.
  rewrite length_seqZ. split; [done|]. intros Hpos. apply Hne.
  by rewrite seqZ_cons by lia.
Qed.

Lemma take_drop_concat_rect {A} (N : nat) (rows : list (list A)) (i : nat) row :
  Forall (fun r => length r = N) rows -> rows !! i = Some row ->
  take N (drop (i * N) (concat rows)) = row.
Proof.
  intros Hrows Hrow.
  assert (length row = N) as Hlen
    by apply (Forall_lookup_1 (fun r => length r = N) rows i row Hrows Hrow).
  apply list_eq. intros k. destruct (decide (k < N)%nat) as [Hk|Hk].
  - rewrite lookup_take_lt, lookup_drop, (lookup_concat_rect N) by done.
    unfold entry. by rewrite Hrow.
  - rewrite lookup_take_ge by lia. symmetry. apply lookup_ge_None_2. lia.
Qed.

Lemma reassemble_step_run hb (rows : list (list F)) (N : nat) (i : nat) row
  (acc : list (list F)) st :
  Forall (fun r => length r = N) rows ->
  rows !! i = Some row ->
  hostmem st !! hb = Some (concat rows) ->
  inflight st = [] ->
  Z.of_nat (length rows) * Z.of_nat N <= INT_MAX ->
  (first ← lift (int_arith (Z.of_nat i * Z.of_nat N));
   last ← lift (int_arith ((Z.of_nat i + 1) * Z.of_nat N));
   row ← host_read_range hb first last;
   mret (<[Z.to_nat (Z.of_nat i) := row]> acc)) st
  = Done (<[i := row]> acc)
      (State (device st) (hostmem st) (inflight st) (trace st ++ [EvHostRead hb])).
Proof.
  intros Hrows Hrow Hhb Hidle Hmax. pose proof (lookup_lt_Some _ _ _ Hrow).
  rewrite (dev_bind_Done _ _ st (Z.of_nat (i * N)) st); last first.
  { rewrite int_arith_Ok by (unfold INT_MIN; nia). rewrite lift_Ok. f_equal. lia. }
  rewrite (dev_bind_Done _ _ st (Z.of_nat (i * N + N)) st); last first.
  { rewrite int_arith_Ok by (unfold INT_MIN; nia). rewrite lift_Ok. f_equal. lia. }
  erewrite dev_bind_Done; last first.
  { apply (host_read_range_run hb (concat rows) (i * N) N); [done..|].
    rewrite (length_concat_rect N) by done. nia. }
  rewrite (take_drop_concat_rect N rows i row) by done.
  by rewrite Nat2Z.id.
Qed.

(** The reassembly of a complete transfer gives back the matrix. *)
Lemma reassemble_run hb (rows : list (list F)) (M N : nat) st :
  is_matrix M N rows ->
  hostmem st !! hb = Some (concat rows) ->
  inflight st = [] ->
  Z.of_nat M * Z.of_nat N <= INT_MAX ->
  reassemble hb (Z.of_nat M) (Z.of_nat N) st
  = Done rows (State (device st) (hostmem st) (inflight st)
                     (trace st ++ replicate M (EvHostRead hb))).
Proof.
  intros [HM Hrows] Hhb Hidle Hmax. unfold reassemble. rewrite Nat2Z.id.
  assert (forall i : nat, (i <= M)%nat ->
    dev_foldM (fun i output =>
        first ← lift (int_arith (i * Z.of_nat N));
        last ← lift (int_arith ((i + 1) * Z.of_nat N));
        row ← host_read_range hb first last;
        mret (<[Z.to_nat i := row]> output))
      (seqZ 0 (Z.of_nat i)) (replicate M []) st
    = Done (take i rows ++ replicate (M - i) [])
        (State (device st) (hostmem st) (inflight st)
               (trace st ++ replicate i (EvHostRead hb)))) as Hloop.
  { induction i as [|i IH]; intros Hi.
    - simpl. rewrite Nat.sub_0_r, app_nil_r. by destruct st.
    - rewrite seqZ_S, dev_foldM_app, IH by lia. simpl. rewrite Z.add_0_l.
      destruct (lookup_lt_is_Some_2 rows i) as [row Hrow]; [lia|].
      erewrite dev_bind_Done; last first.
      { apply (reassemble_step_run hb rows N i row); try done. by rewrite HM. }
      unfold mret, dev_ret. simpl. f_equal.
      + rewrite (take_S_r rows i row) by done.
        rewrite insert_app_r_alt by (rewrite length_take; lia).
        rewrite length_take, <- app_assoc.
        replace (i - i `min` length rows)%nat with 0%nat by lia.
        replace (M - i)%nat with (S (M - S i)) by lia. done.
      + by rewrite <- app_assoc, <- replicate_S_end. }
  rewrite Hloop by lia. by rewrite Nat.sub_diag, take_ge, app_nil_r by lia.
Qed.

(** *** What the device routines leave alone *)

Lemma foldM_rel {St I} (R : St -> St -> Prop) (body : I -> St -> res St) l s s' :
  (forall s, R s s) ->
  (forall s1 s2 s3, R s1 s2 -> R s2 s3 -> R s1 s3) ->
  (forall i s s', body i s = Ok s' -> R s s') ->
  foldM body l s = Ok s' -> R s s'.
Proof.
  intros Hrefl Htrans Hbody. revert s. induction l as [|i l IH]; intros s; simpl.
  - by intros [= <-].
  - destruct (body i s) as [s1|] eqn:Hstep; simpl; [|done].
    intros Hrest. eapply Htrans; [by eapply Hbody|by apply IH].
Qed.

Lemma dev_store_others (h h' : dmem F) p i v q :
  dev_store h p i v = Ok h' -> q ≠ p -> h' !! q = h !! q.
Proof.
  intros (buf & _ & _ & _ & ->)%dev_store_inv Hq. by rewrite lookup_insert_ne.
Qed.

Lemma cublasSgemm_others handle ta tb m n k (alpha : F) A lda B ldb beta C ldc
  (h h' : dmem F) q :
  cublasSgemm handle ta tb m n k alpha A lda B ldb beta C ldc h = Ok h' ->
  q ≠ C -> h' !! q = h !! q.
Proof.
  intros Hrun Hq. unfold cublasSgemm in Hrun.
  destruct (gemm_valid _ _ _ _ _ _ _ _); [|by injection Hrun as <-].
  revert Hrun. unfold for_loop at 1.
  apply (foldM_rel (fun h1 h2 : dmem F => h2 !! q = h1 !! q)); [done|congruence|].
  intros j h1 h2. unfold for_loop.
  apply (foldM_rel (fun h1 h2 : dmem F => h2 !! q = h1 !! q)); [done|congruence|].
  intros i h3 h4. unfold gemm_entry.
  destruct (gemm_dot _ _ _ _ _ _ _ _ _ _) as [acc|]; simpl; [|done].
  destruct (if feqb beta fzero then _ else _) as [v|]; simpl; [|done].
  intros Hst. by apply (dev_store_others _ _ _ _ _ _ Hst).
Qed.

Lemma launch_addBiasEfficient_others gridDim blockDim output bias batchSize
  outputDim (h h' : dmem F) q :
  launch_addBiasEfficient gridDim blockDim output bias batchSize outputDim h = Ok h' ->
  q ≠ output -> h' !! q = h !! q.
Proof.
  intros Hrun Hq. revert Hrun. unfold launch_addBiasEfficient, launch_sched.
  apply (foldM_rel (fun h1 h2 : dmem F => h2 !! q = h1 !! q)); [done|congruence|].
  intros [b t] h1 h2. rewrite addBiasEfficient_unfold. unfold addBiasEfficient_body.
  destruct (_ && _); [|by intros [= <-]].
  destruct (int_arith _) as [scaled|]; simpl; [|done].
  destruct (int_arith _) as [idx|]; simpl; [|done].
  destruct (dev_load h1 output idx) as [o|]; simpl; [|done].
  destruct (dev_load h1 bias _) as [b'|]; simpl; [|done].
  intros Hst. by apply (dev_store_others _ _ _ _ _ _ Hst).
Qed.

(** *** Every complete call of [linearCUBLAS] *)

Lemma fresh_lookup_None (h : dmem F) : h !! fresh (dom h) = None.
Proof. apply not_elem_of_dom, is_fresh. Qed.

Lemma linearCUBLAS_inv input weights bias handle st out st' :
  linearCUBLAS input weights bias handle st = Done out st' ->
  exists batchSize inputDim outputDim d_input d_weights d_bias d_output,
    linearCUBLAS_dims input weights = Ok (batchSize, inputDim, outputDim)
    /\ device st !! d_input = None /\ device st !! d_weights = None
    /\ device st !! d_bias = None /\ device st !! d_output = None
    /\ NoDup [d_input; d_weights; d_bias; d_output]
    /\ device st' = device st
    /\ trace st' = trace st ++ linearCUBLAS_trace d_input d_weights d_bias d_output
                                (fresh (dom (hostmem st))) batchSize inputDim
                                outputDim (Z.of_nat (length bias)).
Proof.
  unfold linearCUBLAS. intros Hrun.
  apply dev_bind_inv in Hrun as ([[batchSize inputDim] outputDim] & st1 & Hl & Hrun).
  apply lift_inv in Hl as [Hdims ->].
  apply dev_bind_inv in Hrun as (inputSize & st1 & Hl & Hrun).
  apply lift_inv in Hl as [[-> _]%int_arith_inv ->].
  apply dev_bind_inv in Hrun as (weightSize & st1 & Hl & Hrun).
  apply lift_inv in Hl as [[-> _]%int_arith_inv ->].
  apply dev_bind_inv in Hrun as (outputSize & st1 & Hl & Hrun).
  apply lift_inv in Hl as [[-> _]%int_arith_inv ->].
  apply dev_bind_inv in Hrun as (flatOutput & st1 & Hl & Hrun).
  rewrite host_vector_run in Hl. injection Hl as <- <-.
  set (h0 := device st) in *.
  apply dev_bind_inv in Hrun as (d_input & st1 & Hl & Hrun).
  rewrite cudaMallocAsync_run in Hl. injection Hl as <- <-. simpl in Hrun.
  set (d_input := fresh (dom h0)) in *.
  set (h1 := <[d_input := _]> h0) in *.
  apply dev_bind_inv in Hrun as (d_weights & st1 & Hl & Hrun).
  rewrite cudaMallocAsync_run in Hl. injection Hl as <- <-. simpl in Hrun.
  set (d_weights := fresh (dom h1)) in *.
  set (h2 := <[d_weights := _]> h1) in *.
  apply dev_bind_inv in Hrun as (d_bias & st1 & Hl & Hrun).
  rewrite cudaMallocAsync_run in Hl. injection Hl as <- <-. simpl in Hrun.
  set (d_bias := fresh (dom h2)) in *.
  set (h3 := <[d_bias := _]> h2) in *.
  apply dev_bind_inv in Hrun as (d_output & st1 & Hl & Hrun).
  rewrite cudaMallocAsync_run in Hl. injection Hl as <- <-. simpl in Hrun.
  set (d_output := fresh (dom h3)) in *.
  set (h4 := <[d_output := _]> h3) in *.
  assert (h0 !! d_input = None) as Hf1 by apply fresh_lookup_None.
  assert (h1 !! d_weights = None) as Hf2 by apply fresh_lookup_None.
  assert (h2 !! d_bias = None) as Hf3 by apply fresh_lookup_None.
  assert (h3 !! d_output = None) as Hf4 by apply fresh_lookup_None.
  assert (d_weights ≠ d_input) as Hn21.
  { intros Heq. rewrite Heq in Hf2. unfold h1 in Hf2. by rewrite lookup_insert_eq in Hf2. }
  assert (d_bias ≠ d_weights) as Hn32.
  { intros Heq. rewrite Heq in Hf3. unfold h2 in Hf3. by rewrite lookup_insert_eq in Hf3. }
  assert (d_bias ≠ d_input) as Hn31.
  { intros Heq. rewrite Heq in Hf3. unfold h2, h1 in Hf3.
    by rewrite lookup_insert_ne, lookup_insert_eq in Hf3. }
  assert (d_output ≠ d_bias) as Hn43.
  { intros Heq. rewrite Heq in Hf4. unfold h3 in Hf4. by rewrite lookup_insert_eq in Hf4. }
  assert (d_output ≠ d_weights) as Hn42.
  { intros Heq. rewrite Heq in Hf4. unfold h3, h2 in Hf4.
    by rewrite lookup_insert_ne, lookup_insert_eq in Hf4. }
  assert (d_output ≠ d_input) as Hn41.
  { intros Heq. rewrite Heq in Hf4. unfold h3, h2, h1 in Hf4.
    rewrite lookup_insert_ne in Hf4 by done.
    rewrite lookup_insert_ne in Hf4 by done.
    by rewrite lookup_insert_eq in Hf4. }
  apply dev_bind_inv in Hrun as (u & st1 & Hl & Hrun).
  apply cudaMemcpyAsync_H2D_inv in Hl as (b1 & b1' & _ & ->). simpl in Hrun.
  apply dev_bind_inv in Hrun as (u2 & st1 & Hl & Hrun).
  apply cudaMemcpyAsync_H2D_inv in Hl as (b2 & b2' & _ & ->). simpl in Hrun.
  apply dev_bind_inv in Hrun as (u3 & st1 & Hl & Hrun).
  apply cudaMemcpyAsync_H2D_inv in Hl as (b3 & b3' & _ & ->). simpl in Hrun.
  apply dev_bind_inv in Hrun as (u4 & st1 & Hl & Hrun).
  apply run_cublasSgemm_inv in Hl as (h8 & Hgemm & ->). simpl in Hrun, Hgemm.
  apply dev_bind_inv in Hrun as (bx & st1 & Hl & Hrun).
  apply lift_inv in Hl as [[-> _]%int_arith_inv ->].
  apply dev_bind_inv in Hrun as (by_ & st1 & Hl & Hrun).
  apply lift_inv in Hl as [[-> _]%int_arith_inv ->].
  apply dev_bind_inv in Hrun as (u5 & st1 & Hl & Hrun).
  apply run_addBiasEfficient_inv in Hl as (h9 & Hlaunch & ->). simpl in Hrun, Hlaunch.
  apply dev_bind_inv in Hrun as (u6 & st1 & Hl & Hrun).
  apply cudaMemcpyAsync_D2H_inv in Hl as (vs & ->). simpl in Hrun.
  apply dev_bind_inv in Hrun as (u7 & st1 & Hl & Hrun).
  rewrite cudaStreamSynchronize_run in Hl. injection Hl as <- <-. simpl in Hrun.
  apply dev_bind_inv in Hrun as (output & st1 & Hl & Hrun).
  apply reassemble_inv in Hl as [-> _]. simpl in Hrun.
  apply dev_bind_inv in Hrun as (u8 & st1 & Hl & Hrun).
  apply cudaFreeAsync_inv in Hl as [_ ->]. simpl in Hrun.
  apply dev_bind_inv in Hrun as (u9 & st1 & Hl & Hrun).
  apply cudaFreeAsync_inv in Hl as [_ ->]. simpl in Hrun.
  apply dev_bind_inv in Hrun as (u10 & st1 & Hl & Hrun).
  apply cudaFreeAsync_inv in Hl as [_ ->]. simpl in Hrun.
  apply dev_bind_inv in Hrun as (u11 & st1 & Hl & Hrun).
  apply cudaFreeAsync_inv in Hl as [_ ->]. simpl in Hrun.
  apply dev_bind_inv in Hrun as (u12 & st1 & Hl & Hrun).
  rewrite host_vector_destroy_run in Hl. injection Hl as <- <-. simpl in Hrun.
  injection Hrun as <- <-. simpl.
  assert (h0 !! d_weights = None) as Hg2.
  { unfold h1 in Hf2. by rewrite lookup_insert_ne in Hf2 by done. }
  assert (h0 !! d_bias = None) as Hg3.
  { unfold h2, h1 in Hf3. by rewrite !lookup_insert_ne in Hf3 by done. }
  assert (h0 !! d_output = None) as Hg4.
  { unfold h3, h2, h1 in Hf4. by rewrite !lookup_insert_ne in Hf4 by done. }
  exists batchSize, inputDim, outputDim, d_input, d_weights, d_bias, d_output.
  split; [done|]. do 4 (split; [done|]). split.
  { repeat constructor; rewrite ?elem_of_cons, ?elem_of_nil; intuition congruence. }
  split.
  - apply map_eq. intros q.
    destruct (decide (q = d_output)) as [->|Hq4]; [by rewrite lookup_delete_eq|].
    rewrite lookup_delete_ne by done.
    destruct (decide (q = d_bias)) as [->|Hq3]; [by rewrite lookup_delete_eq|].
    rewrite lookup_delete_ne by done.
    destruct (decide (q = d_weights)) as [->|Hq2]; [by rewrite lookup_delete_eq|].
    rewrite lookup_delete_ne by done.
    destruct (decide (q = d_input)) as [->|Hq1]; [by rewrite lookup_delete_eq|].
    rewrite lookup_delete_ne by done.
    rewrite (launch_addBiasEfficient_others _ _ _ _ _ _ _ _ q Hlaunch) by done.
    rewrite (cublasSgemm_others _ _ _ _ _ _ _ _ _ _ _ _ _ _ _ _ q Hgemm) by done.
    unfold h4, h3, h2, h1. by rewrite !lookup_insert_ne by done.
  - unfold linearCUBLAS_trace. by rewrite <- !app_assoc.
Qed.

(** *** Calls that stop at a fault *)

Lemma dev_bind_abort_inv {A B} (m : dev F A) (k : A -> dev F B) st f t :
  (m ≫= k) st = Abort f t ->
  m st = Abort f t \/ exists a st1, m st = Done a st1 /\ k a st1 = Abort f t.
Proof.
  unfold mbind, dev_bind. destruct (m st) as [a st1|f' t'].
  - intros Hk. right. eauto.
  - intros [= -> ->]. by left.
Qed.

Lemma lift_abort {A} (r : res A) st f t :
  lift r st = Abort f t -> r = Fault f /\ t = trace st.
Proof. unfold lift. destruct r; [done|]. by intros [= -> ->]. Qed.

Lemma cudaFreeAsync_abort p st f t :
  cudaFreeAsync p st = Abort f t -> t = trace st ++ [EvFree p].
Proof.
  unfold cudaFreeAsync, mbind, dev_bind. simpl.
  destruct (device st !! p); simpl; [done|]. by intros [= _ <-].
Qed.

Lemma cudaMemcpyAsync_H2D_abort dst (src : list F) n st f t :
  cudaMemcpyAsync_H2D dst src n st = Abort f t ->
  t = trace st ++ [EvMemcpyH2D dst n].
Proof.
  unfold cudaMemcpyAsync_H2D, mbind, dev_bind. simpl.
  destruct (device st !! dst); simpl; [|by intros [= _ <-]].
  destruct (_ || _); simpl; [|done]. by intros [= _ <-].
Qed.

Lemma run_cublasSgemm_abort handle ta tb m n k (alpha : F) A lda B ldb beta C ldc
  st f t :
  run_cublasSgemm handle ta tb m n k alpha A lda B ldb beta C ldc st = Abort f t ->
  t = trace st ++ [EvSgemm A B C].
Proof.
  unfold run_cublasSgemm, mbind, dev_bind. simpl.
  destruct (cublasSgemm _ _ _ _ _ _ _ _ _ _ _ _ _ _ _); simpl; [done|].
  by intros [= _ <-].
Qed.

Lemma run_addBiasEfficient_abort gridDim blockDim output bias batchSize outputDim
  st f t :
  run_addBiasEfficient gridDim blockDim output bias batchSize outputDim st
  = Abort f t ->
  t = trace st ++ [EvLaunch output bias].
Proof.
  unfold run_addBiasEfficient, mbind, dev_bind. simpl.
  destruct (launch_addBiasEfficient _ _ _ _ _ _ _); simpl; [done|].
  by intros [= _ <-].
Qed.

Lemma cudaMemcpyAsync_D2H_abort dst src n st f t :
  cudaMemcpyAsync_D2H dst src n st = Abort f t ->
  t = trace st ++ [EvMemcpyD2H dst src n].
Proof.
  unfold cudaMemcpyAsync_D2H, mbind, dev_bind. simpl.
  destruct (device st !! src) as [buf|]; simpl; [|by intros [= _ <-]].
  destruct (read_cells buf n) as [vs|]; simpl; [|by intros [= _ <-]].
  unfold enqueue_copy. simpl.
  destruct (hostmem st !! dst) as [old|]; [|by intros [= _ <-]].
  destruct (_ <? _)%nat; [|done]. by intros [= _ <-].
Qed.

Lemma host_read_range_abort hb first last st f t :
  host_read_range hb first last st = Abort f t ->
  t = trace st ++ [EvHostRead hb].
Proof.
  unfold host_read_range, mbind, dev_bind. simpl. unfold host_slice. simpl.
  case_bool_decide; [by intros [= _ <-]|].
  destruct (hostmem st !! hb); [|by intros [= _ <-]].
  destruct (_ || _); [|done]. by intros [= _ <-].
Qed.

Lemma reassemble_loop_abort hb outputDim l (acc : list (list F)) st f t :
  dev_foldM (fun i output =>
      first ← lift (int_arith (i * outputDim));
      last ← lift (int_arith ((i + 1) * outputDim));
      row ← host_read_range hb first last;
      mret (<[Z.to_nat i := row]> output)) l acc st
  = Abort f t ->
  exists j, (j <= length l)%nat /\ t = trace st ++ replicate j (EvHostRead hb).
Proof.
  revert st acc. induction l as [|i l IH]; intros st acc; simpl; [done|].
  intros Hrun. apply dev_bind_abort_inv in Hrun as [Hstep|(acc1 & st1 & Hstep & Hrun)].
  - apply dev_bind_abort_inv in Hstep as [Hl|(first & st2 & Hl & Hstep)].
    { apply lift_abort in Hl as [_ ->]. exists 0%nat. simpl.
      split; [lia|by rewrite app_nil_r]. }
    apply lift_inv in Hl as [_ ->].
    apply dev_bind_abort_inv in Hstep as [Hl|(last & st2 & Hl & Hstep)].
    { apply lift_abort in Hl as [_ ->]. exists 0%nat. simpl.
      split; [lia|by rewrite app_nil_r]. }
    apply lift_inv in Hl as [_ ->].
    apply dev_bind_abort_inv in Hstep as [Hl|(row & st2 & Hl & Hstep)]; [|done].
    apply host_read_range_abort in Hl as ->. exists 1%nat. simpl. split; [lia|done].
  - apply dev_bind_inv in Hstep as (first & st2 & Hfirst & Hstep).
    apply lift_inv in Hfirst as [_ ->].
    apply dev_bind_inv in Hstep as (last & st2 & Hlast & Hstep).
    apply lift_inv in Hlast as [_ ->].
    apply dev_bind_inv in Hstep as (row & st2 & Hread & Hstep).
    apply host_read_range_inv in Hread as [-> _].
    injection Hstep as <- <-.
    apply IH in Hrun as (j & Hj & ->). exists (S j). simpl.
    split; [lia|]. by rewrite <- app_assoc.
Qed.

Lemma reassemble_abort hb batchSize outputDim st f t :
  reassemble hb batchSize outputDim st = Abort f t ->
  exists j, (j <= Z.to_nat batchSize)%nat
            /\ t = trace st ++ replicate j (EvHostRead hb).
Proof.
  unfold reassemble. intros (j & Hj & ->)%reassemble_loop_abort.
  rewrite length_seqZ in Hj. eauto.
Qed.

Lemma linearCUBLAS_abort_inv input weights bias handle st f t :
  linearCUBLAS input weights bias handle st = Abort f t ->
  (linearCUBLAS_sizes input weights = Fault f /\ t = trace st)
  \/ exists batchSize inputDim outputDim d_input d_weights d_bias d_output l,
       linearCUBLAS_sizes input weights = Ok (batchSize, inputDim, outputDim)
       /\ t = trace st ++ l
       /\ [EvMalloc d_input (batchSize * inputDim);
            EvMalloc d_weights (outputDim * inputDim);
            EvMalloc d_bias (Z.of_nat (length bias));
            EvMalloc d_output (batchSize * outputDim)] `prefix_of` l
       /\ l `prefix_of` linearCUBLAS_trace d_input d_weights d_bias d_output
                           (fresh (dom (hostmem st))) batchSize inputDim outputDim
                           (Z.of_nat (length bias)).
Proof.
  unfold linearCUBLAS, linearCUBLAS_sizes. intros Hrun.
  apply dev_bind_abort_inv in Hrun
    as [Hl|([[batchSize inputDim] outputDim] & st1 & Hl & Hrun)].
  { apply lift_abort in Hl as [-> ->]. by left. }
  apply lift_inv in Hl as [-> ->]. simpl.
  apply dev_bind_abort_inv in Hrun as [Hl|(inputSize & st1 & Hl & Hrun)].
  { apply lift_abort in Hl as [-> ->]. by left. }
  apply lift_inv in Hl as [Hi ->]. rewrite Hi. simpl.
  apply int_arith_inv in Hi as [-> _].
  apply dev_bind_abort_inv in Hrun as [Hl|(weightSize & st1 & Hl & Hrun)].
  { apply lift_abort in Hl as [-> ->]. by left. }
  apply lift_inv in Hl as [Hi ->]. rewrite Hi. simpl.
  apply int_arith_inv in Hi as [-> _].
  apply dev_bind_abort_inv in Hrun as [Hl|(outputSize & st1 & Hl & Hrun)].
  { apply lift_abort in Hl as [-> ->]. by left. }
  apply lift_inv in Hl as [Hi ->]. rewrite Hi. simpl.
  apply int_arith_inv in Hi as [-> _].
  right. exists batchSize, inputDim, outputDim.
  apply dev_bind_abort_inv in Hrun as [Hl|(flatOutput & st1 & Hl & Hrun)];
    [by rewrite host_vector_run in Hl|].
  rewrite host_vector_run in Hl. injection Hl as <- <-.
  apply dev_bind_abort_inv in Hrun as [Hl|(d_input & st1 & Hl & Hrun)];
    [by rewrite cudaMallocAsync_run in Hl|].
  rewrite cudaMallocAsync_run in Hl. injection Hl as <- <-. simpl in Hrun.
  apply dev_bind_abort_inv in Hrun as [Hl|(d_weights & st1 & Hl & Hrun)];
    [by rewrite cudaMallocAsync_run in Hl|].
  rewrite cudaMallocAsync_run in Hl. injection Hl as <- <-. simpl in Hrun.
  apply dev_bind_abort_inv in Hrun as [Hl|(d_bias & st1 & Hl & Hrun)];
    [by rewrite cudaMallocAsync_run in Hl|].
  rewrite cudaMallocAsync_run in Hl. injection Hl as <- <-. simpl in Hrun.
  apply dev_bind_abort_inv in Hrun as [Hl|(d_output & st1 & Hl & Hrun)];
    [by rewrite cudaMallocAsync_run in Hl|].
  rewrite cudaMallocAsync_run in Hl. injection Hl as <- <-. simpl in Hrun.
  set (p1 := fresh (dom (device st))) in *.
  set (h1 := <[p1 := _]> (device st)) in *.
  set (p2 := fresh (dom h1)) in *.
  set (h2 := <[p2 := _]> h1) in *.
  set (p3 := fresh (dom h2)) in *.
  set (h3 := <[p3 := _]> h2) in *.
  set (p4 := fresh (dom h3)) in *.
  set (h4 := <[p4 := _]> h3) in *.
  set (hb := fresh (dom (hostmem st))) in *.
  exists p1, p2, p3, p4.
  assert (forall new (rest : list event),
    t = ((((trace st ++ [EvMalloc p1 (batchSize * inputDim)])
            ++ [EvMalloc p2 (outputDim * inputDim)])
            ++ [EvMalloc p3 (Z.of_nat (length bias))])
            ++ [EvMalloc p4 (batchSize * outputDim)]) ++ new ->
    [EvMalloc p1 (batchSize * inputDim); EvMalloc p2 (outputDim * inputDim);
     EvMalloc p3 (Z.of_nat (length bias)); EvMalloc p4 (batchSize * outputDim)]
      ++ new ++ rest
    = linearCUBLAS_trace p1 p2 p3 p4 hb batchSize inputDim outputDim
        (Z.of_nat (length bias)) ->
    exists l, Ok (batchSize, inputDim, outputDim)
              = Ok (A:=Z * Z * Z) (batchSize, inputDim, outputDim)
      /\ t = trace st ++ l
      /\ [EvMalloc p1 (batchSize * inputDim); EvMalloc p2 (outputDim * inputDim);
           EvMalloc p3 (Z.of_nat (length bias)); EvMalloc p4 (batchSize * outputDim)]
           `prefix_of` l
      /\ l `prefix_of` linearCUBLAS_trace p1 p2 p3 p4 hb batchSize inputDim
                          outputDim (Z.of_nat (length bias))) as Hgoal.
  { intros new rest -> Hfull. eexists. split; [done|]. split.
    - rewrite <- !app_assoc. simpl. reflexivity.
    - split; [by eexists|]. exists rest. by rewrite <- Hfull. }
  apply dev_bind_abort_inv in Hrun as [Hl|(u & st1 & Hl & Hrun)].
  { apply cudaMemcpyAsync_H2D_abort in Hl. simpl in Hl.
    eapply (Hgoal [_]); [exact Hl|reflexivity]. }
  apply cudaMemcpyAsync_H2D_inv in Hl as (b1 & b1' & _ & ->). simpl in Hrun.
  apply dev_bind_abort_inv in Hrun as [Hl|(u2 & st1 & Hl & Hrun)].
  { apply cudaMemcpyAsync_H2D_abort in Hl. simpl in Hl.
    eapply (Hgoal [_; _]); [rewrite Hl, <- !app_assoc; reflexivity|reflexivity]. }
  apply cudaMemcpyAsync_H2D_inv in Hl as (b2 & b2' & _ & ->). simpl in Hrun.
  apply dev_bind_abort_inv in Hrun as [Hl|(u3 & st1 & Hl & Hrun)].
  { apply cudaMemcpyAsync_H2D_abort in Hl. simpl in Hl.
    eapply (Hgoal [_; _; _]); [rewrite Hl, <- !app_assoc; reflexivity|reflexivity]. }
  apply cudaMemcpyAsync_H2D_inv in Hl as (b3 & b3' & _ & ->). simpl in Hrun.
  apply dev_bind_abort_inv in Hrun as [Hl|(u4 & st1 & Hl & Hrun)].
  { apply run_cublasSgemm_abort in Hl. simpl in Hl.
    eapply (Hgoal [_; _; _; _]); [rewrite Hl, <- !app_assoc; reflexivity|reflexivity]. }
  apply run_cublasSgemm_inv in Hl as (h8 & _ & ->). simpl in Hrun.
  apply dev_bind_abort_inv in Hrun as [Hl|(bx & st1 & Hl & Hrun)].
  { apply lift_abort in Hl as [_ Hl]. simpl in Hl.
    eapply (Hgoal [_; _; _; _]); [rewrite Hl, <- !app_assoc; reflexivity|reflexivity]. }
  apply lift_inv in Hl as [_ ->].
  apply dev_bind_abort_inv in Hrun as [Hl|(by_ & st1 & Hl & Hrun)].
  { apply lift_abort in Hl as [_ Hl]. simpl in Hl.
    eapply (Hgoal [_; _; _; _]); [rewrite Hl, <- !app_assoc; reflexivity|reflexivity]. }
  apply lift_inv in Hl as [_ ->].
  apply dev_bind_abort_inv in Hrun as [Hl|(u5 & st1 & Hl & Hrun)].
  { apply run_addBiasEfficient_abort in Hl. simpl in Hl.
    eapply (Hgoal [_; _; _; _; _]); [rewrite Hl, <- !app_assoc; reflexivity|reflexivity]. }
  apply run_addBiasEfficient_inv in Hl as (h9 & _ & ->). simpl in Hrun.
  apply dev_bind_abort_inv in Hrun as [Hl|(u6 & st1 & Hl & Hrun)].
  { apply cudaMemcpyAsync_D2H_abort in Hl. simpl in Hl.
    eapply (Hgoal [_; _; _; _; _; _]); [rewrite Hl, <- !app_assoc; reflexivity|reflexivity]. }
  apply cudaMemcpyAsync_D2H_inv in Hl as (vs & ->). simpl in Hrun.
  apply dev_bind_abort_inv in Hrun as [Hl|(u7 & st1 & Hl & Hrun)];
    [by rewrite cudaStreamSynchronize_run in Hl|].
  rewrite cudaStreamSynchronize_run in Hl. injection Hl as <- <-. simpl in Hrun.
  apply dev_bind_abort_inv in Hrun as [Hl|(output & st1 & Hl & Hrun)].
  { apply reassemble_abort in Hl as (j & Hj & Hl). simpl in Hl.
    eapply (Hgoal ([_; _; _; _; _; _; _] ++ replicate j _)
                  (replicate (Z.to_nat batchSize - j) _ ++ _)).
    - rewrite Hl. rewrite <- !app_assoc. simpl. reflexivity.
    - unfold linearCUBLAS_trace. simpl. do 11 f_equal.
      replace (Z.to_nat batchSize) with (j + (Z.to_nat batchSize - j))%nat at 2 by lia.
      rewrite replicate_add, <- app_assoc. reflexivity. }
  apply reassemble_inv in Hl as [-> _]. simpl in Hrun.
  apply dev_bind_abort_inv in Hrun as [Hl|(u8 & st1 & Hl & Hrun)].
  { apply cudaFreeAsync_abort in Hl. simpl in Hl.
    eapply (Hgoal ([_; _; _; _; _; _; _] ++ replicate _ _ ++ [_]) [_; _; _]).
    - rewrite Hl. rewrite <- !app_assoc. simpl. reflexivity.
    - unfold linearCUBLAS_trace. simpl. do 11 f_equal.
      by rewrite <- !app_assoc. }
  apply cudaFreeAsync_inv in Hl as [_ ->]. simpl in Hrun.
  apply dev_bind_abort_inv in Hrun as [Hl|(u9 & st1 & Hl & Hrun)].
  { apply cudaFreeAsync_abort in Hl. simpl in Hl.
    eapply (Hgoal ([_; _; _; _; _; _; _] ++ replicate _ _ ++ [_; _]) [_; _]).
    - rewrite Hl. rewrite <- !app_assoc. simpl. reflexivity.
    - unfold linearCUBLAS_trace. simpl. do 11 f_equal.
      by rewrite <- !app_assoc. }
  apply cudaFreeAsync_inv in Hl as [_ ->]. simpl in Hrun.
  apply dev_bind_abort_inv in Hrun as [Hl|(u10 & st1 & Hl & Hrun)].
  { apply cudaFreeAsync_abort in Hl. simpl in Hl.
    eapply (Hgoal ([_; _; _; _; _; _; _] ++ replicate _ _ ++ [_; _; _]) [_]).
    - rewrite Hl. rewrite <- !app_assoc. simpl. reflexivity.
    - unfold linearCUBLAS_trace. simpl. do 11 f_equal.
      by rewrite <- !app_assoc. }
  apply cudaFreeAsync_inv in Hl as [_ ->]. simpl in Hrun.
  apply dev_bind_abort_inv in Hrun as [Hl|(u11 & st1 & Hl & Hrun)].
  { apply cudaFreeAsync_abort in Hl. simpl in Hl.
    eapply (Hgoal ([_; _; _; _; _; _; _] ++ replicate _ _ ++ [_; _; _; _]) []).
    - rewrite Hl. rewrite <- !app_assoc. simpl. reflexivity.
    - unfold linearCUBLAS_trace. simpl. do 11 f_equal.
      by rewrite <- !app_assoc. }
  apply cudaFreeAsync_inv in Hl as [_ ->]. simpl in Hrun.
  apply dev_bind_abort_inv in Hrun as [Hl|(u12 & st1 & Hl & Hrun)];
    [by rewrite host_vector_destroy_run in Hl|].
  done.
Qed.

(** *** Calls with compatible shapes *)

Lemma linearCUBLAS_dims_Ok (input weights : list (list F)) (M K N : nat) :
  is_matrix M K input -> length weights = N -> (0 < M)%nat ->
  Z.of_nat M <= INT_MAX -> Z.of_nat K <= INT_MAX -> Z.of_nat N <= INT_MAX ->
  linearCUBLAS_dims input weights = Ok (Z.of_nat M, Z.of_nat K, Z.of_nat N).
Proof.
  intros Hin HN HM HMmax HKmax HNmax. unfold linearCUBLAS_dims.
  destruct (is_matrix_lookup M K input 0 Hin HM) as (row0 & Hrow0 & Hlen0).
  destruct Hin as [HlenM _].
  rewrite int_of_size_Ok by lia. simpl.
  rewrite (vec_at_Ok input 0 row0 Hrow0 : vec_at input 0 = Ok row0). simpl.
  rewrite int_of_size_Ok by lia. simpl.
  rewrite int_of_size_Ok by lia. simpl. by rewrite HlenM, Hlen0, HN.
Qed.

Lemma linearCUBLAS_ok (input weights : list (list F)) (bias : list F)
  (M K N : nat) handle st :
  is_matrix M K input -> is_matrix N K weights -> length bias = N ->
  (0 < M)%nat -> (0 < K)%nat -> (0 < N)%nat ->
  Z.of_nat M * Z.of_nat K <= INT_MAX ->
  Z.of_nat N * Z.of_nat K <= INT_MAX ->
  Z.of_nat M * Z.of_nat N <= INT_MAX ->
  Z.of_nat M + 15 <= INT_MAX -> Z.of_nat N + 15 <= INT_MAX ->
  feqb (fzero : F) fzero = true ->
  inflight st = [] ->
  exists st',
    linearCUBLAS input weights bias handle st
    = Done (map (add_bias_to_row bias) (sgemm_TN_result fone weights input)) st'
    /\ hostmem st' = hostmem st /\ inflight st' = [].
Proof.
  intros Hin Hw Hbias HM HK HN HMK HNK HMN HM15 HN15 Hzero Hidle.
  pose proof Hin as [HlenM Hrows]. pose proof Hw as [HlenN Hwrows].
  assert (INT_MIN <= 0) by (unfold INT_MIN; lia).
  eexists. split.
  - set (hb := fresh (dom (hostmem st))).
  set (h0 := device st).
  set (p1 := fresh (dom h0)).
  set (h1 := <[p1 := replicate (M * K) None]> h0).
  set (p2 := fresh (dom h1)).
  set (h2 := <[p2 := replicate (N * K) None]> h1).
  set (p3 := fresh (dom h2)).
  set (h3 := <[p3 := replicate (length bias) None]> h2).
  set (p4 := fresh (dom h3)).
  set (h4 := <[p4 := replicate (M * N) None]> h3).
  assert (h0 !! p1 = None) as Hf1 by apply fresh_lookup_None.
  assert (h1 !! p2 = None) as Hf2 by apply fresh_lookup_None.
  assert (h2 !! p3 = None) as Hf3 by apply fresh_lookup_None.
  assert (h3 !! p4 = None) as Hf4 by apply fresh_lookup_None.
  assert (p2 ≠ p1) as Hn21.
  { intros Heq. rewrite Heq in Hf2. unfold h1 in Hf2. by rewrite lookup_insert_eq in Hf2. }
  assert (p3 ≠ p2) as Hn32.
  { intros Heq. rewrite Heq in Hf3. unfold h2 in Hf3. by rewrite lookup_insert_eq in Hf3. }
  assert (p3 ≠ p1) as Hn31.
  { intros Heq. rewrite Heq in Hf3. unfold h2, h1 in Hf3.
    by rewrite lookup_insert_ne, lookup_insert_eq in Hf3. }
  assert (p4 ≠ p3) as Hn43.
  { intros Heq. rewrite Heq in Hf4. unfold h3 in Hf4. by rewrite lookup_insert_eq in Hf4. }
  assert (p4 ≠ p2) as Hn42.
  { intros Heq. rewrite Heq in Hf4. unfold h3, h2 in Hf4.
    by rewrite lookup_insert_ne, lookup_insert_eq in Hf4. }
  assert (p4 ≠ p1) as Hn41.
  { intros Heq. rewrite Heq in Hf4. unfold h3, h2, h1 in Hf4.
    rewrite lookup_insert_ne in Hf4 by done.
    rewrite lookup_insert_ne in Hf4 by done.
    by rewrite lookup_insert_eq in Hf4. }
  unfold linearCUBLAS.
  rewrite (dev_bind_Done (lift (linearCUBLAS_dims input weights)) _ st
             (Z.of_nat M, Z.of_nat K, Z.of_nat N) st); last first.
  { rewrite (linearCUBLAS_dims_Ok input weights M K N) by (done || nia).
    apply lift_Ok. }
  erewrite dev_bind_Done
    by (rewrite int_arith_Ok by nia; apply lift_Ok).
  erewrite dev_bind_Done
    by (rewrite int_arith_Ok by nia; apply lift_Ok).
  erewrite dev_bind_Done
    by (rewrite int_arith_Ok by nia; apply lift_Ok).
  erewrite dev_bind_Done by apply host_vector_run.
  erewrite dev_bind_Done by apply cudaMallocAsync_run.
  erewrite dev_bind_Done by apply cudaMallocAsync_run.
  erewrite dev_bind_Done by apply cudaMallocAsync_run.
  erewrite dev_bind_Done by apply cudaMallocAsync_run.
  cbn [device hostmem inflight trace].
  rewrite <- !Nat2Z.inj_mul, !Nat2Z.id.
  fold hb h0. fold p1. fold h1. fold p2. fold h2. fold p3. fold h3. fold p4. fold h4.
  (* host to device *)
  erewrite dev_bind_Done; last first.
  { apply (cudaMemcpyAsync_H2D_run p1 (concat input) (M * K) _
             (replicate (M * K) None)); cbn [device].
    - unfold h4, h3, h2, h1. by rewrite !lookup_insert_ne, lookup_insert_eq by done.
    - rewrite (length_concat_rect K) by done. lia.
    - by rewrite length_replicate. }
  cbn [device hostmem inflight trace].
  rewrite take_ge by (rewrite (length_concat_rect K) by done; lia).
  rewrite drop_ge, app_nil_r by (by rewrite length_replicate).
  set (h5 := <[p1 := Some <$> concat input]> h4).
  erewrite dev_bind_Done; last first.
  { apply (cudaMemcpyAsync_H2D_run p2 (concat weights) (N * K) _
             (replicate (N * K) None)); cbn [device].
    - unfold h5, h4, h3, h2. by rewrite !lookup_insert_ne, lookup_insert_eq by done.
    - rewrite (length_concat_rect K) by done. lia.
    - by rewrite length_replicate. }
  cbn [device hostmem inflight trace].
  rewrite take_ge by (rewrite (length_concat_rect K) by done; lia).
  rewrite drop_ge, app_nil_r by (by rewrite length_replicate).
  set (h6 := <[p2 := Some <$> concat weights]> h5).
  erewrite dev_bind_Done; last first.
  { apply (cudaMemcpyAsync_H2D_run p3 bias (length bias) _
             (replicate (length bias) None)); cbn [device].
    - unfold h6, h5, h4, h3. by rewrite !lookup_insert_ne, lookup_insert_eq by done.
    - lia.
    - by rewrite length_replicate. }
  cbn [device hostmem inflight trace].
  rewrite firstn_all, drop_ge, app_nil_r by (by rewrite length_replicate).
  set (h7 := <[p3 := Some <$> bias]> h6).
  (* product *)
  set (P := sgemm_TN_result fone weights input).
  assert (is_matrix M N P) as HP.
  { split.
    - unfold P, sgemm_TN_result. by rewrite length_map.
    - rewrite <- HlenN. apply sgemm_TN_result_rows. }
  erewrite dev_bind_Done; last first.
  { apply run_cublasSgemm_run. cbn [device].
    apply (cublasSgemm_TN h7 p2 p1 p4 N M K weights input fone (replicate (M * N) None));
      try done.
    - unfold h7, h6. by rewrite !lookup_insert_ne, lookup_insert_eq by done.
    - unfold h7, h6, h5. by rewrite !lookup_insert_ne, lookup_insert_eq by done.
    - by rewrite length_replicate.
    - unfold h7, h6, h5, h4. by rewrite !lookup_insert_ne, lookup_insert_eq by done. }
  cbn [device hostmem inflight trace]. fold P.
  set (h8 := <[p4 := Some <$> concat P]> h7).
  erewrite dev_bind_Done
    by (rewrite int_arith_Ok by lia; apply lift_Ok).
  erewrite dev_bind_Done
    by (rewrite int_arith_Ok by lia; apply lift_Ok).
  (* bias *)
  set (biased := map (add_bias_to_row bias) P).
  assert (is_matrix M N biased) as Hbiased.
  { destruct HP as [HPlen HProws]. split; [unfold biased; by rewrite length_map|].
    apply Forall_fmap. eapply Forall_impl; [exact HProws|].
    intros r Hr. simpl in *. rewrite length_add_bias_to_row; lia. }
  erewrite dev_bind_Done; last first.
  { apply run_addBiasEfficient_run. cbn [device].
    unfold launch_addBiasEfficient, INT_MAX in *.
    rewrite !Z.quot_div_nonneg by lia.
    pose proof (Z.div_mod (Z.of_nat M + 15) 16 ltac:(lia)).
    pose proof (Z.mod_pos_bound (Z.of_nat M + 15) 16 ltac:(lia)).
    pose proof (Z.div_mod (Z.of_nat N + 15) 16 ltac:(lia)).
    pose proof (Z.mod_pos_bound (Z.of_nat N + 15) 16 ltac:(lia)).
    apply (launch_sched_grid_ok ((Z.of_nat N + 15) / 16) ((Z.of_nat M + 15) / 16)
             16 16 M N P bias h8 p4 p3); try done; try lia.
    - unfold h8. by rewrite lookup_insert_eq.
    - unfold h8, h7. by rewrite lookup_insert_ne, lookup_insert_eq by done. }
  cbn [device hostmem inflight trace]. fold biased.
  set (h9 := <[p4 := Some <$> concat biased]> h8).
  (* device to host, wait, reassemble *)
  assert (length (concat biased) = (M * N)%nat) as Hvals.
  { destruct Hbiased as [Hbl Hbr]. rewrite (length_concat_rect N) by done. lia. }
  replace (cudaMemcpyAsync_D2H hb p4 (Z.of_nat (M * N)))
    with (cudaMemcpyAsync_D2H (F:=F) hb p4 (Z.of_nat (length (concat biased))))
    by (by rewrite Hvals).
  erewrite dev_bind_Done; last first.
  { apply (cudaMemcpyAsync_D2H_run hb p4 (concat biased) (replicate (M * N) fzero));
      cbn [device hostmem].
    - unfold h9. by rewrite lookup_insert_eq.
    - by rewrite lookup_insert_eq.
    - rewrite length_replicate. lia. }
  cbn [device hostmem inflight trace].
  erewrite dev_bind_Done by apply cudaStreamSynchronize_run.
  cbn [device hostmem inflight trace].
  rewrite Hidle. simpl foldl. unfold land. cbn [fst snd].
  rewrite lookup_insert_eq, insert_insert_eq.
  rewrite drop_ge, app_nil_r by (rewrite length_replicate; lia).
  erewrite dev_bind_Done; last first.
  { apply (reassemble_run hb biased M N); cbn [hostmem inflight]; try done.
    by rewrite lookup_insert_eq. }
  cbn [device hostmem inflight trace].
  (* free *)
  erewrite dev_bind_Done; last first.
  { eapply cudaFreeAsync_run. cbn [device]. unfold h9, h8, h7, h6, h5.
    by rewrite !lookup_insert_ne, lookup_insert_eq by done. }
  cbn [device hostmem inflight trace].
  erewrite dev_bind_Done; last first.
  { eapply cudaFreeAsync_run. cbn [device]. unfold h9, h8, h7, h6.
    rewrite lookup_delete_ne by done.
    by rewrite !lookup_insert_ne, lookup_insert_eq by done. }
  cbn [device hostmem inflight trace].
  erewrite dev_bind_Done; last first.
  { eapply cudaFreeAsync_run. cbn [device]. unfold h9, h8, h7.
    rewrite !lookup_delete_ne by done.
    by rewrite !lookup_insert_ne, lookup_insert_eq by done. }
  cbn [device hostmem inflight trace].
  erewrite dev_bind_Done; last first.
  { eapply cudaFreeAsync_run. cbn [device]. unfold h9.
    rewrite !lookup_delete_ne by done.
    by rewrite lookup_insert_eq. }
  cbn [device hostmem inflight trace].
  erewrite dev_bind_Done by apply host_vector_destroy_run.
  cbn [device hostmem inflight trace].
  subst hb h0 p1 h1 p2 h2 p3 h3 p4 h4 h5 h6 h7 P h8 biased h9.
  reflexivity.
  - cbn [hostmem inflight]. split; [|done].
    rewrite delete_insert_eq. apply delete_id, not_elem_of_dom, is_fresh.
Qed.

End RuntimeProofs.

(** ** The traces of [linearCUBLAS] *)

Lemma linearCUBLAS_trace_frees p1 p2 p3 p4 hb bs id od bn p n :
  EvMalloc p n ∈ linearCUBLAS_trace p1 p2 p3 p4 hb bs id od bn ->
  exists before after,
    linearCUBLAS_trace p1 p2 p3 p4 hb bs id od bn = before ++ EvMalloc p n :: after
    /\ EvFree p ∈ after.
Proof.
  unfold linearCUBLAS_trace. simpl. intros Hin.
  assert (forall q, q ∈ [p1; p2; p3; p4] ->
            EvFree q ∈ replicate (Z.to_nat bs) (EvHostRead hb)
                       ++ [EvFree p1; EvFree p2; EvFree p3; EvFree p4]) as Hfree.
  { intros q Hq. apply elem_of_app. right.
    rewrite !elem_of_cons, elem_of_nil in Hq. rewrite !elem_of_cons.
    destruct Hq as [->|[->|[->|[->|[]]]]]; auto 10. }
  apply elem_of_cons in Hin as [[= -> ->]|Hin].
  { eexists [], _. split; [reflexivity|]. do 10 apply list_elem_of_further.
    apply Hfree. rewrite !elem_of_cons. auto 10. }
  apply elem_of_cons in Hin as [[= -> ->]|Hin].
  { eexists [_], _. split; [reflexivity|]. do 9 apply list_elem_of_further.
    apply Hfree. rewrite !elem_of_cons. auto 10. }
  apply elem_of_cons in Hin as [[= -> ->]|Hin].
  { eexists [_; _], _. split; [reflexivity|]. do 8 apply list_elem_of_further.
    apply Hfree. rewrite !elem_of_cons. auto 10. }
  apply elem_of_cons in Hin as [[= -> ->]|Hin].
  { eexists [_; _; _], _. split; [reflexivity|]. do 7 apply list_elem_of_further.
    apply Hfree. rewrite !elem_of_cons. auto 10. }
  do 7 (apply elem_of_cons in Hin as [?|Hin]; [done|]).
  apply elem_of_app in Hin as [Hin|Hin].
  - by apply elem_of_replicate in Hin as [? _].
  - rewrite !elem_of_cons, elem_of_nil in Hin. intuition congruence.
Qed.

Lemma reads_after_sync_prefix hb l T :
  l `prefix_of` T -> reads_after_sync hb T -> reads_after_sync hb l.
Proof.
  intros [k ->] HT pre post hb' ->.
  apply (HT pre (post ++ k) hb'). by rewrite <- app_assoc.
Qed.

Lemma reads_after_sync_trace p1 p2 p3 p4 hb bs id od bn :
  reads_after_sync hb (linearCUBLAS_trace p1 p2 p3 p4 hb bs id od bn).
Proof.
  intros pre post hb' Heq. unfold linearCUBLAS_trace in Heq. simpl in Heq.
  do 11 (destruct pre as [|? pre]; [done|]; injection Heq as <- Heq).
  split.
  - assert (EvHostRead hb' ∈ replicate (Z.to_nat bs) (EvHostRead hb)
                            ++ [EvFree p1; EvFree p2; EvFree p3; EvFree p4]) as Hin.
    { rewrite Heq. apply elem_of_app. right. apply list_elem_of_here. }
    apply elem_of_app in Hin as [Hin|Hin].
    + apply elem_of_replicate in Hin as [[= ->] _]. done.
    + rewrite !elem_of_cons, elem_of_nil in Hin. intuition congruence.
  - exists [EvMalloc p1 (bs * id); EvMalloc p2 (od * id); EvMalloc p3 bn;
            EvMalloc p4 (bs * od); EvMemcpyH2D p1 (bs * id);
            EvMemcpyH2D p2 (od * id); EvMemcpyH2D p3 bn;
            EvSgemm p2 p1 p4; EvLaunch p4 p3], [], pre, p4, (bs * od).
    reflexivity.
Qed.

(** ** No run reads a vector with a copy in flight *)

Section RaceProofs.
Context {F : Type} `{FloatOps F}.

Lemma bind_no_race {A B} (r : res A) (k : A -> res B) :
  r ≠ Fault DataRace -> (forall a, k a ≠ Fault DataRace) ->
  r ≫= k ≠ Fault DataRace.
Proof.
  intros Hr Hk. destruct r as [a|f]; simpl; [apply Hk|].
  intros [= ->]. by apply Hr.
Qed.

Lemma foldM_no_race {St I} (body : I -> St -> res St) l s :
  (forall i s, body i s ≠ Fault DataRace) -> foldM body l s ≠ Fault DataRace.
Proof.
  intros Hbody. revert s. induction l as [|i l IH]; intros s; simpl; [done|].
  apply bind_no_race; [apply Hbody|apply IH].
Qed.

Lemma int_arith_no_race z : int_arith z ≠ Fault DataRace.
Proof. by destruct (int_arith_cases z) as [->| ->]. Qed.

Lemma vec_at_no_race {A} (v : list A) i : vec_at v i ≠ Fault DataRace.
Proof. intros Hf. by apply vec_at_fault in Hf. Qed.

Lemma dev_load_no_race (h : dmem F) p i : dev_load h p i ≠ Fault DataRace.
Proof.
  unfold dev_load. destruct (h !! p); [|done].
  apply bind_no_race; [apply vec_at_no_race|]. by intros [v|].
Qed.

Lemma dev_store_no_race (h : dmem F) p i v : dev_store h p i v ≠ Fault DataRace.
Proof.
  unfold dev_store. destruct (h !! p); [|done].
  apply bind_no_race; [apply vec_at_no_race|done].
Qed.

Lemma cublasSgemm_no_race handle ta tb m n k (alpha : F) A lda B ldb beta C ldc
  (h : dmem F) :
  cublasSgemm handle ta tb m n k alpha A lda B ldb beta C ldc h ≠ Fault DataRace.
Proof.
  unfold cublasSgemm. destruct (gemm_valid _ _ _ _ _ _ _ _); [|done].
  apply foldM_no_race. intros j h1. apply foldM_no_race. intros i h2.
  unfold gemm_entry. apply bind_no_race.
  { unfold gemm_dot. apply foldM_no_race. intros l acc.
    apply bind_no_race; [destruct ta; apply dev_load_no_race|]. intros a.
    apply bind_no_race; [destruct tb; apply dev_load_no_race|]. done. }
  intros acc. apply bind_no_race; [|intros v; apply dev_store_no_race].
  destruct (feqb beta fzero); [done|].
  apply bind_no_race; [apply dev_load_no_race|done].
Qed.

Lemma launch_addBiasEfficient_no_race gridDim blockDim output bias batchSize
  outputDim (h : dmem F) :
  launch_addBiasEfficient gridDim blockDim output bias batchSize outputDim h
  ≠ Fault DataRace.
Proof.
  unfold launch_addBiasEfficient, launch_sched. apply foldM_no_race.
  intros [b t] h1. rewrite addBiasEfficient_unfold. unfold addBiasEfficient_body.
  destruct (_ && _); [|done].
  apply bind_no_race; [apply int_arith_no_race|]. intros scaled.
  apply bind_no_race; [apply int_arith_no_race|]. intros idx.
  apply bind_no_race; [apply dev_load_no_race|]. intros o.
  apply bind_no_race; [apply dev_load_no_race|]. intros b'.
  apply dev_store_no_race.
Qed.

Lemma linearCUBLAS_dims_no_race (input weights : list (list F)) :
  linearCUBLAS_dims input weights ≠ Fault DataRace.
Proof.
  unfold linearCUBLAS_dims, int_of_size.
  apply bind_no_race; [apply int_arith_no_race|]. intros bs.
  apply bind_no_race; [apply vec_at_no_race|]. intros row0.
  apply bind_no_race; [apply int_arith_no_race|]. intros id.
  apply bind_no_race; [apply int_arith_no_race|]. done.
Qed.

Lemma host_read_range_idle hb first last (st : state F) f t :
  inflight st = [] ->
  host_read_range hb first last st = Abort f t -> f ≠ DataRace.
Proof.
  intros Hidle. unfold host_read_range, mbind, dev_bind. simpl.
  unfold host_slice. simpl. rewrite Hidle.
  rewrite bool_decide_eq_false_2 by (simpl; apply not_elem_of_nil).
  destruct (hostmem st !! hb); [|by intros [= <- _]].
  destruct (_ || _); [|done]. by intros [= <- _].
Qed.

Lemma reassemble_idle hb batchSize outputDim (st : state F) f t :
  inflight st = [] ->
  reassemble hb batchSize outputDim st = Abort f t -> f ≠ DataRace.
Proof.
  unfold reassemble. generalize (replicate (Z.to_nat batchSize) ([] : list F)).
  generalize (seqZ 0 batchSize). intros l. revert st.
  induction l as [|i l IH]; intros st acc Hidle; simpl; [done|].
  intros Hrun. apply dev_bind_abort_inv in Hrun as [Hstep|(acc1 & st1 & Hstep & Hrun)].
  - apply dev_bind_abort_inv in Hstep as [Hl|(first & st2 & Hl & Hstep)].
    { apply lift_abort in Hl as [Hl _]. intros ->. by apply int_arith_no_race in Hl. }
    apply lift_inv in Hl as [_ ->].
    apply dev_bind_abort_inv in Hstep as [Hl|(last & st2 & Hl & Hstep)].
    { apply lift_abort in Hl as [Hl _]. intros ->. by apply int_arith_no_race in Hl. }
    apply lift_inv in Hl as [_ ->].
    apply dev_bind_abort_inv in Hstep as [Hl|(row & st2 & Hl & Hstep)]; [|done].
    by apply host_read_range_idle in Hl.
  - apply dev_bind_inv in Hstep as (first & st2 & Hfirst & Hstep).
    apply lift_inv in Hfirst as [_ ->].
    apply dev_bind_inv in Hstep as (last & st2 & Hlast & Hstep).
    apply lift_inv in Hlast as [_ ->].
    apply dev_bind_inv in Hstep as (row & st2 & Hread & Hstep).
    apply host_read_range_inv in Hread as [-> _].
    injection Hstep as <- <-.
    by apply IH in Hrun.
Qed.

Lemma cudaMemcpyAsync_H2D_no_race dst (src : list F) n (st : state F) f t :
  cudaMemcpyAsync_H2D dst src n st = Abort f t -> f ≠ DataRace.
Proof.
  unfold cudaMemcpyAsync_H2D, mbind, dev_bind. simpl.
  destruct (device st !! dst); simpl; [|by intros [= <- _]].
  destruct (_ || _); simpl; [|done]. by intros [= <- _].
Qed.

Lemma cudaMemcpyAsync_D2H_no_race dst src n (st : state F) f t :
  cudaMemcpyAsync_D2H dst src n st = Abort f t -> f ≠ DataRace.
Proof.
  unfold cudaMemcpyAsync_D2H, mbind, dev_bind. simpl.
  destruct (device st !! src) as [buf|]; simpl; [|by intros [= <- _]].
  unfold read_cells. destruct (_ <? _); simpl; [by intros [= <- _]|].
  destruct (mapM id _); simpl; [|by intros [= <- _]].
  unfold enqueue_copy. simpl.
  destruct (hostmem st !! dst) as [old|]; [|by intros [= <- _]].
  destruct (_ <? _)%nat; [|done]. by intros [= <- _].
Qed.

Lemma cudaFreeAsync_no_race p (st : state F) f t :
  cudaFreeAsync p st = Abort f t -> f ≠ DataRace.
Proof.
  unfold cudaFreeAsync, mbind, dev_bind. simpl.
  destruct (device st !! p); simpl; [done|]. by intros [= <- _].
Qed.

Lemma run_cublasSgemm_no_race handle ta tb m n k (alpha : F) A lda B ldb beta C ldc
  (st : state F) f t :
  run_cublasSgemm handle ta tb m n k alpha A lda B ldb beta C ldc st = Abort f t ->
  f ≠ DataRace.
Proof.
  unfold run_cublasSgemm, mbind, dev_bind. simpl.
  destruct (cublasSgemm _ _ _ _ _ _ _ _ _ _ _ _ _ _ _) as [|f'] eqn:Hg; simpl; [done|].
  intros [= <- _] ->. by apply cublasSgemm_no_race in Hg.
Qed.

Lemma run_addBiasEfficient_no_race gridDim blockDim output bias batchSize outputDim
  (st : state F) f t :
  run_addBiasEfficient gridDim blockDim output bias batchSize outputDim st
  = Abort f t ->
  f ≠ DataRace.
Proof.
  unfold run_addBiasEfficient, mbind, dev_bind. simpl.
  destruct (launch_addBiasEfficient _ _ _ _ _ _ _) as [|f'] eqn:Hl; simpl; [done|].
  intros [= <- _] ->. by apply launch_addBiasEfficient_no_race in Hl.
Qed.

(** A state after the stream has been waited for. *)
Lemma cudaMallocAsync_fields n (st : state F) p st' :
  cudaMallocAsync n st = Done p st' -> inflight st' = inflight st.
Proof. rewrite cudaMallocAsync_run. by intros [= _ <-]. Qed.

Lemma linearCUBLAS_no_race input weights bias handle (st : state F) f t :
  linearCUBLAS input weights bias handle st = Abort f t -> f ≠ DataRace.
Proof.
  unfold linearCUBLAS. intros Hrun.
  apply dev_bind_abort_inv in Hrun
    as [Hl|([[batchSize inputDim] outputDim] & st1 & Hl & Hrun)].
  { apply lift_abort in Hl as [Hl _]. intros ->.
    by apply linearCUBLAS_dims_no_race in Hl. }
  clear Hl.
  do 3 (apply dev_bind_abort_inv in Hrun as [Hl|(? & st2 & Hl & Hrun)];
        [apply lift_abort in Hl as [Hl _]; intros ->;
         by apply int_arith_no_race in Hl|];
        clear Hl; clear st1; rename st2 into st1).
  apply dev_bind_abort_inv in Hrun as [Hl|(flatOutput & st2 & Hl & Hrun)];
    [by rewrite host_vector_run in Hl|].
  clear Hl st1. rename st2 into st1.
  do 4 (apply dev_bind_abort_inv in Hrun as [Hl|(? & st2 & Hl & Hrun)];
        [by rewrite cudaMallocAsync_run in Hl|];
        clear Hl st1; rename st2 into st1).
  do 3 (apply dev_bind_abort_inv in Hrun as [Hl|(? & st2 & Hl & Hrun)];
        [by apply cudaMemcpyAsync_H2D_no_race in Hl|];
        clear Hl st1; rename st2 into st1).
  apply dev_bind_abort_inv in Hrun as [Hl|(u4 & st2 & Hl & Hrun)];
    [by apply run_cublasSgemm_no_race in Hl|].
  clear Hl st1. rename st2 into st1.
  do 2 (apply dev_bind_abort_inv in Hrun as [Hl|(? & st2 & Hl & Hrun)];
        [apply lift_abort in Hl as [Hl _]; intros ->;
         by apply int_arith_no_race in Hl|];
        clear Hl st1; rename st2 into st1).
  apply dev_bind_abort_inv in Hrun as [Hl|(u5 & st2 & Hl & Hrun)];
    [by apply run_addBiasEfficient_no_race in Hl|].
  clear Hl st1. rename st2 into st1.
  apply dev_bind_abort_inv in Hrun as [Hl|(u6 & st2 & Hl & Hrun)];
    [by apply cudaMemcpyAsync_D2H_no_race in Hl|].
  clear Hl st1. rename st2 into st1.
  apply dev_bind_abort_inv in Hrun as [Hl|(u7 & st2 & Hl & Hrun)];
    [by rewrite cudaStreamSynchronize_run in Hl|].
  assert (inflight st2 = []) as Hidle.
  { rewrite cudaStreamSynchronize_run in Hl. by injection Hl as _ <-. }
  clear Hl st1. rename st2 into st1.
  apply dev_bind_abort_inv in Hrun as [Hl|(output & st2 & Hl & Hrun)];
    [by apply (reassemble_idle _ _ _ _ _ _ Hidle) in Hl|].
  clear Hl Hidle st1. rename st2 into st1.
  do 4 (apply dev_bind_abort_inv in Hrun as [Hl|(? & st2 & Hl & Hrun)];
        [by apply cudaFreeAsync_no_race in Hl|];
        clear Hl st1; rename st2 into st1).
  apply dev_bind_abort_inv in Hrun as [Hl|(u12 & st2 & Hl & Hrun)];
    [by rewrite host_vector_destroy_run in Hl|].
  done.
Qed.

End RaceProofs.

(** ** Claims about [linearCUBLAS] *)

(** C8.  In every run of [linearCUBLAS], whether it returns or stops at a
    fault, each host read of [flatOutput] comes after a
    [cudaStreamSynchronize] that comes after the device-to-host copy into
    [flatOutput] was issued; the host reads nothing else the device
    writes, and no run stops because a host read met a copy still in
    flight. *)
Theorem linearCUBLAS_synchronizes_before_reading `{FloatOps F}
  (input weights : list (list F)) (bias : list F) (handle : cublasHandle_t)
  (st : state F) :
  (exists new,
    issued (linearCUBLAS input weights bias handle st) = trace st ++ new
    /\ reads_after_sync (fresh (dom (hostmem st))) new)
  /\ (forall t, linearCUBLAS input weights bias handle st <> Abort DataRace t).
Proof.
  split; [|by intros t Hrun%linearCUBLAS_no_race].
  destruct (linearCUBLAS input weights bias handle st) as [out st'|f t] eqn:Hrun.
  - destruct (linearCUBLAS_inv _ _ _ _ _ _ _ Hrun)
      as (bs & id & od & p1 & p2 & p3 & p4 & _ & _ & _ & _ & _ & _ & _ & Htr).
    eexists. split; [exact Htr|]. apply reads_after_sync_trace.
  - destruct (linearCUBLAS_abort_inv _ _ _ _ _ _ _ Hrun)
      as [[_ ->]|(bs & id & od & p1 & p2 & p3 & p4 & l & _ & -> & _ & Hpre)].
    + exists []. split; [by rewrite app_nil_r|].
      intros pre post hb' Heq. by destruct pre.
    + exists l. split; [done|].
      eapply reads_after_sync_prefix; [exact Hpre|apply reads_after_sync_trace].
Qed.

Lemma linearCUBLAS_synchronizes_before_reading_witness :
  issued (linearCUBLAS (f32_mat [[1]]) (f32_mat [[1]]) (f32_vec [-2])
            (CublasHandle 0) idle_device) = trace_1x1
  /\ reads_after_sync 0 trace_1x1.
Proof.
  split; [vm_compute; reflexivity|].
  destruct (proj1 (linearCUBLAS_synchronizes_before_reading (f32_mat [[1]])
                     (f32_mat [[1]]) (f32_vec [-2]) (CublasHandle 0) idle_device))
    as (new & Hissued & Hsync).
  vm_compute in Hissued. subst new. exact Hsync.
Defined.

Lemma linearCUBLAS_sizes_Ok {F} (input weights : list (list F)) row0 :
  input !! 0%nat = Some row0 ->
  Z.of_nat (length input) <= INT_MAX ->
  Z.of_nat (length row0) <= INT_MAX ->
  Z.of_nat (length weights) <= INT_MAX ->
  Z.of_nat (length input) * Z.of_nat (length row0) <= INT_MAX ->
  Z.of_nat (length weights) * Z.of_nat (length row0) <= INT_MAX ->
  Z.of_nat (length input) * Z.of_nat (length weights) <= INT_MAX ->
  linearCUBLAS_sizes input weights
  = Ok (Z.of_nat (length input), Z.of_nat (length row0), Z.of_nat (length weights)).
Proof.
  intros Hrow0 HM HK HN HMK HNK HMN.
  assert (INT_MIN <= 0) by (unfold INT_MIN; lia).
  unfold linearCUBLAS_sizes, linearCUBLAS_dims.
  rewrite int_of_size_Ok by done. simpl.
  rewrite (vec_at_Ok input 0 row0 Hrow0 : vec_at input 0 = Ok row0). simpl.
  rewrite int_of_size_Ok by done. simpl.
  rewrite int_of_size_Ok by done. simpl.
  rewrite !int_arith_Ok by nia. done.
Qed.

(** C2, as the code has it.  [linearCUBLAS] does not look at the shapes
    of its operands: for every non-empty batch whose sizes fit in an [int],
    whatever the lengths of the rows of the weights and of the bias, the
    first operations the call issues are the four device allocations. *)
Theorem linearCUBLAS_allocates_without_validation `{FloatOps F}
  (input weights : list (list F)) (bias : list F) (handle : cublasHandle_t)
  (st : state F) (row0 : list F) :
  input !! 0%nat = Some row0 ->
  Z.of_nat (length input) <= INT_MAX ->
  Z.of_nat (length row0) <= INT_MAX ->
  Z.of_nat (length weights) <= INT_MAX ->
  Z.of_nat (length input) * Z.of_nat (length row0) <= INT_MAX ->
  Z.of_nat (length weights) * Z.of_nat (length row0) <= INT_MAX ->
  Z.of_nat (length input) * Z.of_nat (length weights) <= INT_MAX ->
  exists d_input d_weights d_bias d_output rest,
    issued (linearCUBLAS input weights bias handle st)
    = trace st
      ++ [EvMalloc d_input (Z.of_nat (length input) * Z.of_nat (length row0));
          EvMalloc d_weights (Z.of_nat (length weights) * Z.of_nat (length row0));
          EvMalloc d_bias (Z.of_nat (length bias));
          EvMalloc d_output (Z.of_nat (length input) * Z.of_nat (length weights))]
      ++ rest.
Proof.
  intros Hrow0 HM HK HN HMK HNK HMN.
  pose proof (linearCUBLAS_sizes_Ok input weights row0 Hrow0 HM HK HN HMK HNK HMN)
    as Hsizes.
  destruct (linearCUBLAS input weights bias handle st) as [out st'|f t] eqn:Hrun.
  - destruct (linearCUBLAS_inv _ _ _ _ _ _ _ Hrun)
      as (bs & id & od & p1 & p2 & p3 & p4 & Hdims & _ & _ & _ & _ & _ & _ & Htr).
    unfold linearCUBLAS_sizes in Hsizes. rewrite Hdims in Hsizes. simpl in Hsizes.
    destruct (int_arith (bs * id)); simpl in Hsizes; [|done].
    destruct (int_arith (od * id)); simpl in Hsizes; [|done].
    destruct (int_arith (bs * od)); simpl in Hsizes; [|done].
    injection Hsizes as -> -> ->.
    exists p1, p2, p3, p4. eexists. simpl. rewrite Htr. reflexivity.
  - destruct (linearCUBLAS_abort_inv _ _ _ _ _ _ _ Hrun)
      as [[Hf _]|(bs & id & od & p1 & p2 & p3 & p4 & l & Hs & -> & [k ->] & _)].
    + rewrite Hsizes in Hf. done.
    + rewrite Hsizes in Hs. injection Hs as <- <- <-.
      exists p1, p2, p3, p4, k. reflexivity.
Qed.

Lemma linearCUBLAS_allocates_without_validation_witness :
  exists rest,
    issued (linearCUBLAS (f32_mat [[1; 2]; [3; 4]]) (f32_mat [[1; 2; 3]; [4; 5; 6]])
              (f32_vec [0; 0]) (CublasHandle 0) idle_device)
    = [EvMalloc 0 4; EvMalloc 1 4; EvMalloc 2 2; EvMalloc 3 4] ++ rest.
Proof.
  destruct (linearCUBLAS_allocates_without_validation
              (f32_mat [[1; 2]; [3; 4]]) (f32_mat [[1; 2; 3]; [4; 5; 6]])
              (f32_vec [0; 0]) (CublasHandle 0) idle_device (f32_vec [1; 2]))
    as (p1 & p2 & p3 & p4 & rest & Hissued).
  - reflexivity.
  - vm_compute. discriminate.
  - vm_compute. discriminate.
  - vm_compute. discriminate.
  - vm_compute. discriminate.
  - vm_compute. discriminate.
  - vm_compute. discriminate.
  - vm_compute in Hissued. injection Hissued as <- <- <- <- <-.
    eexists. vm_compute. reflexivity.
Defined.

(** C2, as stated, fails: with a 2 by 3 input and 2 by 2 weights the call
    issues its four allocations and the first copies, and then reads past
    the end of the flattened weights. *)
Lemma linearCUBLAS_rejects_mismatch_counterexample :
  linearCUBLAS (f32_mat [[1; 2; 3]; [4; 5; 6]]) (f32_mat [[1; 2]; [3; 4]])
    (f32_vec [0; 0]) (CublasHandle 0) idle_device
  = Abort OutOfBounds
      [EvMalloc 0 6; EvMalloc 1 6; EvMalloc 2 2; EvMalloc 3 4;
       EvMemcpyH2D 0 6; EvMemcpyH2D 1 6]
  /\ ~ no_device_allocation
        (linearCUBLAS (f32_mat [[1; 2; 3]; [4; 5; 6]]) (f32_mat [[1; 2]; [3; 4]])
           (f32_vec [0; 0]) (CublasHandle 0) idle_device).
Proof.
  split; [vm_compute; reflexivity|]. vm_compute. discriminate.
Qed.

(** ** The precondition on the batch *)

(** C9.  [linear] indexes [output[0]] and [linearCUBLAS] indexes
    [input[0]].  With an empty product, respectively an empty batch, that
    index is out of range and the call is undefined; [linearCUBLAS] has then
    issued no device operation.  With at least one row the index is in
    range: reading the dimensions does not go out of bounds. *)
Theorem entry_points_need_a_row `{FloatOps F} `{Syntari F}
  (input weights : list (list F)) (bias : list F) (handle : cublasHandle_t)
  (st : state F) :
  (matmul input weights = [] -> linear input weights bias = Fault OutOfBounds)
  /\ (input = [] ->
      linearCUBLAS input weights bias handle st = Abort OutOfBounds (trace st))
  /\ (matmul input weights ≠ [] ->
      linear_dims (matmul input weights) ≠ Fault OutOfBounds)
  /\ (input ≠ [] -> linearCUBLAS_dims input weights ≠ Fault OutOfBounds).
Proof.
  split; [|split; [|split]].
  - intros Hempty. unfold linear, linear_pre, linear_dims. by rewrite Hempty.
  - intros ->. reflexivity.
  - unfold linear_dims. destruct (matmul input weights) as [|row0 rows]; [done|].
    intros _. unfold int_of_size.
    destruct (int_arith_cases (Z.of_nat (length (row0 :: rows)))) as [->| ->];
      [|done].
    cbn [mbind res_bind]. change (vec_at (row0 :: rows) 0) with (Ok row0).
    cbn [mbind res_bind].
    by destruct (int_arith_cases (Z.of_nat (length row0))) as [->| ->].
  - destruct input as [|row0 rows]; [done|]. intros _.
    unfold linearCUBLAS_dims, int_of_size.
    destruct (int_arith_cases (Z.of_nat (length (row0 :: rows)))) as [->| ->];
      [|done].
    cbn [mbind res_bind]. change (vec_at (row0 :: rows) 0) with (Ok row0).
    cbn [mbind res_bind].
    destruct (int_arith_cases (Z.of_nat (length row0))) as [->| ->]; [|done].
    cbn [mbind res_bind].
    by destruct (int_arith_cases (Z.of_nat (length weights))) as [->| ->].
Qed.

Lemma entry_points_need_a_row_witness :
  linear (f32_mat []) (f32_mat [[1]]) (f32_vec [0]) = Fault OutOfBounds
  /\ linearCUBLAS (f32_mat []) (f32_mat [[1]]) (f32_vec [0]) (CublasHandle 0)
       idle_device = Abort OutOfBounds []
  /\ linearCUBLAS_dims (f32_mat [[1]]) (f32_mat [[1]]) ≠ Fault OutOfBounds.
Proof.
  split; [|split].
  - apply (proj1 (entry_points_need_a_row (f32_mat []) (f32_mat [[1]])
                    (f32_vec [0]) (CublasHandle 0) idle_device)).
    reflexivity.
  - apply (proj1 (proj2 (entry_points_need_a_row (f32_mat []) (f32_mat [[1]])
                           (f32_vec [0]) (CublasHandle 0) idle_device))).
    reflexivity.
  - apply (proj2 (proj2 (proj2 (entry_points_need_a_row (f32_mat [[1]])
                                  (f32_mat [[1]]) (f32_vec [0]) (CublasHandle 0)
                                  idle_device)))).
    discriminate.
Defined.

(** ** The CPU path *)

Section CpuProofs.
Context {F : Type} `{FloatOps F}.

Lemma transpose_length (B : list (list F)) (K N : nat) :
  is_matrix K N B -> (0 < K)%nat -> length (CpuReference.transpose B) = N.
Proof.
  intros [HK Hrows] Hpos. destruct B as [|row0 B]; [simpl in HK; lia|].
  unfold CpuReference.transpose. rewrite length_fmap, length_seq.
  by apply Forall_cons_1 in Hrows as [? _].
Qed.

Lemma transpose_lookup (B : list (list F)) (K N j : nat) :
  is_matrix K N B -> (0 < K)%nat -> (j < N)%nat ->
  CpuReference.transpose B !! j
  = Some ((fun row => default fzero (row !! j)) <$> B).
Proof.
  intros [HK Hrows] Hpos Hj. destruct B as [|row0 B]; [simpl in HK; lia|].
  unfold CpuReference.transpose. rewrite list_lookup_fmap.
  apply Forall_cons_1 in Hrows as [Hlen0 _].
  rewrite lookup_seq_lt by lia. done.
Qed.

Lemma transpose_is_matrix (B : list (list F)) (K N : nat) :
  is_matrix K N B -> (0 < K)%nat -> is_matrix N K (CpuReference.transpose B).
Proof.
  intros HB Hpos. split; [by apply (transpose_length B K N)|].
  apply Forall_lookup. intros j col Hcol.
  assert (j < N)%nat as Hj.
  { apply lookup_lt_Some in Hcol. by rewrite (transpose_length B K N) in Hcol. }
  rewrite (transpose_lookup B K N j HB Hpos Hj) in Hcol. injection Hcol as <-.
  rewrite length_fmap. by destruct HB.
Qed.

Lemma transpose_entry (B : list (list F)) (K N j k : nat) b_row b :
  is_matrix K N B -> (0 < K)%nat -> (j < N)%nat ->
  B !! k = Some b_row -> b_row !! j = Some b ->
  exists col, CpuReference.transpose B !! j = Some col /\ col !! k = Some b.
Proof.
  intros HB Hpos Hj Hrow Hb. eexists. split; [by apply (transpose_lookup B K N)|].
  rewrite list_lookup_fmap, Hrow. simpl. by rewrite Hb.
Qed.

Lemma matmul_is_matrix (A B : list (list F)) (M K N : nat) :
  length A = M -> is_matrix K N B -> (0 < K)%nat ->
  is_matrix M N (CpuReference.matmul A B).
Proof.
  intros HA HB Hpos. unfold CpuReference.matmul. split; [by rewrite length_fmap|].
  apply Forall_fmap, Forall_true. intros a. simpl.
  by rewrite length_fmap, (transpose_length B K N).
Qed.

Section TripleLoop.
Variables (A B : list (list F)) (M K N : nat).
Hypothesis HA : is_matrix M K A.
Hypothesis HB : is_matrix K N B.
Hypothesis HK : (0 < K)%nat.

(** The loop over [k] leaves the dot product in [C[i][j]]. *)
Lemma triple_loop_k (C : list (list F)) (i j : nat) a col c_row :
  A !! i = Some a -> CpuReference.transpose B !! j = Some col ->
  C !! i = Some c_row -> c_row !! j = Some fzero ->
  for_loop (Z.of_nat K)
    (CpuReference.triple_loop_accumulate A B (Z.of_nat i) (Z.of_nat j)) C
  = Ok (<[i := <[j := CpuReference.dotSIMD a col]> c_row]> C).
Proof.
  intros Ha Hcol HC Hc.
  assert (length a = K) as Hla
    by apply (Forall_lookup_1 (fun r => length r = K) A i a (proj2 HA) Ha).
  assert (j < N)%nat as Hj.
  { apply lookup_lt_Some in Hcol. by rewrite (transpose_length B K N) in Hcol. }
  rewrite (transpose_lookup B K N j HB HK Hj) in Hcol. injection Hcol as <-.
  set (col := (fun row => default fzero (row !! j)) <$> B).
  assert (length col = K) as Hlc by (unfold col; rewrite length_fmap; apply HB).
  assert (forall k : nat, (k <= K)%nat ->
    for_loop (Z.of_nat k)
      (CpuReference.triple_loop_accumulate A B (Z.of_nat i) (Z.of_nat j)) C
    = Ok (<[i := <[j := dot_product (take k a) (take k col)]> c_row]> C)) as Hloop.
  { induction k as [|k IH]; intros Hk.
    - rewrite for_loop_0. simpl. unfold dot_product. simpl.
      by rewrite (list_insert_id c_row), (list_insert_id C).
    - rewrite for_loop_S, IH by lia. simpl.
      destruct (lookup_lt_is_Some_2 a k) as [x Hx]; [lia|].
      destruct (is_matrix_lookup K N B k HB) as (b_row & Hbrow & Hlb); [lia|].
      destruct (lookup_lt_is_Some_2 b_row j) as [b Hb]; [lia|].
      pose proof (lookup_lt_Some _ _ _ HC). pose proof (lookup_lt_Some _ _ _ Hc).
      unfold CpuReference.triple_loop_accumulate.
      rewrite (vec_at_Ok A i a Ha). simpl.
      rewrite (vec_at_Ok a k x Hx). simpl.
      rewrite (vec_at_Ok B k b_row Hbrow). simpl.
      rewrite (vec_at_Ok b_row j b Hb). simpl.
      rewrite (vec_at_Ok _ i (<[j := dot_product (take k a) (take k col)]> c_row))
        by (by rewrite list_lookup_insert_eq). simpl.
      rewrite (vec_at_Ok (<[j := dot_product (take k a) (take k col)]> c_row) j
                 (dot_product (take k a) (take k col)))
        by (by rewrite list_lookup_insert_eq). simpl.
      rewrite !Nat2Z.id, !list_insert_insert_eq.
      rewrite (dot_product_take_S a col k x b); [done|done|].
      unfold col. rewrite list_lookup_fmap, Hbrow. simpl. by rewrite Hb. }
  rewrite Hloop by lia. unfold CpuReference.dotSIMD.
  by rewrite <- Hla at 1; rewrite <- Hlc, !firstn_all.
Qed.

(** The loop over [j] fills row [i]. *)
Lemma triple_loop_j (C : list (list F)) (i : nat) a :
  A !! i = Some a -> C !! i = Some (replicate N fzero) ->
  for_loop (Z.of_nat N) (fun j =>
    for_loop (Z.of_nat K)
      (CpuReference.triple_loop_accumulate A B (Z.of_nat i) j)) C
  = Ok (<[i := (fun b => CpuReference.dotSIMD a b) <$> CpuReference.transpose B]> C).
Proof.
  intros Ha HC.
  set (V := (fun b => CpuReference.dotSIMD a b) <$> CpuReference.transpose B).
  assert (length V = N) as HV.
  { unfold V. by rewrite length_fmap, (transpose_length B K N). }
  assert (forall j : nat, (j <= N)%nat ->
    for_loop (Z.of_nat j) (fun j =>
      for_loop (Z.of_nat K)
        (CpuReference.triple_loop_accumulate A B (Z.of_nat i) j)) C
    = Ok (<[i := take j V ++ drop j (replicate N fzero)]> C)) as Hloop.
  { induction j as [|j IH]; intros Hj.
    - rewrite for_loop_0. simpl. by rewrite drop_0, list_insert_id.
    - rewrite for_loop_S, IH by lia. simpl.
      destruct (lookup_lt_is_Some_2 (CpuReference.transpose B) j) as [col Hcol].
      { rewrite (transpose_length B K N) by done. lia. }
      pose proof (lookup_lt_Some _ _ _ HC).
      rewrite (triple_loop_k _ i j a col (take j V ++ drop j (replicate N fzero)));
        try done.
      + rewrite list_insert_insert_eq. do 2 f_equal.
        apply insert_take_drop; [|rewrite length_replicate; lia].
        unfold V. by rewrite list_lookup_fmap, Hcol.
      + by rewrite list_lookup_insert_eq.
      + rewrite lookup_app_r; rewrite length_take; [|lia].
        rewrite lookup_drop, lookup_replicate_2; [done|lia]. }
  rewrite Hloop by lia.
  by rewrite take_ge, drop_ge, app_nil_r by (rewrite ?length_replicate; lia).
Qed.

Lemma triple_loop_matmul :
  CpuReference.triple_loop (Z.of_nat M) (Z.of_nat K) (Z.of_nat N) A B
  = Ok (CpuReference.matmul A B).
Proof.
  unfold CpuReference.triple_loop. rewrite !Nat2Z.id.
  set (R := CpuReference.matmul A B).
  set (C0 := replicate M (replicate N fzero)).
  destruct HA as [HlenA HrowsA].
  assert (length R = M) as HR by (unfold R, CpuReference.matmul; by rewrite length_fmap).
  assert (forall i : nat, (i <= M)%nat ->
    for_loop (Z.of_nat i) (fun i =>
      for_loop (Z.of_nat N) (fun j =>
        for_loop (Z.of_nat K) (CpuReference.triple_loop_accumulate A B i j))) C0
    = Ok (take i R ++ drop i C0)) as Hloop.
  { induction i as [|i IH]; intros Hi.
    - by rewrite for_loop_0.
    - rewrite for_loop_S, IH by lia. simpl.
      destruct (lookup_lt_is_Some_2 A i) as [a Ha]; [lia|].
      rewrite (triple_loop_j _ i a Ha).
      + f_equal. apply insert_take_drop; [|unfold C0; rewrite length_replicate; lia].
        unfold R, CpuReference.matmul. by rewrite list_lookup_fmap, Ha.
      + rewrite lookup_app_r; rewrite length_take; [|lia].
        rewrite lookup_drop. unfold C0. rewrite lookup_replicate_2; [done|lia]. }
  rewrite Hloop by lia.
  by rewrite take_ge, drop_ge, app_nil_r by (unfold C0; rewrite ?length_replicate; lia).
Qed.

End TripleLoop.
End CpuProofs.

(** C5.  For every [M] by [K] matrix [A] and [K] by [N] matrix [B] with
    [K > 0], the triple-loop reference product returns exactly the matrix
    [matmul(A, B)], an [M] by [N] matrix, in any arithmetic: both add the
    [K] products of an entry in index order, so no rounding separates them.
    The witness is [[1,2],[3,4]] times [[5,6],[7,8]] in binary32. *)
Theorem matmul_equals_triple_loop `{FloatOps F} (A B : list (list F)) (M K N : nat) :
  is_matrix M K A ->
  is_matrix K N B ->
  (0 < K)%nat ->
  CpuReference.triple_loop (Z.of_nat M) (Z.of_nat K) (Z.of_nat N) A B
  = Ok (CpuReference.matmul A B)
  /\ is_matrix M N (CpuReference.matmul A B).
Proof.
  intros HA HB HK. split.
  - by apply triple_loop_matmul.
  - apply (matmul_is_matrix A B M K N); [apply HA|done..].
Qed.

Lemma matmul_equals_triple_loop_witness :
  CpuReference.matmul (f32_mat [[1; 2]; [3; 4]]) (f32_mat [[5; 6]; [7; 8]])
  = f32_mat [[19; 22]; [43; 50]]
  /\ CpuReference.triple_loop 2 2 2 (f32_mat [[1; 2]; [3; 4]]) (f32_mat [[5; 6]; [7; 8]])
     = Ok (f32_mat [[19; 22]; [43; 50]]).
Proof.
  assert (CpuReference.matmul (f32_mat [[1; 2]; [3; 4]]) (f32_mat [[5; 6]; [7; 8]])
          = f32_mat [[19; 22]; [43; 50]]) as Hm by (vm_compute; reflexivity).
  split; [exact Hm|]. rewrite <- Hm.
  apply (matmul_equals_triple_loop (f32_mat [[1; 2]; [3; 4]])
           (f32_mat [[5; 6]; [7; 8]]) 2 2 2).
  - split; [reflexivity|]. repeat constructor.
  - split; [reflexivity|]. repeat constructor.
  - lia.
Defined.

(** ** The two strategies *)

(** Where [1.0f * (w . x)], as [cublasSgemm] computes it, is [x . w], as
    [matmul] computes it, for the rows [x] of the input and the columns [w]
    of the weights, the product of the vendor routine is that of [matmul]. *)
Lemma sgemm_TN_result_is_matmul `{FloatOps F} (input weights : list (list F)) :
  Forall (fun x =>
            Forall (fun w => fmul fone (dot_product w x) = dot_product x w)
              (CpuReference.transpose weights)) input ->
  sgemm_TN_result fone (CpuReference.transpose weights) input
  = CpuReference.matmul input weights.
Proof.
  intros Hagree. unfold sgemm_TN_result, CpuReference.matmul, CpuReference.dotSIMD.
  apply list_fmap_ext. intros i x Hx. apply list_fmap_ext. intros j w Hw.
  pose proof (Forall_lookup_1 _ _ _ _ Hagree Hx) as Hrow. simpl in Hrow.
  exact (Forall_lookup_1 _ _ _ _ Hrow Hw).
Qed.

(** An arithmetic in which multiplication is commutative and [1.0f * s] is
    [s] meets the condition on every input. *)
Lemma products_agree_of_laws `{FloatOps F} (input weights : list (list F)) :
  (forall a b : F, fmul a b = fmul b a) ->
  (forall a : F, fmul fone a = a) ->
  Forall (fun x =>
            Forall (fun w => fmul fone (dot_product w x) = dot_product x w)
              (CpuReference.transpose weights)) input.
Proof.
  intros Hcomm Hone. apply Forall_true. intros x. apply Forall_true. intros w.
  rewrite Hone. unfold dot_product. generalize (fzero : F) as acc. revert x.
  induction w as [|a w IH]; intros [|b x] acc; simpl; try done.
  rewrite (Hcomm a b). apply IH.
Qed.

Lemma map_fixed {A} (f : A -> A) (l : list A) :
  map f l = l <-> Forall (fun a => f a = a) l.
Proof.
  induction l as [|a l IH]; simpl.
  - split; [constructor|done].
  - split.
    + intros [= Ha Hl]. constructor; [done|by apply IH].
    + intros [Ha Hl]%Forall_cons. rewrite Ha. f_equal. by apply IH.
Qed.

(** C3, as the code has it.  For an [M] by [K] input, [K] by [N] weights
    and a bias of [N] entries (sizes positive and within [int]), called
    with no copy in flight, where [0.0f == 0.0f] and where, for every row
    [x] of the input and every column [w] of the weights, [1.0f * (w . x)]
    equals [x . w]: [linearCUBLAS] on the transposed weights returns the
    matrix [linear] holds before its activation step, product plus bias;
    [linear] returns the ReLU of that matrix; and the two return the same
    matrix exactly when ReLU leaves every entry of that matrix unchanged.
    ([matmul], [transpose] and [reluCUDA_batch] are the modelled CPU
    path.) *)
Theorem linear_is_relu_of_linearCUBLAS `{FloatOps F}
  (input weights : list (list F)) (bias : list F) (M K N : nat)
  (handle : cublasHandle_t) (st : state F) :
  is_matrix M K input ->
  is_matrix K N weights ->
  length bias = N ->
  (0 < M)%nat -> (0 < K)%nat -> (0 < N)%nat ->
  Z.of_nat M * Z.of_nat K <= INT_MAX ->
  Z.of_nat N * Z.of_nat K <= INT_MAX ->
  Z.of_nat M * Z.of_nat N <= INT_MAX ->
  Z.of_nat M + 15 <= INT_MAX ->
  Z.of_nat N + 15 <= INT_MAX ->
  inflight st = [] ->
  feqb (fzero : F) fzero = true ->
  Forall (fun x =>
            Forall (fun w => fmul fone (dot_product w x) = dot_product x w)
              (CpuReference.transpose weights)) input ->
  exists output st',
    linearCUBLAS input (CpuReference.transpose weights) bias handle st
    = Done output st'
    /\ output = map (add_bias_to_row bias) (CpuReference.matmul input weights)
    /\ linear_pre input weights bias = Ok output
    /\ linear input weights bias = Ok (map (map CpuReference.relu) output)
    /\ (linear input weights bias = Ok output
        <-> Forall (Forall (fun e => CpuReference.relu e = e)) output).
Proof.
  intros Hin Hw Hbias HM HK HN HMK HNK HMN HM15 HN15 Hidle Hzero Hagree.
  destruct (linearCUBLAS_ok input (CpuReference.transpose weights) bias M K N
              handle st) as (st' & Hrun & _); try done.
  { by apply transpose_is_matrix. }
  rewrite sgemm_TN_result_is_matmul in Hrun by done.
  assert (linear_pre input weights bias
          = Ok (map (add_bias_to_row bias) (CpuReference.matmul input weights)))
    as Hpre.
  { apply (@linear_pre_ok F _ cpu_syntari input weights bias M N); try done.
    - apply (matmul_is_matrix input weights M K N); [apply Hin|done..].
    - unfold INT_MAX in *. lia.
    - unfold INT_MAX in *. lia. }
  assert (linear input weights bias
          = Ok (map (map CpuReference.relu)
                  (map (add_bias_to_row bias) (CpuReference.matmul input weights))))
    as Hlin.
  { unfold linear. by rewrite Hpre. }
  eexists _, st'. split; [exact Hrun|]. split; [reflexivity|].
  split; [exact Hpre|]. split; [exact Hlin|]. rewrite Hlin. split.
  - intros [= Hfix]. apply map_fixed in Hfix.
    eapply Forall_impl; [exact Hfix|]. intros row Hrow. by apply map_fixed.
  - intros Hfix. f_equal. apply map_fixed.
    eapply Forall_impl; [exact Hfix|]. intros row Hrow. by apply map_fixed.
Qed.

Lemma linear_is_relu_of_linearCUBLAS_witness :
  exists output st',
    linearCUBLAS (f32_mat [[1; 2]; [3; 4]])
      (CpuReference.transpose (f32_mat [[5; 6]; [7; 8]])) (f32_vec [1; -60])
      (CublasHandle 0) idle_device = Done output st'
    /\ output = f32_mat [[20; -38]; [44; -10]]
    /\ linear (f32_mat [[1; 2]; [3; 4]]) (f32_mat [[5; 6]; [7; 8]])
         (f32_vec [1; -60])
       = Ok (f32_mat [[20; 0]; [44; 0]])
    /\ linear (f32_mat [[1; 2]; [3; 4]]) (f32_mat [[5; 6]; [7; 8]])
         (f32_vec [1; -60])
       <> Ok output.
Proof.
  destruct (linear_is_relu_of_linearCUBLAS (f32_mat [[1; 2]; [3; 4]])
              (f32_mat [[5; 6]; [7; 8]]) (f32_vec [1; -60]) 2 2 2
              (CublasHandle 0) idle_device)
    as (output & st' & Hrun & _ & Hpre & Hlin & Hsame).
  - split; [reflexivity|]. repeat constructor.
  - split; [reflexivity|]. repeat constructor.
  - reflexivity.
  - lia.
  - lia.
  - lia.
  - vm_compute. discriminate.
  - vm_compute. discriminate.
  - vm_compute. discriminate.
  - vm_compute. discriminate.
  - vm_compute. discriminate.
  - reflexivity.
  - reflexivity.
  - repeat match goal with
           | |- Forall _ _ => constructor
           end; vm_compute; reflexivity.
  - exists output, st'. split; [exact Hrun|].
    vm_compute in Hpre. injection Hpre as <-.
    split; [reflexivity|]. split; [vm_compute; reflexivity|].
    vm_compute. discriminate.
Defined.

(** C3, as stated, fails: on the input [[1]], weights [[1]] and bias [-2],
    [linear] returns [[0]] and [linearCUBLAS] returns [[-1]]. *)
Lemma strategies_interchangeable_counterexample :
  linear (f32_mat [[1]]) (f32_mat [[1]]) (f32_vec [-2]) = Ok (f32_mat [[0]])
  /\ linearCUBLAS (f32_mat [[1]]) (CpuReference.transpose (f32_mat [[1]]))
       (f32_vec [-2]) (CublasHandle 0) idle_device
     = Done (f32_mat [[-1]]) (State ∅ ∅ [] trace_1x1)
  /\ f32_mat [[0]] <> f32_mat [[-1]].
Proof.
  split; [vm_compute; reflexivity|]. split; [vm_compute; reflexivity|].
  vm_compute. discriminate.
Qed.

(** ** [linearCUBLAS] when a host allocation fails *)

Section ExceptionProofs.
Context {F : Type} `{FloatOps F}.

Lemma reassemble_exc_loop_no_failure (alloc_ok : nat -> bool) hb outputDim l
  (acc : list (list F)) st :
  (forall k, alloc_ok k = true) ->
  dev_foldM (fun i acc =>
      match acc with
      | None => mret None
      | Some output =>
          first ← lift (int_arith (i * outputDim));
          last ← lift (int_arith ((i + 1) * outputDim));
          if alloc_ok (5 + Z.to_nat i)%nat then
            row ← host_read_range hb first last;
            mret (Some (<[Z.to_nat i := row]> output))
          else mret None
      end) l (Some acc) st
  = returns (dev_foldM (fun i output =>
      first ← lift (int_arith (i * outputDim));
      last ← lift (int_arith ((i + 1) * outputDim));
      row ← host_read_range hb first last;
      mret (<[Z.to_nat i := row]> output)) l acc st).
Proof.
  intros Hok. revert acc st. induction l as [|i l IH]; intros acc st; [done|].
  cbn [dev_foldM]. rewrite Hok. unfold mbind, dev_bind at 1 5.
  unfold mbind, dev_bind.
  destruct (lift (int_arith (i * outputDim)) st) as [first st1|]; [|done].
  destruct (lift (int_arith ((i + 1) * outputDim)) st1) as [last st2|]; [|done].
  destruct (host_read_range hb first last st2) as [row st3|]; [|done].
  apply IH.
Qed.

Lemma reassemble_exc_no_failure (alloc_ok : nat -> bool) hb batchSize outputDim
  (st : state F) :
  (forall k, alloc_ok k = true) ->
  reassemble_exc alloc_ok hb batchSize outputDim st
  = returns (reassemble hb batchSize outputDim st).
Proof.
  intros Hok. unfold reassemble_exc, reassemble. rewrite Hok.
  by apply reassemble_exc_loop_no_failure.
Qed.

(** With every allocation succeeding, the call is [linearCUBLAS]. *)
Lemma linearCUBLAS_exc_no_failure (alloc_ok : nat -> bool)
  (input weights : list (list F)) (bias : list F) handle (st : state F) :
  (forall k, alloc_ok k = true) ->
  linearCUBLAS_exc alloc_ok input weights bias handle st
  = returns (linearCUBLAS input weights bias handle st).
Proof.
  intros Hok. unfold linearCUBLAS_exc, linearCUBLAS. unfold mbind, dev_bind.
  destruct (lift (linearCUBLAS_dims input weights) st)
    as [[[batchSize inputDim] outputDim] st0|]; [|done].
  do 3 lazymatch goal with
       | |- context [match lift ?r ?s with Done _ _ => _ | Abort _ _ => _ end] =>
           destruct (lift r s) as [? ?|]; [|done]
       end.
  rewrite !Hok. cbn [andb].
  repeat lazymatch goal with
         | |- match ?X with Done _ _ => _ | Abort _ _ => _ end = _ =>
             destruct X as [? ?|]; [|done]
         end.
  rewrite reassemble_exc_no_failure by done.
  lazymatch goal with
  | |- context [reassemble ?hb ?bs ?od ?s] =>
      destruct (reassemble hb bs od s) as [output ?|]; [|done]
  end.
  cbn [returns].
  repeat lazymatch goal with
         | |- match ?X with Done _ _ => _ | Abort _ _ => _ end = _ =>
             destruct X as [? ?|]; [|done]
         end.
  done.
Qed.


(** A call that returns has met no failing allocation. *)
Lemma reassemble_exc_loop_returns (alloc_ok : nat -> bool) hb outputDim l
  (acc : option (list (list F))) st out st' :
  dev_foldM (fun i acc =>
      match acc with
      | None => mret None
      | Some output =>
          first ← lift (int_arith (i * outputDim));
          last ← lift (int_arith ((i + 1) * outputDim));
          if alloc_ok (5 + Z.to_nat i)%nat then
            row ← host_read_range hb first last;
            mret (Some (<[Z.to_nat i := row]> output))
          else mret None
      end) l acc st
  = Done (Some out) st' ->
  exists acc0,
    acc = Some acc0
    /\ dev_foldM (fun i output =>
         first ← lift (int_arith (i * outputDim));
         last ← lift (int_arith ((i + 1) * outputDim));
         row ← host_read_range hb first last;
         mret (<[Z.to_nat i := row]> output)) l acc0 st
       = Done out st'.
Proof.
  revert acc st. induction l as [|i l IH]; intros acc st.
  - intros [= -> ->]. by exists out.
  - cbn [dev_foldM]. intros Hrun.
    apply dev_bind_inv in Hrun as (acc1 & st1 & Hstep & Hrun).
    apply IH in Hrun as (acc1' & -> & Hrun).
    destruct acc as [acc0|]; [|done]. exists acc0. split; [done|].
    apply dev_bind_inv in Hstep as (first & st2 & Hfirst & Hstep).
    apply dev_bind_inv in Hstep as (last & st3 & Hlast & Hstep).
    destruct (alloc_ok _); [|done].
    apply dev_bind_inv in Hstep as (row & st4 & Hread & Hstep).
    injection Hstep as <- <-.
    erewrite dev_bind_Done; [exact Hrun|].
    erewrite dev_bind_Done by exact Hfirst.
    erewrite dev_bind_Done by exact Hlast.
    erewrite dev_bind_Done by exact Hread.
    reflexivity.
Qed.

Lemma reassemble_exc_returns (alloc_ok : nat -> bool) hb batchSize outputDim
  (st : state F) out st' :
  reassemble_exc alloc_ok hb batchSize outputDim st = Done (Some out) st' ->
  reassemble hb batchSize outputDim st = Done out st'.
Proof.
  unfold reassemble_exc, reassemble. destruct (alloc_ok 4%nat); [|done].
  intros (acc0 & [= <-] & Hrun)%reassemble_exc_loop_returns. exact Hrun.
Qed.

Lemma linearCUBLAS_exc_returns (alloc_ok : nat -> bool)
  (input weights : list (list F)) (bias : list F) handle (st : state F)
  output st' :
  linearCUBLAS_exc alloc_ok input weights bias handle st = Done (Some output) st' ->
  linearCUBLAS input weights bias handle st = Done output st'.
Proof.
  unfold linearCUBLAS_exc, linearCUBLAS. unfold mbind, dev_bind.
  destruct (lift (linearCUBLAS_dims input weights) st)
    as [[[batchSize inputDim] outputDim] st0|]; [|done].
  do 3 lazymatch goal with
       | |- context [match lift ?r ?s with Done _ _ => _ | Abort _ _ => _ end] =>
           destruct (lift r s) as [? ?|]; [|done]
       end.
  destruct (_ && _); [|done].
  repeat lazymatch goal with
         | |- match reassemble_exc _ _ _ _ _ with Done _ _ => _ | Abort _ _ => _ end
              = _ -> _ => fail
         | |- match ?X with Done _ _ => _ | Abort _ _ => _ end = _ -> _ =>
             destruct X as [? ?|]; [|done]
         end.
  lazymatch goal with
  | |- context [reassemble_exc ?a ?hb ?bs ?od ?s] =>
      destruct (reassemble_exc a hb bs od s) as [[rows|] ?|] eqn:Hre; [| |done]
  end.
  - rewrite (reassemble_exc_returns _ _ _ _ _ _ _ Hre).
    repeat lazymatch goal with
           | |- match ?X with Done _ _ => _ | Abort _ _ => _ end = _ -> _ =>
               destruct X as [? ?|]; [|done]
           end.
    by intros [= <- <-].
  - lazymatch goal with
    | |- match ?X with Done _ _ => _ | Abort _ _ => _ end = _ -> _ =>
        destruct X as [? ?|]; [|done]
    end. done.
Qed.


(** Device routines keep every buffer allocated. *)
Lemma dev_store_live (h h' : dmem F) p i v q :
  dev_store h p i v = Ok h' -> is_Some (h !! q) -> is_Some (h' !! q).
Proof.
  intros (buf & _ & _ & _ & ->)%dev_store_inv Hq.
  apply lookup_insert_is_Some. destruct (decide (p = q)); auto.
Qed.

Lemma cublasSgemm_live handle ta tb m n k (alpha : F) A lda B ldb beta C ldc
  (h h' : dmem F) q :
  cublasSgemm handle ta tb m n k alpha A lda B ldb beta C ldc h = Ok h' ->
  is_Some (h !! q) -> is_Some (h' !! q).
Proof.
  intros Hrun. unfold cublasSgemm in Hrun.
  destruct (gemm_valid _ _ _ _ _ _ _ _); [|by injection Hrun as <-].
  revert Hrun. unfold for_loop at 1.
  apply (foldM_rel (fun h1 h2 : dmem F => is_Some (h1 !! q) -> is_Some (h2 !! q)));
    [done|by auto|].
  intros j h1 h2. unfold for_loop.
  apply (foldM_rel (fun h1 h2 : dmem F => is_Some (h1 !! q) -> is_Some (h2 !! q)));
    [done|by auto|].
  intros i h3 h4. unfold gemm_entry.
  destruct (gemm_dot _ _ _ _ _ _ _ _ _ _) as [acc|]; simpl; [|done].
  destruct (if feqb beta fzero then _ else _) as [v|]; simpl; [|done].
  apply dev_store_live.
Qed.

Lemma launch_addBiasEfficient_live gridDim blockDim output bias batchSize
  outputDim (h h' : dmem F) q :
  launch_addBiasEfficient gridDim blockDim output bias batchSize outputDim h = Ok h' ->
  is_Some (h !! q) -> is_Some (h' !! q).
Proof.
  unfold launch_addBiasEfficient, launch_sched.
  apply (foldM_rel (fun h1 h2 : dmem F => is_Some (h1 !! q) -> is_Some (h2 !! q)));
    [done|by auto|].
  intros [b t] h1 h2. rewrite addBiasEfficient_unfold. unfold addBiasEfficient_body.
  destruct (_ && _); [|by intros [= <-]].
  destruct (int_arith _) as [scaled|]; simpl; [|done].
  destruct (int_arith _) as [idx|]; simpl; [|done].
  destruct (dev_load h1 output idx) as [o|]; simpl; [|done].
  destruct (dev_load h1 bias _) as [b'|]; simpl; [|done].
  apply dev_store_live.
Qed.

(** The reassembly, whether it completes or throws, only reads. *)
Lemma reassemble_exc_loop_inv (alloc_ok : nat -> bool) hb outputDim l
  (acc : option (list (list F))) st r st' :
  dev_foldM (fun i acc =>
      match acc with
      | None => mret None
      | Some output =>
          first ← lift (int_arith (i * outputDim));
          last ← lift (int_arith ((i + 1) * outputDim));
          if alloc_ok (5 + Z.to_nat i)%nat then
            row ← host_read_range hb first last;
            mret (Some (<[Z.to_nat i := row]> output))
          else mret None
      end) l acc st
  = Done r st' ->
  exists reads : nat,
    st' = State (device st) (hostmem st) (inflight st)
                (trace st ++ replicate reads (EvHostRead hb)).
Proof.
  revert acc st. induction l as [|i l IH]; intros acc st.
  - intros [= <- <-]. exists 0%nat. destruct st. simpl. by rewrite app_nil_r.
  - cbn [dev_foldM]. intros Hrun.
    apply dev_bind_inv in Hrun as (acc1 & st1 & Hstep & Hrun).
    apply IH in Hrun as (reads & ->).
    destruct acc as [acc0|]; [|injection Hstep as <- <-; by exists reads].
    apply dev_bind_inv in Hstep as (first & st2 & Hfirst & Hstep).
    apply lift_inv in Hfirst as [_ ->].
    apply dev_bind_inv in Hstep as (last & st2 & Hlast & Hstep).
    apply lift_inv in Hlast as [_ ->].
    destruct (alloc_ok _); [|injection Hstep as <- <-; by exists reads].
    apply dev_bind_inv in Hstep as (row & st2 & Hread & Hstep).
    apply host_read_range_inv in Hread as [-> _].
    injection Hstep as <- <-. exists (S reads). simpl.
    by rewrite <- app_assoc.
Qed.

Lemma reassemble_exc_inv (alloc_ok : nat -> bool) hb batchSize outputDim
  (st : state F) r st' :
  reassemble_exc alloc_ok hb batchSize outputDim st = Done r st' ->
  exists reads : nat,
    st' = State (device st) (hostmem st) (inflight st)
                (trace st ++ replicate reads (EvHostRead hb)).
Proof.
  unfold reassemble_exc. destruct (alloc_ok 4%nat).
  - apply reassemble_exc_loop_inv.
  - intros [= <- <-]. exists 0%nat. destruct st. simpl. by rewrite app_nil_r.
Qed.

(** A call that an exception leaves: either nothing was issued, or the
    four buffers are still allocated and no free was issued. *)
Lemma linearCUBLAS_exc_thrown (alloc_ok : nat -> bool)
  (input weights : list (list F)) (bias : list F) handle (st st' : state F) :
  linearCUBLAS_exc alloc_ok input weights bias handle st = Done None st' ->
  st' = st
  \/ exists batchSize inputDim outputDim d_input d_weights d_bias d_output
            (reads : nat),
       NoDup [d_input; d_weights; d_bias; d_output]
       /\ Forall (fun p => device st !! p = None /\ is_Some (device st' !! p))
            [d_input; d_weights; d_bias; d_output]
       /\ trace st'
          = trace st
            ++ linearCUBLAS_trace_thrown d_input d_weights d_bias d_output
                 (fresh (dom (hostmem st))) batchSize inputDim outputDim
                 (Z.of_nat (length bias)) reads.
Proof.
  unfold linearCUBLAS_exc. intros Hrun.
  apply dev_bind_inv in Hrun as ([[batchSize inputDim] outputDim] & st1 & Hl & Hrun).
  apply lift_inv in Hl as [Hdims ->].
  apply dev_bind_inv in Hrun as (inputSize & st1 & Hl & Hrun).
  apply lift_inv in Hl as [[-> _]%int_arith_inv ->].
  apply dev_bind_inv in Hrun as (weightSize & st1 & Hl & Hrun).
  apply lift_inv in Hl as [[-> _]%int_arith_inv ->].
  apply dev_bind_inv in Hrun as (outputSize & st1 & Hl & Hrun).
  apply lift_inv in Hl as [[-> _]%int_arith_inv ->].
  destruct (_ && _); [right|left; by injection Hrun as <-].
  apply dev_bind_inv in Hrun as (flatOutput & st1 & Hl & Hrun).
  rewrite host_vector_run in Hl. injection Hl as <- <-.
  set (h0 := device st) in *.
  apply dev_bind_inv in Hrun as (d_input & st1 & Hl & Hrun).
  rewrite cudaMallocAsync_run in Hl. injection Hl as <- <-. simpl in Hrun.
  set (d_input := fresh (dom h0)) in *.
  set (h1 := <[d_input := _]> h0) in *.
  apply dev_bind_inv in Hrun as (d_weights & st1 & Hl & Hrun).
  rewrite cudaMallocAsync_run in Hl. injection Hl as <- <-. simpl in Hrun.
  set (d_weights := fresh (dom h1)) in *.
  set (h2 := <[d_weights := _]> h1) in *.
  apply dev_bind_inv in Hrun as (d_bias & st1 & Hl & Hrun).
  rewrite cudaMallocAsync_run in Hl. injection Hl as <- <-. simpl in Hrun.
  set (d_bias := fresh (dom h2)) in *.
  set (h3 := <[d_bias := _]> h2) in *.
  apply dev_bind_inv in Hrun as (d_output & st1 & Hl & Hrun).
  rewrite cudaMallocAsync_run in Hl. injection Hl as <- <-. simpl in Hrun.
  set (d_output := fresh (dom h3)) in *.
  set (h4 := <[d_output := _]> h3) in *.
  assert (h0 !! d_input = None) as Hf1 by apply fresh_lookup_None.
  assert (h1 !! d_weights = None) as Hf2 by apply fresh_lookup_None.
  assert (h2 !! d_bias = None) as Hf3 by apply fresh_lookup_None.
  assert (h3 !! d_output = None) as Hf4 by apply fresh_lookup_None.
  assert (d_weights ≠ d_input) as Hn21.
  { intros Heq. rewrite Heq in Hf2. unfold h1 in Hf2. by rewrite lookup_insert_eq in Hf2. }
  assert (d_bias ≠ d_weights) as Hn32.
  { intros Heq. rewrite Heq in Hf3. unfold h2 in Hf3. by rewrite lookup_insert_eq in Hf3. }
  assert (d_bias ≠ d_input) as Hn31.
  { intros Heq. rewrite Heq in Hf3. unfold h2, h1 in Hf3.
    by rewrite lookup_insert_ne, lookup_insert_eq in Hf3. }
  assert (d_output ≠ d_bias) as Hn43.
  { intros Heq. rewrite Heq in Hf4. unfold h3 in Hf4. by rewrite lookup_insert_eq in Hf4. }
  assert (d_output ≠ d_weights) as Hn42.
  { intros Heq. rewrite Heq in Hf4. unfold h3, h2 in Hf4.
    by rewrite lookup_insert_ne, lookup_insert_eq in Hf4. }
  assert (d_output ≠ d_input) as Hn41.
  { intros Heq. rewrite Heq in Hf4. unfold h3, h2, h1 in Hf4.
    rewrite lookup_insert_ne in Hf4 by done.
    rewrite lookup_insert_ne in Hf4 by done.
    by rewrite lookup_insert_eq in Hf4. }
  assert (forall p, p ∈ [d_input; d_weights; d_bias; d_output] -> is_Some (h4 !! p))
    as Hlive4.
  { intros p Hp. rewrite !elem_of_cons, elem_of_nil in Hp.
    destruct Hp as [->|[->|[->|[->|[]]]]]; unfold h4, h3, h2, h1;
      rewrite ?lookup_insert_ne by done; by rewrite lookup_insert_eq. }
  apply dev_bind_inv in Hrun as (u & st1 & Hl & Hrun).
  apply cudaMemcpyAsync_H2D_inv in Hl as (b1 & b1' & _ & ->). simpl in Hrun.
  apply dev_bind_inv in Hrun as (u2 & st1 & Hl & Hrun).
  apply cudaMemcpyAsync_H2D_inv in Hl as (b2 & b2' & _ & ->). simpl in Hrun.
  apply dev_bind_inv in Hrun as (u3 & st1 & Hl & Hrun).
  apply cudaMemcpyAsync_H2D_inv in Hl as (b3 & b3' & _ & ->). simpl in Hrun.
  apply dev_bind_inv in Hrun as (u4 & st1 & Hl & Hrun).
  apply run_cublasSgemm_inv in Hl as (h8 & Hgemm & ->). simpl in Hrun, Hgemm.
  apply dev_bind_inv in Hrun as (bx & st1 & Hl & Hrun).
  apply lift_inv in Hl as [[-> _]%int_arith_inv ->].
  apply dev_bind_inv in Hrun as (by_ & st1 & Hl & Hrun).
  apply lift_inv in Hl as [[-> _]%int_arith_inv ->].
  apply dev_bind_inv in Hrun as (u5 & st1 & Hl & Hrun).
  apply run_addBiasEfficient_inv in Hl as (h9 & Hlaunch & ->). simpl in Hrun, Hlaunch.
  apply dev_bind_inv in Hrun as (u6 & st1 & Hl & Hrun).
  apply cudaMemcpyAsync_D2H_inv in Hl as (vs & ->). simpl in Hrun.
  apply dev_bind_inv in Hrun as (u7 & st1 & Hl & Hrun).
  rewrite cudaStreamSynchronize_run in Hl. injection Hl as <- <-. simpl in Hrun.
  apply dev_bind_inv in Hrun as (r & st1 & Hl & Hrun).
  apply reassemble_exc_inv in Hl as (reads & ->). simpl in Hrun.
  destruct r as [rows|].
  { do 5 (apply dev_bind_inv in Hrun as (? & ? & _ & Hrun)). done. }
  apply dev_bind_inv in Hrun as (u8 & st1 & Hl & Hrun).
  rewrite host_vector_destroy_run in Hl. injection Hl as <- <-. simpl in Hrun.
  injection Hrun as <-. simpl.
  assert (h0 !! d_weights = None) as Hg2.
  { unfold h1 in Hf2. by rewrite lookup_insert_ne in Hf2 by done. }
  assert (h0 !! d_bias = None) as Hg3.
  { unfold h2, h1 in Hf3. by rewrite !lookup_insert_ne in Hf3 by done. }
  assert (h0 !! d_output = None) as Hg4.
  { unfold h3, h2, h1 in Hf4. by rewrite !lookup_insert_ne in Hf4 by done. }
  assert (forall p, p ∈ [d_input; d_weights; d_bias; d_output] -> is_Some (h9 !! p))
    as Hlive9.
  { intros p Hp.
    apply (launch_addBiasEfficient_live _ _ _ _ _ _ _ _ p Hlaunch).
    apply (cublasSgemm_live _ _ _ _ _ _ _ _ _ _ _ _ _ _ _ _ p Hgemm).
    rewrite !lookup_insert_is_Some'. right. right. right. by apply Hlive4. }
  exists batchSize, inputDim, outputDim, d_input, d_weights, d_bias, d_output, reads.
  split.
  { repeat constructor; rewrite ?elem_of_cons, ?elem_of_nil; intuition congruence. }
  split.
  { repeat constructor; try done; apply Hlive9; rewrite !elem_of_cons; auto 10. }
  unfold linearCUBLAS_trace_thrown. by rewrite <- !app_assoc.
Qed.

End ExceptionProofs.

Lemma linearCUBLAS_trace_thrown_mallocs p1 p2 p3 p4 hb bs id od bn reads p :
  p ∈ [p1; p2; p3; p4] ->
  (exists n, EvMalloc p n ∈ linearCUBLAS_trace_thrown p1 p2 p3 p4 hb bs id od bn reads)
  /\ EvFree p ∉ linearCUBLAS_trace_thrown p1 p2 p3 p4 hb bs id od bn reads.
Proof.
  intros Hp. unfold linearCUBLAS_trace_thrown. split.
  - rewrite !elem_of_cons, elem_of_nil in Hp.
    destruct Hp as [->|[->|[->|[->|[]]]]]; eexists; apply elem_of_app; left;
      rewrite !elem_of_cons; eauto 10.
  - intros [Hin|Hin]%elem_of_app.
    + rewrite !elem_of_cons, elem_of_nil in Hin. intuition discriminate.
    + by apply elem_of_replicate in Hin as [? _].
Qed.

(** C7, as the code has it.  A call of [linearCUBLAS] that returns has
    freed what it allocated: device memory is what it was at the call, the
    four buffers were not live before, are pairwise distinct, and each
    allocation in the call's trace is followed by the free of the same
    buffer.  A call that an exception leaves has freed nothing: either no
    device operation was issued (the allocation that failed is one of
    lines 84-94), or the four buffers of lines 98-101 are still allocated
    at the exit and no free is among the issued operations (the allocation
    that failed is one of lines 132-134). *)
Theorem linearCUBLAS_frees_on_return_only `{FloatOps F} (alloc_ok : nat -> bool)
  (input weights : list (list F)) (bias : list F) (handle : cublasHandle_t)
  (st st' : state F) (r : option (list (list F))) :
  linearCUBLAS_exc alloc_ok input weights bias handle st = Done r st' ->
  match r with
  | Some output =>
      linearCUBLAS input weights bias handle st = Done output st'
      /\ device st' = device st
      /\ exists new d_input d_weights d_bias d_output batchSize inputDim outputDim,
           trace st' = trace st ++ new
           /\ new = linearCUBLAS_trace d_input d_weights d_bias d_output
                      (fresh (dom (hostmem st))) batchSize inputDim outputDim
                      (Z.of_nat (length bias))
           /\ NoDup [d_input; d_weights; d_bias; d_output]
           /\ Forall (fun p => device st !! p = None)
                [d_input; d_weights; d_bias; d_output]
           /\ forall p n, EvMalloc p n ∈ new ->
                exists before after,
                  new = before ++ EvMalloc p n :: after /\ EvFree p ∈ after
  | None =>
      st' = st
      \/ exists new d_input d_weights d_bias d_output,
           trace st' = trace st ++ new
           /\ NoDup [d_input; d_weights; d_bias; d_output]
           /\ Forall (fun p => device st !! p = None
                               /\ is_Some (device st' !! p)
                               /\ (exists n, EvMalloc p n ∈ new)
                               /\ EvFree p ∉ new)
                [d_input; d_weights; d_bias; d_output]
  end.
Proof.
  intros Hrun. destruct r as [output|].
  - apply linearCUBLAS_exc_returns in Hrun. split; [done|].
    destruct (linearCUBLAS_inv _ _ _ _ _ _ _ Hrun)
      as (bs & id & od & p1 & p2 & p3 & p4 & _ & H1 & H2 & H3 & H4 & Hnd & Hdev & Htr).
    split; [done|].
    exists (linearCUBLAS_trace p1 p2 p3 p4 (fresh (dom (hostmem st))) bs id od
              (Z.of_nat (length bias))), p1, p2, p3, p4, bs, id, od.
    split; [done|]. split; [done|]. split; [done|]. split.
    { by repeat constructor. }
    intros p n. apply linearCUBLAS_trace_frees.
  - apply linearCUBLAS_exc_thrown in Hrun
      as [->|(bs & id & od & p1 & p2 & p3 & p4 & reads & Hnd & Hlive & Htr)];
      [by left|right].
    eexists _, p1, p2, p3, p4. split; [exact Htr|]. split; [done|].
    apply Forall_forall. intros p Hp.
    destruct (proj1 (Forall_forall _ _) Hlive p Hp) as [Hfresh Hstill].
    split; [done|]. split; [done|].
    by apply linearCUBLAS_trace_thrown_mallocs.
Qed.

Lemma linearCUBLAS_frees_on_return_only_witness :
  linearCUBLAS_exc fails_at_line_132 (f32_mat [[1]]) (f32_mat [[1]])
    (f32_vec [-2]) (CublasHandle 0) idle_device = Done None leaked_1x1
  /\ (leaked_1x1 = idle_device
      \/ exists new d_input d_weights d_bias d_output,
           trace leaked_1x1 = trace idle_device ++ new
           /\ NoDup [d_input; d_weights; d_bias; d_output]
           /\ Forall (fun p => device idle_device !! p = None
                               /\ is_Some (device leaked_1x1 !! p)
                               /\ (exists n, EvMalloc p n ∈ new)
                               /\ EvFree p ∉ new)
                [d_input; d_weights; d_bias; d_output]).
Proof.
  assert (linearCUBLAS_exc fails_at_line_132 (f32_mat [[1]]) (f32_mat [[1]])
            (f32_vec [-2]) (CublasHandle 0) idle_device = Done None leaked_1x1)
    as Hrun by (vm_compute; reflexivity).
  split; [exact Hrun|].
  exact (linearCUBLAS_frees_on_return_only _ _ _ _ _ _ _ _ Hrun).
Defined.

(** C7, as stated, fails: when the host allocation of line 132 fails in the
    call on the 1 by 1 problem, the exception leaves the call with the four
    device buffers allocated, on a device that held nothing at the call, and
    no free was issued. *)
Lemma linearCUBLAS_leaks_on_exception_counterexample :
  linearCUBLAS_exc fails_at_line_132 (f32_mat [[1]]) (f32_mat [[1]])
    (f32_vec [-2]) (CublasHandle 0) idle_device = Done None leaked_1x1
  /\ device idle_device = ∅
  /\ dom (device leaked_1x1) = {[ 0%nat; 1%nat; 2%nat; 3%nat ]}
  /\ device leaked_1x1 <> device idle_device
  /\ Forall (fun e => is_free e = false) (trace leaked_1x1).
Proof.
  split; [vm_compute; reflexivity|]. split; [reflexivity|].
  split; [|split].
  - unfold leaked_1x1. simpl. set_solver.
  - intros Heq. apply (f_equal (fun h => h !! 0%nat)) in Heq. done.
  - repeat constructor.
Qed.

(** ** [softmax] in exact arithmetic *)

Section SoftmaxProofs.
Local Open Scope R_scope.

















End SoftmaxProofs.



(** * Further properties of the code *)

(** ** [sigmoid] and [sigmoidBatch] *)

Section SigmoidProofs.
Context {F : Type} `{FloatOps F} `{SigmoidOps F}.

Lemma sigmoid_loop (acc z : list F) :
  foldl (fun output val => output ++ [sigmoid_value val]) acc z
  = acc ++ map sigmoid_value z.
Proof.
  revert acc. induction z as [|v z IH]; intros acc; simpl.
  - by rewrite app_nil_r.
  - rewrite IH. by rewrite <- app_assoc.
Qed.

Lemma sigmoid_map (z : list F) : sigmoid z = map sigmoid_value z.
Proof. unfold sigmoid. by rewrite sigmoid_loop. Qed.

Lemma sigmoidBatch_at_Ok (matrix : list (list F)) (i : nat) row old output :
  matrix !! i = Some row -> output !! i = Some old ->
  sigmoidBatch_at matrix (Z.of_nat i) output = Ok (<[i := sigmoid row]> output).
Proof.
  intros Hrow Hold. unfold sigmoidBatch_at.
  rewrite (vec_at_Ok matrix i row Hrow). simpl.
  rewrite (vec_at_Ok output i old Hold). simpl.
  by rewrite Nat2Z.id.
Qed.

(** The parallel loop of [sigmoidBatch] after the iterations [sched], from
    any [output] of the right size: the rows of [sched] hold their result,
    the others are as before. *)
Lemma sigmoidBatch_loop (matrix : list (list F)) sched (output : list (list F)) :
  length output = length matrix ->
  (forall i, i ∈ sched -> 0 <= i < Z.of_nat (length matrix)) ->
  exists output',
    omp_parallel_for sched (sigmoidBatch_at matrix) output = Ok output'
    /\ length output' = length matrix
    /\ forall j : nat,
         (Z.of_nat j ∈ sched -> output' !! j = sigmoid <$> matrix !! j)
         /\ (Z.of_nat j ∉ sched -> output' !! j = output !! j).
Proof.
  unfold omp_parallel_for. revert output.
  induction sched as [|i sched IH]; intros output Hlen Hrange.
  - exists output. split; [done|]. split; [done|]. intros j.
    split; [|done]. intros Hin. by apply elem_of_nil in Hin.
  - destruct (Hrange i) as [Hi0 HiM]; [apply list_elem_of_here|].
    remember (Z.to_nat i) as i' eqn:Hi'.
    assert (i = Z.of_nat i') as -> by lia. clear Hi'.
    destruct (lookup_lt_is_Some_2 matrix i') as [row Hrow]; [lia|].
    destruct (lookup_lt_is_Some_2 output i') as [old Hold]; [lia|].
    destruct (IH (<[i' := sigmoid row]> output)) as (output' & Hrun & Hlen' & Hget).
    { by rewrite length_insert. }
    { intros j Hj. apply Hrange. by apply list_elem_of_further. }
    exists output'. split; [|split; [done|]].
    + cbn [foldM]. by rewrite (sigmoidBatch_at_Ok matrix i' row old output).
    + intros j. destruct (Hget j) as [Hin Hout].
      destruct (decide (Z.of_nat j ∈ sched)) as [Hj|Hj].
      * split; [intros _; by apply Hin|].
        intros Hnot. exfalso. apply Hnot. by apply list_elem_of_further.
      * rewrite (Hout Hj). destruct (decide (i' = j)) as [<-|Hne].
        -- rewrite list_lookup_insert_eq by lia. rewrite Hrow.
           split; [done|]. intros Hnot. exfalso. apply Hnot. apply list_elem_of_here.
        -- rewrite list_lookup_insert_ne by done. split; [|done].
           rewrite elem_of_cons. intros [Heq|?]; [lia|done].
Qed.

(** Every iteration run at least once, in any order. *)
Lemma sigmoidBatch_sched_cover (matrix : list (list F)) sched :
  (forall i, i ∈ sched -> 0 <= i < Z.of_nat (length matrix)) ->
  (forall i : nat, (i < length matrix)%nat -> Z.of_nat i ∈ sched) ->
  sigmoidBatch_sched sched matrix = Ok (map sigmoid matrix).
Proof.
  intros Hrange Hcover. unfold sigmoidBatch_sched.
  destruct (sigmoidBatch_loop matrix sched (replicate (length matrix) []))
    as (output' & Hrun & Hlen & Hget); [by rewrite length_replicate|done|].
  rewrite Hrun. f_equal. apply list_eq. intros j.
  rewrite list_lookup_fmap.
  destruct (decide (j < length matrix)%nat) as [Hj|Hj].
  - by apply Hget, Hcover.
  - rewrite (lookup_ge_None_2 matrix j) by lia. simpl.
    apply lookup_ge_None_2. lia.
Qed.

End SigmoidProofs.

(** X1.  [sigmoid] returns one value for every element of its argument, in
    the order of the argument: the result has the length of [z], its entry
    [j] is [1 / (1 + exp(-z[j]))], and the result on a concatenation is the
    concatenation of the results. *)
Theorem sigmoid_elementwise `{FloatOps F} `{SigmoidOps F} (z z' : list F) :
  length (sigmoid z) = length z
  /\ (forall j, sigmoid z !! j = sigmoid_value <$> z !! j)
  /\ sigmoid (z ++ z') = sigmoid z ++ sigmoid z'.
Proof.
  rewrite !sigmoid_map. split; [by rewrite length_map|]. split.
  - intros j. by rewrite list_lookup_fmap.
  - by rewrite map_app.
Qed.

(** X2.  [sigmoidBatch] does not depend on the order in which the parallel
    loop runs its iterations: for a matrix of at most [INT_MAX] rows, of any
    row lengths (empty and ragged matrices included), every order of the
    iterations returns the same matrix; it has the shape of the argument and
    its entry [(i, j)] is [1 / (1 + exp(-matrix[i][j]))]. *)
Theorem sigmoidBatch_any_schedule `{FloatOps F} `{SigmoidOps F}
  (matrix : list (list F)) (sched : list Z) :
  sched ≡ₚ seqZ 0 (Z.of_nat (length matrix)) ->
  Z.of_nat (length matrix) <= INT_MAX ->
  exists output,
    sigmoidBatch_sched sched matrix = Ok output
    /\ sigmoidBatch matrix = Ok output
    /\ length output = length matrix
    /\ (forall i row, matrix !! i = Some row ->
          exists out_row, output !! i = Some out_row
                          /\ length out_row = length row)
    /\ forall i j, entry output i j = sigmoid_value <$> entry matrix i j.
Proof.
  intros Hperm Hmax. exists (map sigmoid matrix).
  assert (forall s, s ≡ₚ seqZ 0 (Z.of_nat (length matrix)) ->
                    sigmoidBatch_sched s matrix = Ok (map sigmoid matrix)) as Hany.
  { intros s Hs. apply sigmoidBatch_sched_cover.
    - intros i. rewrite Hs, elem_of_seqZ. lia.
    - intros i Hi. rewrite Hs, elem_of_seqZ. lia. }
  split; [by apply Hany|]. split.
  { unfold sigmoidBatch. rewrite int_of_size_Ok by done. simpl. by apply Hany. }
  split; [by rewrite length_map|]. split.
  - intros i row Hrow. exists (sigmoid row). rewrite list_lookup_fmap, Hrow.
    split; [done|]. by rewrite sigmoid_map, length_map.
  - intros i j. unfold entry. rewrite list_lookup_fmap.
    destruct (matrix !! i) as [row|]; simpl; [|done].
    by rewrite sigmoid_map, list_lookup_fmap.
Qed.

Lemma sigmoidBatch_any_schedule_witness :
  exists output,
    sigmoidBatch_sched (F:=R) [1; 0] [[0%R]; [1%R; 2%R]] = Ok output
    /\ sigmoidBatch (F:=R) [[0%R]; [1%R; 2%R]] = Ok output
    /\ length output = 2%nat.
Proof.
  destruct (sigmoidBatch_any_schedule (F:=R) [[0%R]; [1%R; 2%R]] [1; 0])
    as (output & Hsched & Hseq & Hlen & _).
  - apply perm_swap.
  - unfold INT_MAX. simpl. lia.
  - exists output. split; [exact Hsched|]. split; [exact Hseq|exact Hlen].
Defined.

(** ** The bias of [linear] *)

Section LinearBias.
Context {F : Type} `{FloatOps F}.

Lemma vec_at_ge {A} (v : list A) (i : Z) :
  Z.of_nat (length v) <= i -> vec_at v i = Fault OutOfBounds.
Proof.
  intros Hi. unfold vec_at. destruct (Z.ltb_spec i 0); [done|].
  by rewrite lookup_ge_None_2 by lia.
Qed.

Lemma length_bias_prefix (k : nat) (bias row : list F) :
  (k <= length row)%nat -> (k <= length bias)%nat ->
  length (bias_prefix k bias row) = length row.
Proof.
  intros. unfold bias_prefix.
  rewrite length_app, length_zip_with, !length_take, length_drop. lia.
Qed.

Lemma add_bias_at_short bias (i j : nat) (out : list (list F)) row x :
  out !! i = Some row -> row !! j = Some x -> (length bias <= j)%nat ->
  add_bias_at bias (Z.of_nat i) (Z.of_nat j) out = Fault OutOfBounds.
Proof.
  intros Hrow Hx Hj. unfold add_bias_at.
  rewrite (vec_at_Ok out i row Hrow). simpl.
  rewrite (vec_at_Ok row j x Hx). simpl.
  by rewrite vec_at_ge by lia.
Qed.

(** The inner loop of [linear] reads [bias[j]] for every column of the row. *)
Lemma add_bias_row_short_bias bias (i : nat) (out : list (list F)) row (N : nat) :
  out !! i = Some row -> length row = N -> (length bias < N)%nat ->
  add_bias_row (Z.of_nat N) bias (Z.of_nat i) out = Fault OutOfBounds.
Proof.
  intros Hrow Hlen Hshort.
  pose proof (add_bias_row_prefix bias i out row (length bias) Hrow) as Hpre.
  unfold add_bias_row, for_loop in *.
  replace (Z.of_nat N)
    with (Z.of_nat (length bias) + (Z.of_nat N - Z.of_nat (length bias))) by lia.
  rewrite seqZ_app, foldM_app by lia.
  rewrite Hpre by lia. simpl.
  rewrite (seqZ_cons (0 + Z.of_nat (length bias))) by lia.
  cbn [foldM]. rewrite Z.add_0_l.
  pose proof (lookup_lt_Some _ _ _ Hrow).
  destruct (lookup_lt_is_Some_2 (bias_prefix (length bias) bias row) (length bias))
    as [x Hx]; [rewrite length_bias_prefix; lia|].
  rewrite (add_bias_at_short bias i (length bias) _
             (bias_prefix (length bias) bias row) x); [done| |done|lia].
  by rewrite list_lookup_insert_eq.
Qed.

Lemma add_bias_to_row_app (bias extra row : list F) :
  (length row <= length bias)%nat ->
  add_bias_to_row (bias ++ extra) row = add_bias_to_row bias row.
Proof.
  unfold add_bias_to_row. revert bias.
  induction row as [|x row IH]; intros bias Hlen; [done|].
  destruct bias as [|b bias]; simpl in *; [lia|].
  f_equal. apply IH. lia.
Qed.

End LinearBias.

(** X4.  [linear] reads [bias[j]] for every column [j] of the product without
    looking at the size of [bias]: with a bias shorter than the rows of a
    non-empty product, the first iteration of the loop that runs, whichever
    it is, reads past the end of [bias]. *)
Theorem linear_short_bias_faults `{FloatOps F} `{Syntari F}
  (input weights : list (list F)) (bias : list F) (M N : nat) :
  is_matrix M N (matmul input weights) ->
  (0 < M)%nat ->
  (length bias < N)%nat ->
  Z.of_nat M <= INT_MAX ->
  Z.of_nat N <= INT_MAX ->
  linear input weights bias = Fault OutOfBounds
  /\ forall i sched, 0 <= i < Z.of_nat M ->
       linear_bias_pass_sched (i :: sched) (Z.of_nat N) bias
         (matmul input weights) = Fault OutOfBounds.
Proof.
  intros Hm HM Hshort HMmax HNmax.
  assert (forall i sched, 0 <= i < Z.of_nat M ->
            linear_bias_pass_sched (i :: sched) (Z.of_nat N) bias
              (matmul input weights) = Fault OutOfBounds) as Hany.
  { intros i sched Hi.
    destruct (is_matrix_lookup M N (matmul input weights) (Z.to_nat i) Hm)
      as (row & Hrow & Hlen); [lia|].
    unfold linear_bias_pass_sched, omp_parallel_for. cbn [foldM].
    replace i with (Z.of_nat (Z.to_nat i)) at 1 by lia.
    by rewrite (add_bias_row_short_bias bias _ _ row N). }
  split; [|exact Hany].
  unfold linear, linear_pre, linear_dims. destruct Hm as [HlenP Hrows].
  destruct (is_matrix_lookup M N (matmul input weights) 0 (conj HlenP Hrows) HM)
    as (row0 & Hrow0 & Hlen0).
  rewrite int_of_size_Ok by lia. simpl.
  rewrite (vec_at_Ok _ 0 row0 Hrow0 : vec_at (matmul input weights) 0 = Ok row0).
  simpl. rewrite int_of_size_Ok by lia. simpl.
  unfold linear_bias_pass. rewrite Hlen0, HlenP.
  rewrite (seqZ_cons 0) by lia. rewrite Hany by lia. done.
Qed.

Lemma linear_short_bias_faults_witness :
  linear (F:=Z) [[1; 2]] [[1; 1]; [1; 1]] [5] = Fault OutOfBounds.
Proof.
  apply (linear_short_bias_faults (F:=Z) [[1; 2]] [[1; 1]; [1; 1]] [5] 1 2).
  - split; [reflexivity|repeat constructor].
  - lia.
  - simpl. lia.
  - unfold INT_MAX. lia.
  - unfold INT_MAX. lia.
Defined.

(** X5.  [linear] uses the first [output_dim] entries of [bias] only: for a
    non-empty [M] by [N] product, entries of the bias beyond the first [N]
    do not change the result. *)
Theorem linear_ignores_extra_bias `{FloatOps F} `{Syntari F}
  (input weights : list (list F)) (bias extra : list F) (M N : nat) :
  is_matrix M N (matmul input weights) ->
  (0 < M)%nat ->
  length bias = N ->
  Z.of_nat M <= INT_MAX ->
  Z.of_nat N <= INT_MAX ->
  linear_pre input weights (bias ++ extra)
  = Ok (map (add_bias_to_row bias) (matmul input weights))
  /\ linear input weights (bias ++ extra) = linear input weights bias.
Proof.
  intros Hm HM Hbias HMmax HNmax.
  assert (linear_pre input weights (bias ++ extra)
          = Ok (map (add_bias_to_row bias) (matmul input weights))) as Hpre.
  { unfold linear_pre, linear_dims. destruct Hm as [HlenP Hrows].
    destruct (is_matrix_lookup M N (matmul input weights) 0 (conj HlenP Hrows) HM)
      as (row0 & Hrow0 & Hlen0).
    rewrite int_of_size_Ok by lia. simpl.
    rewrite (vec_at_Ok _ 0 row0 Hrow0 : vec_at (matmul input weights) 0 = Ok row0).
    simpl. rewrite int_of_size_Ok by lia. simpl.
    rewrite Hlen0, HlenP. rewrite <- HlenP at 1.
    rewrite linear_bias_pass_ok; [|done|rewrite length_app; lia].
    f_equal. apply list_eq. intros i. rewrite !list_lookup_fmap.
    destruct (matmul input weights !! i) as [row|] eqn:Hrow; simpl; [|done].
    f_equal. apply add_bias_to_row_app.
    rewrite (Forall_lookup_1 _ _ _ _ Hrows Hrow). lia. }
  split; [exact Hpre|].
  unfold linear. rewrite Hpre.
  by rewrite (linear_pre_ok input weights bias M N).
Qed.

Lemma linear_ignores_extra_bias_witness :
  linear (F:=Z) [[1; 2]] [[1; 1]; [1; 1]] ([5; 6] ++ [7])
  = linear (F:=Z) [[1; 2]] [[1; 1]; [1; 1]] [5; 6].
Proof.
  apply (linear_ignores_extra_bias (F:=Z) [[1; 2]] [[1; 1]; [1; 1]] [5; 6] [7] 1 2).
  - split; [reflexivity|repeat constructor].
  - lia.
  - reflexivity.
  - unfold INT_MAX. lia.
  - unfold INT_MAX. lia.
Defined.

(** ** Launches of [addBiasEfficient] on any grid *)

Lemma thread_coords_bound gx gy bx by_ rc :
  gx * bx < 2147483648 -> gy * by_ < 2147483648 ->
  rc ∈ thread_coords (Dim3 bx by_ 1) (grid_threads (Dim3 gx gy 1) (Dim3 bx by_ 1)) ->
  rc.1 < gy * by_ /\ rc.2 < gx * bx.
Proof.
  intros Hx Hy. unfold thread_coords.
  intros ([b t] & -> & Hin)%list_elem_of_fmap. simpl.
  apply (thread_coords_grid gx gy bx by_ b t Hx Hy) in Hin
    as (-> & -> & ? & ? & ? & ? & ? & ?). nia.
Qed.

Lemma dev_load_inv `{FloatOps F} (h : dmem F) p i v :
  dev_load h p i = Ok v ->
  exists buf, h !! p = Some buf /\ 0 <= i /\ buf !! Z.to_nat i = Some (Some v).
Proof.
  unfold dev_load. destruct (h !! p) as [buf|]; [|done].
  destruct (vec_at buf i) as [c|] eqn:Hc; simpl; [|done].
  apply vec_at_inv in Hc as [Hi Hc].
  destruct c as [v'|]; [|done]. intros [= ->]. by exists buf.
Qed.

(** X6.  A launch of [addBiasEfficient] on any grid of 2-D blocks, with its
    threads in any order, adds [bias[j]] exactly once to every entry
    [(i, j)] of the matrix that has a thread, and leaves the entries the
    grid does not reach as they were. *)
Theorem addBiasEfficient_any_grid `{FloatOps F} (gx gy bx by_ : Z) (M N : nat)
  (out : list (list F)) (bias : list F) (h : dmem F) (d_output d_bias : nat)
  (sched : list (dim3 * dim3)) :
  sched ≡ₚ grid_threads (Dim3 gx gy 1) (Dim3 bx by_ 1) ->
  gx * bx < 2147483648 -> gy * by_ < 2147483648 ->
  0 < bx -> 0 < by_ ->
  is_matrix M N out ->
  (N <= length bias)%nat ->
  Z.of_nat M * Z.of_nat N <= INT_MAX ->
  h !! d_output = Some (Some <$> concat out) ->
  h !! d_bias = Some (Some <$> bias) ->
  d_output ≠ d_bias ->
  exists flat',
    launch_sched sched
      (fun b t => addBiasEfficient b (Dim3 bx by_ 1) t d_output d_bias
                    (Z.of_nat M) (Z.of_nat N)) h
    = Ok (<[d_output := Some <$> flat']> h)
    /\ length flat' = (M * N)%nat
    /\ forall (i j : nat) o b,
         entry out i j = Some o -> bias !! j = Some b ->
         flat' !! (i * N + j)%nat
         = Some (if bool_decide (Z.of_nat i < gy * by_ /\ Z.of_nat j < gx * bx)
                 then fadd o b else o).
Proof.
  intros Hperm Hx Hy Hbx Hby Hout Hbias Hmax Hpo Hpb Hne.
  destruct Hout as [HlenM Hrows].
  set (rcs := thread_coords (Dim3 bx by_ 1) sched).
  assert (rcs ≡ₚ thread_coords (Dim3 bx by_ 1)
                   (grid_threads (Dim3 gx gy 1) (Dim3 bx by_ 1))) as Hperm'.
  { unfold rcs, thread_coords. by rewrite Hperm. }
  exists (flat_add_bias (Z.of_nat N) bias rcs (concat out)). split; [|split].
  - rewrite launch_sched_coords.
    apply (launch_coords_result rcs (Z.of_nat M) (Z.of_nat N) d_output d_bias
             (concat out) bias h); try done.
    + rewrite Hperm'. by apply thread_coords_NoDup.
    + intros rc. rewrite Hperm'. by apply thread_coords_nonneg.
    + rewrite (length_concat_rect N) by done. lia.
    + lia.
  - rewrite length_flat_add_bias, (length_concat_rect N) by done. by rewrite HlenM.
  - intros i j o b Ho Hb.
    assert (j < N)%nat as Hj.
    { unfold entry in Ho. destruct (out !! i) as [row|] eqn:Hrow; [|done].
      simpl in Ho. rewrite <- (Forall_lookup_1 _ _ _ _ Hrows Hrow).
      by eapply lookup_lt_Some. }
    unfold flat_add_bias. rewrite list_lookup_imap.
    rewrite (lookup_concat_rect N) by done. rewrite Ho. simpl. f_equal.
    pose proof (coord_of_index_nat N i j Hj) as Hc. rewrite Hc.
    apply (f_equal snd) in Hc. simpl in Hc. rewrite Hc, Nat2Z.id, Hb.
    destruct (decide (Z.of_nat i < gy * by_ /\ Z.of_nat j < gx * bx)) as [Hin|Hnin].
    + rewrite !bool_decide_eq_true_2; [done|done|].
      rewrite Hperm'. apply thread_coords_cover; lia.
    + rewrite !bool_decide_eq_false_2; [done|done|].
      rewrite Hperm'. intros Hmem.
      apply thread_coords_bound in Hmem; [|done..]. simpl in Hmem. lia.
Qed.

Lemma addBiasEfficient_any_grid_witness :
  exists flat',
    launch_addBiasEfficient (Dim3 1 1 1) (Dim3 1 1 1) 0%nat 1%nat 1 2 heap_2_2
    = Ok (<[ 0%nat := Some <$> flat' ]> heap_2_2)
    /\ flat' !! 0%nat = Some (Binary32.of_Z 3)
    /\ flat' !! 1%nat = Some (Binary32.of_Z 2).
Proof.
  destruct (addBiasEfficient_any_grid 1 1 1 1 1 2 (f32_mat [[2; 2]])
              (f32_vec [1; -1]) heap_2_2 0 1
              (grid_threads (Dim3 1 1 1) (Dim3 1 1 1)))
    as (flat' & Hrun & _ & Hget).
  - reflexivity.
  - lia.
  - lia.
  - lia.
  - lia.
  - split; [reflexivity|repeat constructor].
  - simpl. lia.
  - unfold INT_MAX. lia.
  - reflexivity.
  - reflexivity.
  - lia.
  - exists flat'. split; [exact Hrun|]. split.
    + exact (Hget 0%nat 0%nat _ _ eq_refl eq_refl).
    + exact (Hget 0%nat 1%nat _ _ eq_refl eq_refl).
Defined.

(** X7.  The guard of [addBiasEfficient] has no lower bound.  A thread
    whose row or column, computed on [unsigned int] and stored in an [int],
    is negative passes the guard whenever the other index does, and then
    indexes [output] or [bias] before the start of the buffer: it never
    completes.  A column is negative when
    [blockIdx.x * blockDim.x + threadIdx.x] lies between 2^31 and 2^32. *)
Theorem addBiasEfficient_guard_has_no_lower_bound `{FloatOps F}
  (blockIdx blockDim threadIdx : dim3) (output bias : nat)
  (batchSize outputDim : Z) (h : dmem F) :
  thread_row blockIdx blockDim threadIdx < batchSize ->
  thread_col blockIdx blockDim threadIdx < outputDim ->
  thread_row blockIdx blockDim threadIdx < 0
  \/ 2147483648 <= dim_x blockIdx * dim_x blockDim + dim_x threadIdx < 4294967296 ->
  exists f,
    addBiasEfficient blockIdx blockDim threadIdx output bias batchSize outputDim h
    = Fault f.
Proof.
  intros Hrow Hcol Hneg. rewrite addBiasEfficient_unfold.
  assert (thread_row blockIdx blockDim threadIdx < 0
          \/ thread_col blockIdx blockDim threadIdx < 0) as Hneg'.
  { destruct Hneg as [?|Hwrap]; [by left|right].
    unfold thread_col, u32, int_of_u32. rewrite Z.mod_small by lia.
    destruct (Z.ltb_spec (dim_x blockIdx * dim_x blockDim + dim_x threadIdx)
                2147483648); lia. }
  clear Hneg. revert Hrow Hcol Hneg'.
  generalize (thread_row blockIdx blockDim threadIdx) as row.
  generalize (thread_col blockIdx blockDim threadIdx) as col.
  intros col row Hrow Hcol Hneg. unfold addBiasEfficient_body.
  destruct (Z.ltb_spec row batchSize); [|lia].
  destruct (Z.ltb_spec col outputDim); [|lia]. simpl.
  destruct (int_arith (row * outputDim)) as [scaled|f] eqn:Hscaled; simpl; [|by eexists].
  destruct (int_arith (scaled + col)) as [idx|f] eqn:Hidx; simpl; [|by eexists].
  destruct (dev_load h output idx) as [o|f] eqn:Ho; simpl; [|by eexists].
  destruct (dev_load h bias col) as [b|f] eqn:Hb; simpl; [|by eexists].
  exfalso.
  apply int_arith_inv in Hscaled as [-> _].
  apply int_arith_inv in Hidx as [-> _].
  apply dev_load_inv in Ho as (_ & _ & Hidx0 & _).
  apply dev_load_inv in Hb as (_ & _ & Hcol0 & _).
  nia.
Qed.

Lemma addBiasEfficient_guard_has_no_lower_bound_witness :
  exists f,
    addBiasEfficient (Dim3 134217728 0 0) (Dim3 16 1 1) (Dim3 0 0 0)
      0%nat 1%nat 1 2 heap_2_2 = Fault f.
Proof.
  apply (addBiasEfficient_guard_has_no_lower_bound
           (Dim3 134217728 0 0) (Dim3 16 1 1) (Dim3 0 0 0) 0 1 1 2 heap_2_2).
  - reflexivity.
  - reflexivity.
  - right. simpl. lia.
Defined.

(** ** [linearCUBLAS] on compatible shapes *)

(** X8.  For an [M] by [K] input, [N] by [K] weights and a bias of [N]
    entries (all sizes positive and within [int]), called with no copy in
    flight, [linearCUBLAS] returns the [M] by [N] matrix whose entry
    [(i, j)] is [1.0f * (weights[j] . input[i]) + bias[j]], the dot product
    added in index order; device memory and the host vectors are as they
    were at the call and nothing is left in flight. *)
Theorem linearCUBLAS_computes_affine_map `{FloatOps F}
  (input weights : list (list F)) (bias : list F) (M K N : nat)
  (handle : cublasHandle_t) (st : state F) :
  is_matrix M K input ->
  is_matrix N K weights ->
  length bias = N ->
  (0 < M)%nat -> (0 < K)%nat -> (0 < N)%nat ->
  Z.of_nat M * Z.of_nat K <= INT_MAX ->
  Z.of_nat N * Z.of_nat K <= INT_MAX ->
  Z.of_nat M * Z.of_nat N <= INT_MAX ->
  Z.of_nat M + 15 <= INT_MAX ->
  Z.of_nat N + 15 <= INT_MAX ->
  feqb (fzero : F) fzero = true ->
  inflight st = [] ->
  exists output st',
    linearCUBLAS input weights bias handle st = Done output st'
    /\ is_matrix M N output
    /\ (forall (i j : nat) x w b,
          input !! i = Some x -> weights !! j = Some w -> bias !! j = Some b ->
          entry output i j = Some (fadd (fmul fone (dot_product w x)) b))
    /\ device st' = device st
    /\ hostmem st' = hostmem st
    /\ inflight st' = [].
Proof.
  intros Hin Hw Hbias HM HK HN HMK HNK HMN HM15 HN15 Hzero Hidle.
  destruct (linearCUBLAS_ok input weights bias M K N handle st)
    as (st' & Hrun & Hhost & Hfl); try done.
  eexists _, st'. split; [exact Hrun|]. split; [|split; [|split; [|done]]].
  - apply add_bias_is_matrix; [|done]. split.
    + unfold sgemm_TN_result. rewrite length_map. by destruct Hin.
    + destruct Hw as [<- _]. apply sgemm_TN_result_rows.
  - intros i j x w b Hx Hwj Hb.
    rewrite entry_add_bias, (entry_sgemm_TN_result fone weights input j i w x)
      by done.
    simpl. by rewrite Hb.
  - by destruct (linearCUBLAS_inv _ _ _ _ _ _ _ Hrun)
      as (? & ? & ? & ? & ? & ? & ? & _ & _ & _ & _ & _ & _ & Hdev & _).
Qed.

Lemma linearCUBLAS_computes_affine_map_witness :
  exists output st',
    linearCUBLAS (f32_mat [[1; 2]; [3; 4]]) (f32_mat [[5; 7]; [6; 8]])
      (f32_vec [1; -60]) (CublasHandle 0) idle_device = Done output st'
    /\ entry output 1 0 = Some (Binary32.of_Z 44)
    /\ entry output 1 1 = Some (Binary32.of_Z (-10))
    /\ device st' = device idle_device.
Proof.
  destruct (linearCUBLAS_computes_affine_map
              (f32_mat [[1; 2]; [3; 4]]) (f32_mat [[5; 7]; [6; 8]])
              (f32_vec [1; -60]) 2 2 2 (CublasHandle 0) idle_device)
    as (output & st' & Hrun & _ & Hentry & Hdev & _).
  - split; [reflexivity|repeat constructor].
  - split; [reflexivity|repeat constructor].
  - reflexivity.
  - lia.
  - lia.
  - lia.
  - unfold INT_MAX. lia.
  - unfold INT_MAX. lia.
  - unfold INT_MAX. lia.
  - unfold INT_MAX. lia.
  - unfold INT_MAX. lia.
  - reflexivity.
  - reflexivity.
  - exists output, st'. split; [exact Hrun|]. split; [|split; [|exact Hdev]].
    + rewrite (Hentry 1%nat 0%nat _ _ _ eq_refl eq_refl eq_refl).
      vm_compute. reflexivity.
    + rewrite (Hentry 1%nat 1%nat _ _ _ eq_refl eq_refl eq_refl).
      vm_compute. reflexivity.
Defined.

(** X9.  The [cublasSgemm] call of lines 113-121, on row-major [N] by [K]
    weights and row-major [M] by [K] input, with transposed first operand
    and leading dimensions [K], [K] and [N], leaves in the output buffer
    the row-major [M] by [N] matrix of entries
    [alpha * (weights[c] . input[r])]; it does not read the output buffer,
    which may hold cells nobody has written, and changes no other buffer. *)
Theorem cublasSgemm_call_is_row_major `{FloatOps F} (h0 : dmem F)
  (A B C N M K : nat) (weights input : list (list F)) (alpha : F)
  (buf : list (option F)) (handle : cublasHandle_t) :
  h0 !! A = Some (Some <$> concat weights) ->
  h0 !! B = Some (Some <$> concat input) ->
  h0 !! C = Some buf ->
  length buf = (M * N)%nat ->
  is_matrix N K weights ->
  is_matrix M K input ->
  (0 < N)%nat -> (0 < K)%nat ->
  feqb (fzero : F) fzero = true ->
  exists h',
    cublasSgemm handle CUBLAS_OP_T CUBLAS_OP_N (Z.of_nat N) (Z.of_nat M)
      (Z.of_nat K) alpha A (Z.of_nat K) B (Z.of_nat K) fzero C (Z.of_nat N) h0
    = Ok h'
    /\ h' !! C = Some (Some <$> concat (sgemm_TN_result alpha weights input))
    /\ (forall q, q ≠ C -> h' !! q = h0 !! q)
    /\ forall (r c : nat) x w,
         input !! r = Some x -> weights !! c = Some w ->
         cell_at h' C (r * N + c)
         = Some (Some (fmul alpha (dot_product w x))).
Proof.
  intros HA HB HC Hbuf HW HX HN HK Hzero.
  pose proof (cublasSgemm_TN h0 A B C N M K weights input alpha buf
                HA HB HW HX Hzero Hbuf handle HN HK HC) as Hrun.
  eexists. split; [exact Hrun|]. split; [|split].
  - by rewrite lookup_insert_eq.
  - intros q Hq. by rewrite lookup_insert_ne.
  - intros r c x w Hx Hw. unfold cell_at. rewrite lookup_insert_eq. simpl.
    unfold sgemm_TN_cells. rewrite list_lookup_fmap.
    assert (c < N)%nat as Hc.
    { destruct HW as [<- _]. by eapply lookup_lt_Some. }
    rewrite (lookup_concat_rect N); [| |done].
    + by rewrite (entry_sgemm_TN_result alpha weights input c r w x).
    + destruct HW as [<- _]. apply sgemm_TN_result_rows.
Qed.

Lemma cublasSgemm_call_is_row_major_witness :
  exists h',
    cublasSgemm (F:=Z) (CublasHandle 0) CUBLAS_OP_T CUBLAS_OP_N 2 2 2 1
      0%nat 2 1%nat 2 0 2%nat 2 heap_sgemm_2x2 = Ok h'
    /\ h' !! 2%nat = Some (Some <$> [19; 22; 43; 50]).
Proof.
  destruct (cublasSgemm_call_is_row_major (F:=Z) heap_sgemm_2x2 0 1 2 2 2 2
              [[5; 7]; [6; 8]] [[1; 2]; [3; 4]] 1 (replicate 4 None)
              (CublasHandle 0))
    as (h' & Hrun & HC & _).
  - reflexivity.
  - reflexivity.
  - reflexivity.
  - reflexivity.
  - split; [reflexivity|repeat constructor].
  - split; [reflexivity|repeat constructor].
  - lia.
  - lia.
  - reflexivity.
  - exists h'. split; [exact Hrun|exact HC].
Defined.

(** X10.  The loop of lines 132-134 inverts the flattening of lines 87-88:
    on a host vector that holds the rows of an [M] by [N] matrix one after
    the other, with no copy in flight, it returns the matrix, row by row,
    with one read of the vector for every row and no other effect. *)
Theorem reassemble_inverts_flattening {F : Type} (flatOutput : nat)
  (rows : list (list F)) (M N : nat) (st : state F) :
  is_matrix M N rows ->
  hostmem st !! flatOutput = Some (concat rows) ->
  inflight st = [] ->
  Z.of_nat M * Z.of_nat N <= INT_MAX ->
  exists st',
    reassemble flatOutput (Z.of_nat M) (Z.of_nat N) st = Done rows st'
    /\ device st' = device st
    /\ hostmem st' = hostmem st
    /\ inflight st' = []
    /\ trace st' = trace st ++ replicate M (EvHostRead flatOutput).
Proof.
  intros Hrows Hhost Hidle Hmax. eexists. split.
  - by apply reassemble_run.
  - by simpl.
Qed.

Lemma reassemble_inverts_flattening_witness :
  exists st',
    reassemble (F:=Z) 0 2 2 host_1234 = Done [[1; 2]; [3; 4]] st'
    /\ trace st' = [EvHostRead 0; EvHostRead 0].
Proof.
  destruct (reassemble_inverts_flattening (F:=Z) 0 [[1; 2]; [3; 4]] 2 2 host_1234)
    as (st' & Hrun & _ & _ & _ & Htrace).
  - split; [reflexivity|repeat constructor].
  - reflexivity.
  - reflexivity.
  - unfold INT_MAX. lia.
  - exists st'. split; [exact Hrun|exact Htrace].
Defined.

(** ** The shape of what [linearCUBLAS] returns *)

Section ShapeProofs.
Context {F : Type} `{FloatOps F}.

Lemma host_read_range_length hb first last (st : state F) v st' :
  host_read_range hb first last st = Done v st' ->
  0 <= first <= last /\ length v = Z.to_nat (last - first).
Proof.
  unfold host_read_range, mbind, dev_bind. simpl. unfold host_slice. simpl.
  case_bool_decide as Hin; [done|].
  destruct (hostmem st !! hb) as [w|]; [|done].
  destruct (Z.ltb_spec first 0); [done|].
  destruct (Z.ltb_spec last first); [done|].
  destruct (Z.ltb_spec (Z.of_nat (length w)) last); [done|]. simpl.
  intros [= <- <-]. split; [lia|]. rewrite length_take, length_drop. lia.
Qed.

(** The rows the loop of lines 133-134 has written have [outputDim]
    entries; the others are as before. *)
Lemma reassemble_loop_shape hb outputDim l (acc : list (list F)) st out st' :
  dev_foldM (fun i output =>
      first ← lift (int_arith (i * outputDim));
      last ← lift (int_arith ((i + 1) * outputDim));
      row ← host_read_range hb first last;
      mret (<[Z.to_nat i := row]> output)) l acc st
  = Done out st' ->
  (forall i, i ∈ l -> 0 <= i) ->
  length out = length acc
  /\ forall j : nat,
       (Z.of_nat j ∈ l ->
        forall row, out !! j = Some row -> length row = Z.to_nat outputDim)
       /\ (Z.of_nat j ∉ l -> out !! j = acc !! j).
Proof.
  revert st acc. induction l as [|i l IH]; intros st acc; simpl.
  - intros [= <- <-] _. split; [done|]. intros j. split; [|done].
    intros Hin. by apply elem_of_nil in Hin.
  - intros Hrun Hnonneg.
    apply dev_bind_inv in Hrun as (acc1 & st1 & Hstep & Hrun).
    apply dev_bind_inv in Hstep as (first & st2 & Hfirst & Hstep).
    apply lift_inv in Hfirst as [[-> _]%int_arith_inv ->].
    apply dev_bind_inv in Hstep as (last & st2 & Hlast & Hstep).
    apply lift_inv in Hlast as [[-> _]%int_arith_inv ->].
    apply dev_bind_inv in Hstep as (row & st2 & Hread & Hstep).
    apply host_read_range_length in Hread as [Hord Hlen].
    injection Hstep as <- <-.
    replace ((i + 1) * outputDim - i * outputDim) with outputDim in Hlen by lia.
    apply IH in Hrun as [Hlen' Hget];
      [|intros k Hk; apply Hnonneg; by apply list_elem_of_further].
    rewrite length_insert in Hlen'. split; [done|]. intros j.
    destruct (Hget j) as [Hin Hout].
    assert (0 <= i) as Hi by (apply Hnonneg, list_elem_of_here).
    destruct (decide (Z.of_nat j ∈ l)) as [Hj|Hj].
    + split; [intros _; by apply Hin|].
      intros Hnot. exfalso. apply Hnot. by apply list_elem_of_further.
    + rewrite (Hout Hj). destruct (decide (Z.to_nat i = j)) as [<-|Hne].
      * split.
        -- intros _ row' Hrow'.
           apply list_lookup_insert_Some in Hrow' as [(_ & <- & _)|[? _]]; done.
        -- intros Hnot. exfalso. apply Hnot.
           rewrite Z2Nat.id by done. apply list_elem_of_here.
      * rewrite list_lookup_insert_ne by done. split; [|done].
        rewrite elem_of_cons. intros [Heq|?]; [|done]. subst i.
        by rewrite Nat2Z.id in Hne.
Qed.

Lemma reassemble_shape hb batchSize outputDim (st : state F) out st' :
  reassemble hb batchSize outputDim st = Done out st' ->
  is_matrix (Z.to_nat batchSize) (Z.to_nat outputDim) out.
Proof.
  unfold reassemble. intros Hrun.
  apply reassemble_loop_shape in Hrun as [Hlen Hget];
    [|intros i; rewrite elem_of_seqZ; lia].
  rewrite length_replicate in Hlen. split; [done|].
  apply Forall_lookup. intros j row Hrow.
  apply (Hget j); [|done].
  apply lookup_lt_Some in Hrow. rewrite elem_of_seqZ. lia.
Qed.

Lemma linearCUBLAS_dims_inv (input weights : list (list F))
  batchSize inputDim outputDim :
  linearCUBLAS_dims input weights = Ok (batchSize, inputDim, outputDim) ->
  exists row0,
    input !! 0%nat = Some row0
    /\ batchSize = Z.of_nat (length input)
    /\ inputDim = Z.of_nat (length row0)
    /\ outputDim = Z.of_nat (length weights).
Proof.
  unfold linearCUBLAS_dims, int_of_size.
  destruct (int_arith (Z.of_nat (length input))) as [bs|] eqn:Hbs; simpl; [|done].
  destruct (vec_at input 0) as [row0|] eqn:Hrow0; simpl; [|done].
  destruct (int_arith (Z.of_nat (length row0))) as [k|] eqn:Hk; simpl; [|done].
  destruct (int_arith (Z.of_nat (length weights))) as [n|] eqn:Hn; simpl; [|done].
  intros [= <- <- <-].
  apply int_arith_inv in Hbs as [-> _]. apply int_arith_inv in Hk as [-> _].
  apply int_arith_inv in Hn as [-> _]. apply vec_at_inv in Hrow0 as [_ Hrow0].
  by exists row0.
Qed.

End ShapeProofs.

(** X11.  Whatever the shapes of its operands, when [linearCUBLAS] returns,
    the matrix it returns has one row for every row of [input] and one
    column for every row of [weights]: [input.size()] rows of
    [weights.size()] entries, also where the row lengths of [input] and
    [weights] do not agree. *)
Theorem linearCUBLAS_result_shape `{FloatOps F}
  (input weights : list (list F)) (bias : list F) (handle : cublasHandle_t)
  (st st' : state F) (output : list (list F)) :
  linearCUBLAS input weights bias handle st = Done output st' ->
  is_matrix (length input) (length weights) output.
Proof.
  unfold linearCUBLAS. intros Hrun.
  apply dev_bind_inv in Hrun as ([[batchSize inputDim] outputDim] & st1 & Hl & Hrun).
  apply lift_inv in Hl as [Hdims _].
  apply linearCUBLAS_dims_inv in Hdims as (row0 & _ & -> & _ & ->).
  do 3 (apply dev_bind_inv in Hrun as (? & ? & _ & Hrun)).
  apply dev_bind_inv in Hrun as (flatOutput & ? & _ & Hrun).
  do 4 (apply dev_bind_inv in Hrun as (? & ? & _ & Hrun)).
  do 3 (apply dev_bind_inv in Hrun as (? & ? & _ & Hrun)).
  apply dev_bind_inv in Hrun as (? & ? & _ & Hrun).
  do 2 (apply dev_bind_inv in Hrun as (? & ? & _ & Hrun)).
  apply dev_bind_inv in Hrun as (? & ? & _ & Hrun).
  apply dev_bind_inv in Hrun as (? & ? & _ & Hrun).
  apply dev_bind_inv in Hrun as (? & ? & _ & Hrun).
  apply dev_bind_inv in Hrun as (rows & ? & Hrows & Hrun).
  do 5 (apply dev_bind_inv in Hrun as (? & ? & _ & Hrun)).
  injection Hrun as <- _.
  apply reassemble_shape in Hrows. by rewrite !Nat2Z.id in Hrows.
Qed.

Lemma linearCUBLAS_result_shape_witness :
  exists output st',
    linearCUBLAS (f32_mat [[1; 2]; [3; 4]]) (f32_mat [[1; 2; 3]; [4; 5; 6]])
      (f32_vec [0; 0]) (CublasHandle 0) idle_device = Done output st'
    /\ is_matrix 2 2 output.
Proof.
  eexists _, _. split.
  - vm_compute. reflexivity.
  - eapply (linearCUBLAS_result_shape
              (f32_mat [[1; 2]; [3; 4]]) (f32_mat [[1; 2; 3]; [4; 5; 6]])
              (f32_vec [0; 0]) (CublasHandle 0) idle_device).
    vm_compute. reflexivity.
Defined.

(** ** The shape of the product in [linear] *)

Section LinearShape.
Context {F : Type} `{FloatOps F}.

Lemma same_shape_refl (s : list (list F)) : same_shape s s.
Proof. by split. Qed.

Lemma same_shape_trans (s1 s2 s3 : list (list F)) :
  same_shape s1 s2 -> same_shape s2 s3 -> same_shape s1 s3.
Proof.
  intros [Hl1 Hr1] [Hl2 Hr2]. split; [congruence|].
  intros i. by rewrite Hr2, Hr1.
Qed.

Lemma add_bias_at_shape bias i j (s s' : list (list F)) :
  add_bias_at bias i j s = Ok s' -> same_shape s s'.
Proof.
  unfold add_bias_at.
  destruct (vec_at s i) as [row|] eqn:Hrow; simpl; [|done].
  destruct (vec_at row j) as [x|] eqn:Hx; simpl; [|done].
  destruct (vec_at bias j) as [b|] eqn:Hb; simpl; [|done].
  intros [= <-]. apply vec_at_inv in Hrow as [_ Hrow].
  split; [by rewrite length_insert|]. intros k.
  destruct (decide (Z.to_nat i = k)) as [<-|Hne].
  - rewrite list_lookup_insert_eq by (by eapply lookup_lt_Some).
    rewrite Hrow. simpl. by rewrite length_insert.
  - by rewrite list_lookup_insert_ne.
Qed.

Lemma linear_bias_pass_sched_shape sched output_dim bias (s s' : list (list F)) :
  linear_bias_pass_sched sched output_dim bias s = Ok s' -> same_shape s s'.
Proof.
  unfold linear_bias_pass_sched, omp_parallel_for.
  apply foldM_rel; [apply same_shape_refl|apply same_shape_trans|].
  intros i s1 s2. unfold add_bias_row, for_loop.
  apply foldM_rel; [apply same_shape_refl|apply same_shape_trans|].
  intros j s3 s4. apply add_bias_at_shape.
Qed.

End LinearShape.

(** X13.  The bias loop of [linear] only assigns to entries that exist:
    whenever the loop completes, in program order or in any other order of
    its iterations, and for any product of [matmul], the matrix has the
    rows it had, each of the length it had. *)
Theorem linear_keeps_shape_of_product `{FloatOps F} `{Syntari F}
  (input weights : list (list F)) (bias : list F) (output : list (list F))
  (sched : list Z) (output_dim : Z) :
  linear_pre input weights bias = Ok output
  \/ linear_bias_pass_sched sched output_dim bias (matmul input weights)
     = Ok output ->
  same_shape (matmul input weights) output.
Proof.
  intros [Hpre|Hrun].
  - unfold linear_pre in Hpre.
    destruct (linear_dims (matmul input weights)) as [[batch_size dim]|];
      simpl in Hpre; [|done].
    by apply linear_bias_pass_sched_shape in Hpre.
  - by apply linear_bias_pass_sched_shape in Hrun.
Qed.

Lemma linear_keeps_shape_of_product_witness :
  linear_pre (F:=Z) [[1; 2]] [[1; 1]; [1; 1]] [5; 6] = Ok [[8; 9]]
  /\ same_shape (matmul (F:=Z) [[1; 2]] [[1; 1]; [1; 1]]) [[8; 9]].
Proof.
  split; [reflexivity|].
  apply (linear_keeps_shape_of_product (F:=Z) [[1; 2]] [[1; 1]; [1; 1]] [5; 6]
           [[8; 9]] [] 0).
  left. reflexivity.
Defined.

(** ** A bias shorter than the rows, on the device *)

Section ShortBiasDevice.
Context {F : Type} `{FloatOps F}.
Variables (M N : Z) (output bias : nat) (bvec : list F).
Hypothesis Hne : output ≠ bias.
Hypothesis HN : 0 <= N.
Hypothesis Hmax : M * N <= INT_MAX.

(** A thread inside the matrix whose column has no bias entry reads past
    the end of the bias buffer. *)
Lemma addBiasEfficient_body_no_bias row col (flat : list F) (h : dmem F) :
  h !! output = Some (Some <$> flat) ->
  Z.of_nat (length flat) = M * N ->
  h !! bias = Some (Some <$> bvec) ->
  0 <= row < M -> Z.of_nat (length bvec) <= col < N ->
  addBiasEfficient_body row col output bias M N h = Fault OutOfBounds.
Proof.
  intros Hout Hlen Hbias Hrow Hcol. unfold addBiasEfficient_body.
  destruct (Z.ltb_spec row M), (Z.ltb_spec col N); try lia. simpl.
  rewrite int_arith_Ok by (unfold INT_MIN; nia). simpl.
  rewrite int_arith_Ok by (unfold INT_MIN; nia). simpl.
  destruct (lookup_lt_is_Some_2 flat (Z.to_nat (row * N + col))) as [o Ho]; [nia|].
  rewrite <- (Z2Nat.id (row * N + col)) by nia.
  rewrite (dev_load_Ok h output _ (Some <$> flat) o Hout)
    by (by rewrite list_lookup_fmap, Ho). simpl.
  unfold dev_load. rewrite Hbias.
  by rewrite vec_at_ge by (rewrite length_fmap; lia).
Qed.

(** Any other thread at non-negative coordinates completes and keeps the
    two buffers in place. *)
Lemma addBiasEfficient_body_has_bias row col (flat : list F) (h : dmem F) :
  h !! output = Some (Some <$> flat) ->
  Z.of_nat (length flat) = M * N ->
  h !! bias = Some (Some <$> bvec) ->
  0 <= row -> 0 <= col ->
  ~ (row < M /\ Z.of_nat (length bvec) <= col < N) ->
  exists flat',
    addBiasEfficient_body row col output bias M N h
    = Ok (<[output := Some <$> flat']> h)
    /\ length flat' = length flat.
Proof.
  intros Hout Hlen Hbias Hrow Hcol Hgood.
  destruct (decide (row < M /\ col < N)) as [[HrM HcN]|Hout'].
  - destruct (lookup_lt_is_Some_2 flat (Z.to_nat (row * N + col))) as [o Ho]; [nia|].
    destruct (lookup_lt_is_Some_2 bvec (Z.to_nat col)) as [b Hb]; [lia|].
    eexists. split.
    + apply (addBiasEfficient_body_inside M N row col output bias flat bvec h
               (Z.to_nat (row * N + col)) o b); try done; try nia.
    + by rewrite length_insert.
  - exists flat. split; [|done].
    rewrite addBiasEfficient_body_outside by lia.
    by rewrite insert_id.
Qed.

Lemma launch_coords_short_bias (rcs : list (Z * Z)) (flat : list F) (h : dmem F) :
  h !! output = Some (Some <$> flat) ->
  Z.of_nat (length flat) = M * N ->
  h !! bias = Some (Some <$> bvec) ->
  (forall rc, rc ∈ rcs -> 0 <= rc.1 /\ 0 <= rc.2) ->
  (exists rc, rc ∈ rcs /\ rc.1 < M /\ Z.of_nat (length bvec) <= rc.2 < N) ->
  foldM (fun rc => addBiasEfficient_body rc.1 rc.2 output bias M N) rcs h
  = Fault OutOfBounds.
Proof.
  revert flat h. induction rcs as [|rc rcs IH];
    intros flat h Hout Hlen Hbias Hnonneg (bad & Hin & Hbad).
  { by apply elem_of_nil in Hin. }
  destruct (Hnonneg rc) as [Hr Hc]; [apply list_elem_of_here|].
  cbn [foldM].
  destruct (decide (rc.1 < M /\ Z.of_nat (length bvec) <= rc.2 < N)) as [Hrc|Hrc].
  - by rewrite (addBiasEfficient_body_no_bias rc.1 rc.2 flat h) by (done || lia).
  - destruct (addBiasEfficient_body_has_bias rc.1 rc.2 flat h)
      as (flat' & -> & Hlen'); try done.
    simpl. apply (IH flat').
    + by rewrite lookup_insert_eq.
    + by rewrite Hlen'.
    + by rewrite lookup_insert_ne.
    + intros rc' Hrc'. apply Hnonneg. by apply list_elem_of_further.
    + exists bad. split; [|done].
      apply elem_of_cons in Hin as [->|Hin]; [|done]. by destruct Hrc.
Qed.

End ShortBiasDevice.

Section ShortBiasLaunch.
Context {F : Type} `{FloatOps F}.

(** A launch whose grid reaches a column without a bias entry. *)
Lemma launch_sched_short_bias (gx gy bx by_ : Z) (M N : nat)
  (flat bvec : list F) (h : dmem F) (d_output d_bias : nat)
  (sched : list (dim3 * dim3)) :
  sched ≡ₚ grid_threads (Dim3 gx gy 1) (Dim3 bx by_ 1) ->
  gx * bx < 2147483648 -> gy * by_ < 2147483648 ->
  0 < bx -> 0 < by_ ->
  0 < gy * by_ -> Z.of_nat (length bvec) < gx * bx ->
  (0 < M)%nat -> (length bvec < N)%nat ->
  length flat = (M * N)%nat ->
  Z.of_nat M * Z.of_nat N <= INT_MAX ->
  h !! d_output = Some (Some <$> flat) ->
  h !! d_bias = Some (Some <$> bvec) ->
  d_output ≠ d_bias ->
  launch_sched sched
    (fun b t => addBiasEfficient b (Dim3 bx by_ 1) t d_output d_bias
                  (Z.of_nat M) (Z.of_nat N)) h
  = Fault OutOfBounds.
Proof.
  intros Hperm Hx Hy Hbx Hby Hgy Hgx HM Hshort Hlen Hmax Hpo Hpb Hne.
  rewrite launch_sched_coords.
  assert (thread_coords (Dim3 bx by_ 1) sched
          ≡ₚ thread_coords (Dim3 bx by_ 1)
               (grid_threads (Dim3 gx gy 1) (Dim3 bx by_ 1))) as Hperm'.
  { unfold thread_coords. by rewrite Hperm. }
  apply (launch_coords_short_bias (Z.of_nat M) (Z.of_nat N) d_output d_bias bvec
           Hne ltac:(lia) Hmax _ flat h); try done.
  - lia.
  - intros rc. rewrite Hperm'. by apply thread_coords_nonneg.
  - exists (Z.of_nat 0, Z.of_nat (length bvec)). split; [|simpl; lia].
    rewrite Hperm'. apply thread_coords_cover; lia.
Qed.

Lemma run_addBiasEfficient_fault gridDim blockDim output bias batchSize outputDim
  (st : state F) f :
  launch_addBiasEfficient gridDim blockDim output bias batchSize outputDim
    (device st) = Fault f ->
  run_addBiasEfficient gridDim blockDim output bias batchSize outputDim st
  = Abort f (trace st ++ [EvLaunch output bias]).
Proof.
  intros Hl. unfold run_addBiasEfficient, mbind, dev_bind. simpl. by rewrite Hl.
Qed.

End ShortBiasLaunch.

(** X14.  [linearCUBLAS] sizes the bias buffer by [bias.size()] and never
    compares it with [weights.size()]: with compatible input and weights
    and a bias of fewer than [outputDim] entries, the [addBiasEfficient]
    launch of line 126 reads past the end of [d_bias], after the
    allocations, the three copies and the product have been issued. *)
Theorem linearCUBLAS_short_bias_reads_past_end `{FloatOps F}
  (input weights : list (list F)) (bias : list F) (M K N : nat)
  (handle : cublasHandle_t) (st : state F) :
  is_matrix M K input ->
  is_matrix N K weights ->
  (length bias < N)%nat ->
  (0 < M)%nat -> (0 < K)%nat ->
  Z.of_nat M * Z.of_nat K <= INT_MAX ->
  Z.of_nat N * Z.of_nat K <= INT_MAX ->
  Z.of_nat M * Z.of_nat N <= INT_MAX ->
  Z.of_nat M + 15 <= INT_MAX ->
  Z.of_nat N + 15 <= INT_MAX ->
  feqb (fzero : F) fzero = true ->
  exists d_input d_weights d_bias d_output,
    linearCUBLAS input weights bias handle st
    = Abort OutOfBounds
        (trace st
         ++ [EvMalloc d_input (Z.of_nat M * Z.of_nat K);
             EvMalloc d_weights (Z.of_nat N * Z.of_nat K);
             EvMalloc d_bias (Z.of_nat (length bias));
             EvMalloc d_output (Z.of_nat M * Z.of_nat N);
             EvMemcpyH2D d_input (Z.of_nat M * Z.of_nat K);
             EvMemcpyH2D d_weights (Z.of_nat N * Z.of_nat K);
             EvMemcpyH2D d_bias (Z.of_nat (length bias));
             EvSgemm d_weights d_input d_output;
             EvLaunch d_output d_bias]).
Proof.
  intros Hin Hw Hshort HM HK HMK HNK HMN HM15 HN15 Hzero.
  pose proof Hin as [HlenM Hrows]. pose proof Hw as [HlenN Hwrows].
  assert (INT_MIN <= 0) by (unfold INT_MIN; lia).
  assert (0 < N)%nat as HN by lia.
  set (h0 := device st).
  set (p1 := fresh (dom h0)).
  set (h1 := <[p1 := replicate (M * K) None]> h0).
  set (p2 := fresh (dom h1)).
  set (h2 := <[p2 := replicate (N * K) None]> h1).
  set (p3 := fresh (dom h2)).
  set (h3 := <[p3 := replicate (length bias) None]> h2).
  set (p4 := fresh (dom h3)).
  set (h4 := <[p4 := replicate (M * N) None]> h3).
  assert (h0 !! p1 = None) as Hf1 by apply fresh_lookup_None.
  assert (h1 !! p2 = None) as Hf2 by apply fresh_lookup_None.
  assert (h2 !! p3 = None) as Hf3 by apply fresh_lookup_None.
  assert (h3 !! p4 = None) as Hf4 by apply fresh_lookup_None.
  assert (p2 ≠ p1) as Hn21.
  { intros Heq. rewrite Heq in Hf2. unfold h1 in Hf2. by rewrite lookup_insert_eq in Hf2. }
  assert (p3 ≠ p2) as Hn32.
  { intros Heq. rewrite Heq in Hf3. unfold h2 in Hf3. by rewrite lookup_insert_eq in Hf3. }
  assert (p3 ≠ p1) as Hn31.
  { intros Heq. rewrite Heq in Hf3. unfold h2, h1 in Hf3.
    by rewrite lookup_insert_ne, lookup_insert_eq in Hf3. }
  assert (p4 ≠ p3) as Hn43.
  { intros Heq. rewrite Heq in Hf4. unfold h3 in Hf4. by rewrite lookup_insert_eq in Hf4. }
  assert (p4 ≠ p2) as Hn42.
  { intros Heq. rewrite Heq in Hf4. unfold h3, h2 in Hf4.
    by rewrite lookup_insert_ne, lookup_insert_eq in Hf4. }
  assert (p4 ≠ p1) as Hn41.
  { intros Heq. rewrite Heq in Hf4. unfold h3, h2, h1 in Hf4.
    rewrite lookup_insert_ne in Hf4 by done.
    rewrite lookup_insert_ne in Hf4 by done.
    by rewrite lookup_insert_eq in Hf4. }
  exists p1, p2, p3, p4.
  unfold linearCUBLAS.
  rewrite (dev_bind_Done (lift (linearCUBLAS_dims input weights)) _ st
             (Z.of_nat M, Z.of_nat K, Z.of_nat N) st); last first.
  { rewrite (linearCUBLAS_dims_Ok input weights M K N) by (done || nia).
    apply lift_Ok. }
  erewrite dev_bind_Done
    by (rewrite int_arith_Ok by nia; apply lift_Ok).
  erewrite dev_bind_Done
    by (rewrite int_arith_Ok by nia; apply lift_Ok).
  erewrite dev_bind_Done
    by (rewrite int_arith_Ok by nia; apply lift_Ok).
  erewrite dev_bind_Done by apply host_vector_run.
  erewrite dev_bind_Done by apply cudaMallocAsync_run.
  erewrite dev_bind_Done by apply cudaMallocAsync_run.
  erewrite dev_bind_Done by apply cudaMallocAsync_run.
  erewrite dev_bind_Done by apply cudaMallocAsync_run.
  cbn [device hostmem inflight trace].
  rewrite <- !Nat2Z.inj_mul, !Nat2Z.id.
  fold h0. fold p1. fold h1. fold p2. fold h2. fold p3. fold h3. fold p4. fold h4.
  erewrite dev_bind_Done; last first.
  { apply (cudaMemcpyAsync_H2D_run p1 (concat input) (M * K) _
             (replicate (M * K) None)); cbn [device].
    - unfold h4, h3, h2, h1. by rewrite !lookup_insert_ne, lookup_insert_eq by done.
    - rewrite (length_concat_rect K) by done. lia.
    - by rewrite length_replicate. }
  cbn [device hostmem inflight trace].
  rewrite take_ge by (rewrite (length_concat_rect K) by done; lia).
  rewrite drop_ge, app_nil_r by (by rewrite length_replicate).
  set (h5 := <[p1 := Some <$> concat input]> h4).
  erewrite dev_bind_Done; last first.
  { apply (cudaMemcpyAsync_H2D_run p2 (concat weights) (N * K) _
             (replicate (N * K) None)); cbn [device].
    - unfold h5, h4, h3, h2. by rewrite !lookup_insert_ne, lookup_insert_eq by done.
    - rewrite (length_concat_rect K) by done. lia.
    - by rewrite length_replicate. }
  cbn [device hostmem inflight trace].
  rewrite take_ge by (rewrite (length_concat_rect K) by done; lia).
  rewrite drop_ge, app_nil_r by (by rewrite length_replicate).
  set (h6 := <[p2 := Some <$> concat weights]> h5).
  erewrite dev_bind_Done; last first.
  { apply (cudaMemcpyAsync_H2D_run p3 bias (length bias) _
             (replicate (length bias) None)); cbn [device].
    - unfold h6, h5, h4, h3. by rewrite !lookup_insert_ne, lookup_insert_eq by done.
    - lia.
    - by rewrite length_replicate. }
  cbn [device hostmem inflight trace].
  rewrite firstn_all, drop_ge, app_nil_r by (by rewrite length_replicate).
  set (h7 := <[p3 := Some <$> bias]> h6).
  set (P := sgemm_TN_result fone weights input).
  assert (length (concat P) = (M * N)%nat) as HP.
  { rewrite (length_concat_rect N).
    - unfold P, sgemm_TN_result. by rewrite length_map, HlenM.
    - rewrite <- HlenN. apply sgemm_TN_result_rows. }
  erewrite dev_bind_Done; last first.
  { apply run_cublasSgemm_run. cbn [device].
    apply (cublasSgemm_TN h7 p2 p1 p4 N M K weights input fone (replicate (M * N) None));
      try done.
    - unfold h7, h6. by rewrite !lookup_insert_ne, lookup_insert_eq by done.
    - unfold h7, h6, h5. by rewrite !lookup_insert_ne, lookup_insert_eq by done.
    - by rewrite length_replicate.
    - unfold h7, h6, h5, h4. by rewrite !lookup_insert_ne, lookup_insert_eq by done. }
  cbn [device hostmem inflight trace]. unfold sgemm_TN_cells. fold P.
  set (h8 := <[p4 := Some <$> concat P]> h7).
  erewrite dev_bind_Done
    by (rewrite int_arith_Ok by lia; apply lift_Ok).
  erewrite dev_bind_Done
    by (rewrite int_arith_Ok by lia; apply lift_Ok).
  erewrite dev_bind_Abort; last first.
  { apply run_addBiasEfficient_fault. cbn [device].
    unfold launch_addBiasEfficient, INT_MAX in *.
    rewrite !Z.quot_div_nonneg by lia.
    pose proof (Z.div_mod (Z.of_nat M + 15) 16 ltac:(lia)).
    pose proof (Z.mod_pos_bound (Z.of_nat M + 15) 16 ltac:(lia)).
    pose proof (Z.div_mod (Z.of_nat N + 15) 16 ltac:(lia)).
    pose proof (Z.mod_pos_bound (Z.of_nat N + 15) 16 ltac:(lia)).
    apply (launch_sched_short_bias ((Z.of_nat N + 15) / 16) ((Z.of_nat M + 15) / 16)
             16 16 M N (concat P) bias h8 p4 p3); try done; try lia.
    - unfold h8. by rewrite lookup_insert_eq.
    - unfold h8, h7. by rewrite lookup_insert_ne, lookup_insert_eq by done. }
  cbn [trace]. by rewrite <- !app_assoc.
Qed.

Lemma linearCUBLAS_short_bias_reads_past_end_witness :
  exists d_input d_weights d_bias d_output,
    linearCUBLAS (F:=Z) [[1; 2]] [[1; 1]; [1; 1]] [5] (CublasHandle 0)
      (State ∅ ∅ [] [])
    = Abort OutOfBounds
        [EvMalloc d_input 2; EvMalloc d_weights 4; EvMalloc d_bias 1;
         EvMalloc d_output 2; EvMemcpyH2D d_input 2; EvMemcpyH2D d_weights 4;
         EvMemcpyH2D d_bias 1; EvSgemm d_weights d_input d_output;
         EvLaunch d_output d_bias].
Proof.
  apply (linearCUBLAS_short_bias_reads_past_end (F:=Z) [[1; 2]] [[1; 1]; [1; 1]]
           [5] 1 2 2 (CublasHandle 0) (State ∅ ∅ [] [])).
  - split; [reflexivity|repeat constructor].
  - split; [reflexivity|repeat constructor].
  - simpl. lia.
  - lia.
  - lia.
  - unfold INT_MAX. lia.
  - unfold INT_MAX. lia.
  - unfold INT_MAX. lia.
  - unfold INT_MAX. lia.
  - unfold INT_MAX. lia.
  - reflexivity.
Defined.

(** ** The launch configuration of [linearCUBLAS] *)

(** X15.  The launch configuration of lines 124-126, blocks of 16 by 16
    threads on a grid of [(outputDim + 15) / 16] by [(batchSize + 15) / 16]
    blocks, gives every entry [(i, j)] of the [batchSize] by [outputDim]
    matrix exactly one thread: the threads have pairwise distinct
    (row, column) pairs, none of them negative, and every entry of the matrix
    is among them. *)
Theorem launch_configuration_one_thread_per_entry (M N : nat) :
  Z.of_nat M + 15 <= INT_MAX ->
  Z.of_nat N + 15 <= INT_MAX ->
  NoDup (thread_coords (Dim3 16 16 1)
           (grid_threads (Dim3 ((Z.of_nat N + 15) ÷ 16) ((Z.of_nat M + 15) ÷ 16) 1)
              (Dim3 16 16 1)))
  /\ (forall rc,
        rc ∈ thread_coords (Dim3 16 16 1)
               (grid_threads
                  (Dim3 ((Z.of_nat N + 15) ÷ 16) ((Z.of_nat M + 15) ÷ 16) 1)
                  (Dim3 16 16 1)) ->
        0 <= rc.1 < Z.of_nat M + 16 /\ 0 <= rc.2 < Z.of_nat N + 16)
  /\ forall i j : nat,
       (i < M)%nat -> (j < N)%nat ->
       (Z.of_nat i, Z.of_nat j)
         ∈ thread_coords (Dim3 16 16 1)
             (grid_threads
                (Dim3 ((Z.of_nat N + 15) ÷ 16) ((Z.of_nat M + 15) ÷ 16) 1)
                (Dim3 16 16 1)).
Proof.
  intros HM HN. unfold INT_MAX in *.
  rewrite !Z.quot_div_nonneg by lia.
  pose proof (Z.div_mod (Z.of_nat M + 15) 16 ltac:(lia)).
  pose proof (Z.mod_pos_bound (Z.of_nat M + 15) 16 ltac:(lia)).
  pose proof (Z.div_mod (Z.of_nat N + 15) 16 ltac:(lia)).
  pose proof (Z.mod_pos_bound (Z.of_nat N + 15) 16 ltac:(lia)).
  split; [|split].
  - apply thread_coords_NoDup; lia.
  - intros rc Hrc.
    assert ((Z.of_nat N + 15) / 16 * 16 < 2147483648) as Hx by lia.
    assert ((Z.of_nat M + 15) / 16 * 16 < 2147483648) as Hy by lia.
    pose proof (thread_coords_nonneg _ _ _ _ rc Hx Hy Hrc).
    pose proof (thread_coords_bound _ _ _ _ rc Hx Hy Hrc).
    lia.
  - intros i j Hi Hj. apply thread_coords_cover; lia.
Qed.

Lemma launch_configuration_one_thread_per_entry_witness :
  (Z.of_nat 16, Z.of_nat 2)
    ∈ thread_coords (Dim3 16 16 1)
        (grid_threads (Dim3 ((Z.of_nat 3 + 15) ÷ 16) ((Z.of_nat 17 + 15) ÷ 16) 1)
           (Dim3 16 16 1)).
Proof.
  apply (launch_configuration_one_thread_per_entry 17 3).
  - unfold INT_MAX. lia.
  - unfold INT_MAX. lia.
  - lia.
  - lia.
Defined.

(** ** Sizes that do not fit in an [int] *)

Lemma int_arith_overflow z : INT_MAX < z -> int_arith z = Fault IntOverflow.
Proof.
  intros Hz. unfold int_arith, in_int.
  destruct (Z.leb_spec z INT_MAX); [lia|]. by rewrite andb_false_r.
Qed.

(** X16.  [linearCUBLAS] computes the sizes of its buffers as products of
    two [int] values (lines 77-80): when the dimensions fit in an [int] but
    one of [batchSize * inputDim], [outputDim * inputDim] and
    [batchSize * outputDim] does not, the multiplication overflows before
    any device operation is issued. *)
Theorem linearCUBLAS_size_overflow `{FloatOps F}
  (input weights : list (list F)) (bias : list F) (handle : cublasHandle_t)
  (st : state F) (row0 : list F) :
  input !! 0%nat = Some row0 ->
  Z.of_nat (length input) <= INT_MAX ->
  Z.of_nat (length row0) <= INT_MAX ->
  Z.of_nat (length weights) <= INT_MAX ->
  INT_MAX < Z.of_nat (length input) * Z.of_nat (length row0)
  \/ INT_MAX < Z.of_nat (length weights) * Z.of_nat (length row0)
  \/ INT_MAX < Z.of_nat (length input) * Z.of_nat (length weights) ->
  linearCUBLAS input weights bias handle st = Abort IntOverflow (trace st).
Proof.
  intros Hrow0 HM HK HN Hover. unfold linearCUBLAS.
  rewrite (dev_bind_Done (lift (linearCUBLAS_dims input weights)) _ st
             (Z.of_nat (length input), Z.of_nat (length row0),
              Z.of_nat (length weights)) st); last first.
  { unfold linearCUBLAS_dims. rewrite int_of_size_Ok by done. simpl.
    rewrite (vec_at_Ok input 0 row0 Hrow0 : vec_at input 0 = Ok row0). simpl.
    rewrite !int_of_size_Ok by done. apply lift_Ok. }
  destruct (int_arith_cases (Z.of_nat (length input) * Z.of_nat (length row0)))
    as [H1|H1]; [|by erewrite dev_bind_Abort by (by rewrite H1)].
  erewrite dev_bind_Done by (rewrite H1; apply lift_Ok).
  destruct (int_arith_cases (Z.of_nat (length weights) * Z.of_nat (length row0)))
    as [H2|H2]; [|by erewrite dev_bind_Abort by (by rewrite H2)].
  erewrite dev_bind_Done by (rewrite H2; apply lift_Ok).
  destruct (int_arith_cases (Z.of_nat (length input) * Z.of_nat (length weights)))
    as [H3|H3]; [|by erewrite dev_bind_Abort by (by rewrite H3)].
  exfalso.
  apply int_arith_inv in H1 as [_ ?]. apply int_arith_inv in H2 as [_ ?].
  apply int_arith_inv in H3 as [_ ?]. lia.
Qed.

Lemma linearCUBLAS_size_overflow_witness :
  linearCUBLAS (F:=Z) (replicate (Z.to_nat 65536) [0])
    (replicate (Z.to_nat 32768) [0]) [0] (CublasHandle 0) (State ∅ ∅ [] [])
  = Abort IntOverflow [].
Proof.
  apply (linearCUBLAS_size_overflow (F:=Z) (replicate (Z.to_nat 65536) [0])
           (replicate (Z.to_nat 32768) [0]) [0] (CublasHandle 0) (State ∅ ∅ [] []) [0]).
  - vm_compute. reflexivity.
  - vm_compute. discriminate.
  - vm_compute. discriminate.
  - vm_compute. discriminate.
  - right. right. vm_compute. reflexivity.
Defined.
